(** * Herd projection and management system: model and verified properties

    Shallow embedding of [projection_model.py] (the two-cohort yearly
    projection and the MAE/MAPE evaluator) and of the cow and event tables
    of [db_manager.py].

    - Python [float] and numpy [float64] are IEEE 754 binary64 numbers: the
      standard library's [spec_float] with [prec = 53], [emax = 1024].
    - Python [int] is [Z]; numpy [int64] array entries are [Z] with the
      wrap-around written out ([wrap64]).
    - A call returns a value or raises; [Unmodelled] marks integer lists
      that numpy would not store as [int64] (entries outside the signed
      64-bit range), about which this development says nothing. *)

From Stdlib Require Import ZArith Bool Lia.
From Stdlib Require Import SpecFloat.
From stdpp Require Import gmap strings list fin_maps.

Local Open Scope Z_scope.

(** ** Outcomes of a call *)

Inductive exn : Set :=
| ValueError
| OverflowError
| IndexError
| IntegrityError.

Inductive outcome (A : Type) : Type :=
| Returns (a : A)
| Raises (e : exn)
| Unmodelled.

Arguments Returns {A} a.
Arguments Raises {A} e.
Arguments Unmodelled {A}.

Definition obind {A B : Type} (c : outcome A) (k : A -> outcome B) : outcome B :=
  match c with
  | Returns a => k a
  | Raises e => Raises e
  | Unmodelled => Unmodelled
  end.

#[global] Instance outcome_ret : MRet outcome := @Returns.
#[global] Instance outcome_bind : MBind outcome :=
  fun A B k c => obind c k.
#[global] Instance outcome_fmap : FMap outcome :=
  fun A B f c => obind c (fun a => Returns (f a)).

(** [for item in items: body] over a state [s]; an exception leaves the loop. *)
Fixpoint for_each {S I : Type} (body : I -> S -> outcome S) (items : list I) (s : S)
  : outcome S :=
  match items with
  | [] => Returns s
  | i :: rest => s' ← body i s; for_each body rest s'
  end.

(** [range(a, b)] *)
Definition py_range (a b : Z) : list Z :=
  map (fun k => a + Z.of_nat k) (seq 0 (Z.to_nat (b - a))).

(** ** Binary64 arithmetic *)

Module F64.

Definition prec : Z := 53.
Definition emax : Z := 1024.

Abbreviation float := spec_float.

Definition add : float -> float -> float := SFadd prec emax.
Definition sub : float -> float -> float := SFsub prec emax.
Definition mul : float -> float -> float := SFmul prec emax.
Definition div : float -> float -> float := SFdiv prec emax.
Definition abs : float -> float := SFabs.
Definition ltb : float -> float -> bool := SFltb.
Definition leb : float -> float -> bool := SFleb.
Definition eqb : float -> float -> bool := SFeqb.
Definition valid : float -> bool := valid_binary prec emax.

(** The binary64 number nearest to the integer [z] (ties to even);
    infinite when [z] is beyond the largest finite number. *)
Definition of_Z (z : Z) : float := binary_normalize prec emax z 0 false.

Definition zero : float := S754_zero false.
Definition one : float := S754_finite false 4503599627370496 (-52).
Definition hundred : float := S754_finite false 7036874417766400 (-46).

(** The binary64 number nearest to [n / d]: what the decimal literal
    denotes when [n] and [d] are small. *)
Definition of_ratio (n d : Z) : float := div (of_Z n) (of_Z d).

(** Sign bit clear, or not a number. *)
Definition sign_clear (x : float) : bool :=
  match x with
  | S754_nan => true
  | S754_zero s | S754_infinity s | S754_finite s _ _ => negb s
  end.

End F64.

Abbreviation float := spec_float.

(** Integer nearest to [n / d] for [d > 0], ties to the even neighbour. *)
Definition round_half_even (n d : Z) : Z :=
  let q := n / d in
  let r := n mod d in
  match 2 * r ?= d with
  | Lt => q
  | Gt => q + 1
  | Eq => if Z.even q then q else q + 1
  end.

(** [np.round(x)] with the default [decimals=0] is [rint]: the nearest
    integral binary64 value, ties to even; zeros, infinities and NaN are
    returned as they are, and the sign is kept when the result is zero. *)
Definition np_round (x : float) : float :=
  match x with
  | S754_finite s m e =>
      if 0 <=? e then x
      else binary_normalize F64.prec F64.emax
             (cond_Zopp s (round_half_even (Zpos m) (2 ^ (- e)))) 0 s
  | _ => x
  end.

(** [int(x)] on a float: truncation towards zero; NaN and the infinities
    raise. *)
Definition py_int (x : float) : outcome Z :=
  match x with
  | S754_nan => Raises ValueError
  | S754_infinity _ => Raises OverflowError
  | S754_zero _ => Returns 0
  | S754_finite s m e =>
      Returns (cond_Zopp s (if 0 <=? e then Zpos m * 2 ^ e else Zpos m / 2 ^ (- e)))
  end.

(** Conversion of a Python [int] operand in mixed int/float arithmetic:
    correctly rounded, [OverflowError] when the integer is too large. *)
Definition py_float (z : Z) : outcome float :=
  match F64.of_Z z with
  | S754_infinity _ => Raises OverflowError
  | f => Returns f
  end.

(** [l[-1]] *)
Definition py_last {A : Type} (l : list A) : outcome A :=
  match last l with
  | Some x => Returns x
  | None => Raises IndexError
  end.

(** ** numpy integer arrays *)

Definition int64_min : Z := - 2 ^ 63.
Definition int64_max : Z := 2 ^ 63 - 1.

Definition in_int64 (z : Z) : bool := (int64_min <=? z) && (z <=? int64_max).

Definition wrap64 (z : Z) : Z := (z + 2 ^ 63) mod 2 ^ 64 - 2 ^ 63.

(** [np.array(l)] for a list of Python ints: an [int64] array when every
    entry fits a signed 64-bit integer. For other lists numpy chooses
    another element type (unsigned 64-bit integers, binary64 numbers or
    Python objects) with an arithmetic of its own; those arrays are not
    described here, and the call is [Unmodelled]. Statements that depend
    on the total column say that the counts of the frame fit 64 bits. *)
Definition np_array_int (l : list Z) : outcome (list Z) :=
  if forallb in_int64 l then Returns l else Unmodelled.

(** Element-wise binary operation on one-dimensional arrays with numpy's
    broadcasting: equal lengths pair up, a length-1 operand is stretched
    to the other length, anything else raises [ValueError]. *)
Definition broadcast2 {A B C : Type} (f : A -> B -> C) (xs : list A) (ys : list B)
  : outcome (list C) :=
  if (length xs =? length ys)%nat then Returns (zip_with f xs ys)
  else match xs, ys with
       | [x], _ => Returns (map (f x) ys)
       | _, [y] => Returns (map (fun x => f x y) xs)
       | _, _ => Raises ValueError
       end.

Definition int64_add (x y : Z) : Z := wrap64 (x + y).

(** ** projection_model.project_herd_yearly *)

(** The returned [pd.DataFrame], column by column. *)
Record DataFrame : Type := {
  Year : list Z;
  Breeders : list Z;
  Juveniles : list Z;
  Total : list Z
}.

(** [pd.DataFrame({...})]: columns of different lengths raise [ValueError]. *)
Definition pd_DataFrame (year breeders juveniles total : list Z) : outcome DataFrame :=
  if (length year =? length breeders)%nat
     && (length breeders =? length juveniles)%nat
     && (length juveniles =? length total)%nat
  then Returns {| Year := year; Breeders := breeders;
                  Juveniles := juveniles; Total := total |}
  else Raises ValueError.

Definition nrows (df : DataFrame) : nat := length (Year df).

(** The computation in the loop body: next year's counts from the lists
    [B] and [Y]. *)
Definition next_counts (C m : float) (B Y : list Z) : outcome (Z * Z) :=
  (* birth_n = C * B[-1] *)
  lastB ← py_last B;
  b ← py_float lastB;
  let birth_n := F64.mul C b in
  (* next_B_raw = (B[-1] * (1 - m)) + (Y[-1] * (1 - m)) *)
  b1 ← py_float lastB;
  lastY ← py_last Y;
  y1 ← py_float lastY;
  let next_B_raw :=
    F64.add (F64.mul b1 (F64.sub F64.one m)) (F64.mul y1 (F64.sub F64.one m)) in
  (* next_Y_raw = birth_n * (1 - m) *)
  let next_Y_raw := F64.mul birth_n (F64.sub F64.one m) in
  next_B ← py_int (np_round next_B_raw);
  next_Y ← py_int (np_round next_Y_raw);
  Returns (next_B, next_Y).

(** One pass of the loop: compute, then [B.append(next_B)] and
    [Y.append(next_Y)]. *)
Definition loop_body (C m : float) (n : Z) (st : list Z * list Z)
  : outcome (list Z * list Z) :=
  let '(B, Y) := st in
  '(next_B, next_Y) ← next_counts C m B Y;
  Returns (B ++ [next_B], Y ++ [next_Y]).

(** The frame built after the loop, with the total column
    [np.array(B) + np.array(Y)]. *)
Definition build_frame (years : Z) (B Y : list Z) : outcome DataFrame :=
  aB ← np_array_int B;
  aY ← np_array_int Y;
  total ← broadcast2 int64_add aB aY;
  pd_DataFrame (py_range 0 (years + 1)) B Y total.

Definition project_herd_yearly (B0 Y0 : Z) (C m : float) (years : Z)
  : outcome DataFrame :=
  '(B, Y) ← for_each (loop_body C m) (py_range 1 (years + 1)) ([B0], [Y0]);
  build_frame years B Y.

(** *** The same call on a store of list objects

    [B] and [Y] are list objects allocated by the call and appended to in
    place; the store holds every list object of the running program. *)

Definition prog (A : Type) : Type :=
  gmap positive (list Z) -> outcome A * gmap positive (list Z).

Definition prog_ret {A : Type} (a : A) : prog A := fun h => (Returns a, h).

Definition prog_bind {A B : Type} (c : prog A) (k : A -> prog B) : prog B :=
  fun h =>
    match c h with
    | (Returns a, h') => k a h'
    | (Raises e, h') => (Raises e, h')
    | (Unmodelled, h') => (Unmodelled, h')
    end.

#[global] Instance prog_mret : MRet prog := @prog_ret.
#[global] Instance prog_mbind : MBind prog := fun A B k c => prog_bind c k.

(** A computation that does not touch the store. *)
Definition lift {A : Type} (c : outcome A) : prog A := fun h => (c, h).

(** [[x0]]: a new list object. *)
Definition new_list (v : list Z) : prog positive :=
  fun h => let l := fresh (dom h) in (Returns l, <[l := v]> h).

Definition list_contents (l : positive) : prog (list Z) :=
  fun h => (Returns (default [] (h !! l)), h).

(** [l.append(x)] *)
Definition list_append (l : positive) (x : Z) : prog unit :=
  fun h => (Returns tt, alter (fun v => v ++ [x]) l h).

Fixpoint for_each_prog {I : Type} (body : I -> prog unit) (items : list I)
  : prog unit :=
  match items with
  | [] => prog_ret tt
  | i :: rest => prog_bind (body i) (fun _ => for_each_prog body rest)
  end.

Definition loop_body_prog (C m : float) (lB lY : positive) (n : Z) : prog unit :=
  B ← list_contents lB;
  Y ← list_contents lY;
  '(next_B, next_Y) ← lift (next_counts C m B Y);
  _ ← list_append lB next_B;
  list_append lY next_Y.

Definition project_herd_yearly_prog (B0 Y0 : Z) (C m : float) (years : Z)
  : prog DataFrame :=
  lB ← new_list [B0];
  lY ← new_list [Y0];
  _ ← for_each_prog (loop_body_prog C m lB lY) (py_range 1 (years + 1));
  B ← list_contents lB;
  Y ← list_contents lY;
  lift (build_frame years B Y).

(** A store-passing run [(r, h')] from [h] does to the objects [lB] and
    [lY] what the run [pure] on lists does, and touches no other object. *)
Definition simulates (lB lY : positive) (r : outcome unit)
    (h h' : gmap positive (list Z)) (pure : outcome (list Z * list Z)) : Prop :=
  (forall l, l <> lB -> l <> lY -> h' !! l = h !! l) /\
  match pure with
  | Returns (B', Y') => r = Returns tt /\ h' !! lB = Some B' /\ h' !! lY = Some Y'
  | Raises e => r = Raises e
  | Unmodelled => r = Unmodelled
  end.

(** The recurrence as the specification writes it, for one year:
    [B[n] = round(B[n-1]*(1-m) + Y[n-1]*(1-m))] and
    [Y[n] = round(C*B[n-1]*(1-m))], in binary64 with [round] the
    half-to-even rounding to an integer. *)
Definition recurrence_B (m : float) (b y : Z) : outcome Z :=
  fb ← py_float b;
  fy ← py_float y;
  py_int (np_round (F64.add (F64.mul fb (F64.sub F64.one m))
                            (F64.mul fy (F64.sub F64.one m)))).

Definition recurrence_Y (C m : float) (b : Z) : outcome Z :=
  fb ← py_float b;
  py_int (np_round (F64.mul (F64.mul C fb) (F64.sub F64.one m))).

(** Consecutive entries of the two columns obey the recurrence. *)
Definition obeys_recurrence (C m : float) (B Y : list Z) : Prop :=
  forall (n : nat) (b y b' y' : Z),
    B !! n = Some b -> Y !! n = Some y ->
    B !! S n = Some b' -> Y !! S n = Some y' ->
    recurrence_B m b y = Returns b' /\ recurrence_Y C m b = Returns y'.

(** The literals [0.5], [0.05] and [1.5] as binary64 numbers. *)
Definition f_0_5 : float := S754_finite false 4503599627370496 (-53).
Definition f_0_05 : float := S754_finite false 7205759403792794 (-57).
Definition f_1_5 : float := S754_finite false 6755399441055744 (-52).

(** ** projection_model.calculate_error *)

(** Entries of the argument lists: Python ints or floats. *)
Inductive pynum : Type :=
| PyInt (z : Z)
| PyFloat (x : float).

(** One-dimensional numpy arrays of the two dtypes that occur. *)
Inductive ndarray : Type :=
| Int64Array (a : list Z)
| Float64Array (a : list float).

Definition is_PyInt (v : pynum) : bool :=
  match v with PyInt _ => true | PyFloat _ => false end.

Definition pynum_in_int64 (v : pynum) : bool :=
  match v with PyInt z => in_int64 z | PyFloat _ => true end.

Definition pynum_Z (v : pynum) : Z :=
  match v with PyInt z => z | PyFloat _ => 0 end.

Definition pynum_float (v : pynum) : float :=
  match v with PyInt z => F64.of_Z z | PyFloat x => x end.

(** [np.array(l)]: the empty list and lists holding a float give a
    [float64] array, lists of ints an [int64] array. A list with an int
    outside the signed 64-bit range gets another element type (or is
    refused) and is [Unmodelled]. *)
Definition np_array (l : list pynum) : outcome ndarray :=
  if negb (forallb pynum_in_int64 l) then Unmodelled
  else match l with
       | [] => Returns (Float64Array [])
       | _ => if forallb is_PyInt l then Returns (Int64Array (map pynum_Z l))
              else Returns (Float64Array (map pynum_float l))
       end.

(** Cast of an array to [float64]. *)
Definition as_float64 (a : ndarray) : list float :=
  match a with
  | Int64Array l => map F64.of_Z l
  | Float64Array l => l
  end.

Definition np_len (a : ndarray) : nat :=
  match a with
  | Int64Array l => length l
  | Float64Array l => length l
  end.

Definition int64_sub (x y : Z) : Z := wrap64 (x - y).
Definition int64_abs (x : Z) : Z := wrap64 (Z.abs x).

(** [a - b] *)
Definition np_sub (a b : ndarray) : outcome ndarray :=
  match a, b with
  | Int64Array x, Int64Array y => Int64Array <$> broadcast2 int64_sub x y
  | _, _ => Float64Array <$> broadcast2 F64.sub (as_float64 a) (as_float64 b)
  end.

(** [a / b]: true division, always [float64]. *)
Definition np_true_divide (a b : ndarray) : outcome (list float) :=
  broadcast2 F64.div (as_float64 a) (as_float64 b).

(** [np.abs(a)] *)
Definition np_abs (a : ndarray) : ndarray :=
  match a with
  | Int64Array l => Int64Array (map int64_abs l)
  | Float64Array l => Float64Array (map F64.abs l)
  end.

(** *** Sums as numpy computes them

    [np.add.reduce] hands a contiguous float64 buffer to the pairwise
    summation of numpy's inner loop. Fewer than eight numbers are added
    one after the other, from 0.0. Up to 128 numbers go through eight
    running sums: the first eight entries start them, every further full
    group of eight is added position by position, the eight sums are
    combined as a balanced tree, and the entries of the last, incomplete
    group are added to the result one by one. A longer buffer is cut in
    two, the first part of [n / 2] entries rounded down to a multiple of
    eight, and the sums of the parts are added. *)
Definition sum_tree8 (r : list float) : float :=
  match r with
  | [r0; r1; r2; r3; r4; r5; r6; r7] =>
      F64.add (F64.add (F64.add r0 r1) (F64.add r2 r3))
              (F64.add (F64.add r4 r5) (F64.add r6 r7))
  | _ => F64.zero
  end.

(** [k] further groups of eight added to the running sums [r]. *)
Fixpoint add_groups (k : nat) (r rest : list float) : list float * list float :=
  match k with
  | O => (r, rest)
  | S k' => add_groups k' (zip_with F64.add r (take 8 rest)) (drop 8 rest)
  end.

Definition unrolled_sum (l : list float) : float :=
  let '(r, rest) := add_groups (length l / 8 - 1)%nat (take 8 l) (drop 8 l) in
  fold_left F64.add rest (sum_tree8 r).

(** [depth] bounds the number of halvings; the length of the list is
    always enough ([pairwise_sum_depth]). *)
Fixpoint pairwise_sum (depth : nat) (l : list float) : float :=
  let n := length l in
  if (n <? 8)%nat then fold_left F64.add l F64.zero
  else if (n <=? 128)%nat then unrolled_sum l
  else match depth with
       | O => unrolled_sum l
       | S d =>
           let n2 := (n / 2 - (n / 2) mod 8)%nat in
           F64.add (pairwise_sum d (take n2 l)) (pairwise_sum d (drop n2 l))
       end.

(** The sum of one buffer of numbers: the reduction starts from the
    identity 0.0 and adds the pairwise sum of the buffer. *)
Definition float_sum (l : list float) : float :=
  F64.add F64.zero (pairwise_sum (length l) l).

(** Elements per buffer of a reduction ([np.getbufsize()]). *)
Definition bufsize : nat := Z.to_nat 8192.

(** [np.add.reduce] as [np.mean] calls it, with [float64] results: the
    reduction takes the array one buffer of [bufsize] entries after the
    other (an [int64] array is cast on the way into the buffer), and adds
    the pairwise sum of each buffer to the result, which starts from the
    identity 0.0. Up to [bufsize] entries this is [float_sum]
    ([buffered_sum_small]). The sign of a zero sum is not described (a
    sum of negative zeros alone, which numpy may return as -0.0, is +0.0
    here): no statement below depends on it. *)
Fixpoint buffered_sum_from (fuel : nat) (acc : float) (l : list float) : float :=
  match l, fuel with
  | [], _ => acc
  | _, O => acc
  | _, S fuel' =>
      let chunk := take bufsize l in
      buffered_sum_from fuel' (F64.add acc (pairwise_sum (length chunk) chunk))
        (drop bufsize l)
  end.

Definition buffered_sum (l : list float) : float :=
  buffered_sum_from (length l) F64.zero l.

(** [np.mean]: the sum divided by the count; NaN (0.0 / 0) for an empty
    array. *)
Definition mean (l : list float) : float :=
  F64.div (buffered_sum l) (F64.of_Z (Z.of_nat (length l))).

Definition np_mean (a : ndarray) : float := mean (as_float64 a).

Definition float_nonzero (x : float) : bool := negb (F64.eqb x F64.zero).

(** [a != 0] *)
Definition np_ne0 (a : ndarray) : list bool :=
  match a with
  | Int64Array l => map (fun z => negb (z =? 0)) l
  | Float64Array l => map float_nonzero l
  end.

(** [np.any(mask)] *)
Definition np_any (mask : list bool) : bool := existsb id mask.

Fixpoint select {A : Type} (mask : list bool) (l : list A) : list A :=
  match mask, l with
  | b :: mask', x :: l' => if b then x :: select mask' l' else select mask' l'
  | _, _ => []
  end.

(** [a[mask]] with a boolean mask: the mask must be as long as the array. *)
Definition np_getitem_mask (a : ndarray) (mask : list bool) : outcome ndarray :=
  if (np_len a =? length mask)%nat then
    Returns match a with
            | Int64Array l => Int64Array (select mask l)
            | Float64Array l => Float64Array (select mask l)
            end
  else Raises IndexError.

Definition calculate_error (projected_counts actual_counts : list pynum)
  : outcome (float * float) :=
  projected ← np_array projected_counts;
  actual ← np_array actual_counts;
  (* mae = np.mean(np.abs(projected - actual)) *)
  diff ← np_sub projected actual;
  let mae := np_mean (np_abs diff) in
  let valid_mask := np_ne0 actual in
  if negb (np_any valid_mask) then Returns (mae, F64.zero)
  else
    (* np.abs(projected[valid_mask] - actual[valid_mask]) / actual[valid_mask] *)
    pv ← np_getitem_mask projected valid_mask;
    av ← np_getitem_mask actual valid_mask;
    dv ← np_sub pv av;
    av' ← np_getitem_mask actual valid_mask;
    percentage_errors ← np_true_divide (np_abs dv) av';
    let mape := F64.mul (mean percentage_errors) F64.hundred in
    Returns (mae, mape).

(** *** The error summary as the specification writes it *)

(** An array entry as a numpy scalar. *)
Inductive scalar : Type :=
| Int64 (z : Z)
| Float64 (x : float).

Definition items (a : ndarray) : list scalar :=
  match a with
  | Int64Array l => map Int64 l
  | Float64Array l => map Float64 l
  end.

Definition scalar_float (v : scalar) : float :=
  match v with Int64 z => F64.of_Z z | Float64 x => x end.

Definition scalar_sub (p a : scalar) : scalar :=
  match p, a with
  | Int64 x, Int64 y => Int64 (int64_sub x y)
  | _, _ => Float64 (F64.sub (scalar_float p) (scalar_float a))
  end.

Definition scalar_abs (v : scalar) : scalar :=
  match v with Int64 z => Int64 (int64_abs z) | Float64 x => Float64 (F64.abs x) end.

Definition scalar_nonzero (v : scalar) : bool :=
  match v with Int64 z => negb (z =? 0) | Float64 x => float_nonzero x end.

(** [|p - a|] and [|p - a| / a] on numpy scalars, as [float64]. *)
Definition scalar_abs_error (pa : scalar * scalar) : float :=
  scalar_float (scalar_abs (scalar_sub (fst pa) (snd pa))).

Definition scalar_percentage_error (pa : scalar * scalar) : float :=
  F64.div (scalar_abs_error pa) (scalar_float (snd pa)).

(** The two summaries entry by entry, in numpy's scalar arithmetic. *)
Definition entrywise_MAE (projected actual : ndarray) : float :=
  mean (map scalar_abs_error (zip (items projected) (items actual))).

Definition entrywise_MAPE (projected actual : ndarray) : float :=
  match List.filter (fun pa => scalar_nonzero (snd pa))
          (zip (items projected) (items actual)) with
  | [] => F64.zero
  | sample => F64.mul (mean (map scalar_percentage_error sample)) F64.hundred
  end.

(** [|projected[i] - actual[i]|]: the exact absolute difference of two
    integers, the binary64 one otherwise. *)
Definition abs_error (pa : scalar * scalar) : float :=
  match pa with
  | (Int64 x, Int64 y) => F64.of_Z (Z.abs (x - y))
  | (p, a) => F64.abs (F64.sub (scalar_float p) (scalar_float a))
  end.

(** [|projected[i] - actual[i]| / actual[i]] *)
Definition percentage_error (pa : scalar * scalar) : float :=
  F64.div (abs_error pa) (scalar_float (snd pa)).

(** The mean of at most [bufsize] binary64 numbers: their pairwise sum
    divided by their count. *)
Definition pairwise_mean (l : list float) : float :=
  F64.div (float_sum l) (F64.of_Z (Z.of_nat (length l))).

(** MAE: the mean of the absolute errors over all indices. *)
Definition spec_MAE (projected actual : ndarray) : float :=
  pairwise_mean (map abs_error (zip (items projected) (items actual))).

(** MAPE: 100 times the mean of the percentage errors over the indices
    whose actual value is not zero; 0.0 when there is none. *)
Definition spec_MAPE (projected actual : ndarray) : float :=
  match List.filter (fun pa => scalar_nonzero (snd pa))
          (zip (items projected) (items actual)) with
  | [] => F64.zero
  | sample => F64.mul (pairwise_mean (map percentage_error sample)) F64.hundred
  end.

(** The difference of two integer entries, and its absolute value, fit
    the signed 64-bit range. *)
Definition difference_in_range (pa : scalar * scalar) : bool :=
  match pa with
  | (Int64 x, Int64 y) => (- 2 ^ 63 <? x - y) && (x - y <? 2 ^ 63)
  | _ => true
  end.

Definition differences_in_range (projected actual : ndarray) : bool :=
  forallb difference_in_range (zip (items projected) (items actual)).

(** ** db_manager: the cows and events tables *)

(** A row of [cows] without its primary key [cow_id]. *)
Record cow_row : Type := {
  sex : string;
  birth_date : string;
  status : string;
  mother_id : option string;
  breed : string
}.

Record event_row : Type := {
  event_id : Z;
  event_cow_id : string;
  event_type : string;
  event_date : string;
  details : string
}.

(** The database file: [cows] keyed by [cow_id TEXT PRIMARY KEY], [events]
    in insertion order with the AUTOINCREMENT counter. Foreign keys are
    not enforced (the connection never enables them). *)
Record database : Type := {
  cows : gmap string cow_row;
  events : list event_row;
  event_seq : Z
}.

(** An open connection: the file as last committed and the pending
    transaction's view of it. *)
Record connection : Type := {
  stored : database;
  pending : database
}.

Definition get_db_connection (file : database) : connection :=
  {| stored := file; pending := file |}.

Definition commit (conn : connection) : connection :=
  {| stored := pending conn; pending := pending conn |}.

(** Closing discards what was not committed. *)
Definition close (conn : connection) : database := stored conn.

(** [INSERT INTO cows ... VALUES (...)] *)
Definition insert_cow (conn : connection) (cow_id : string) (row : cow_row)
  : outcome connection :=
  let db := pending conn in
  match cows db !! cow_id with
  | Some _ => Raises IntegrityError
  | None =>
      Returns {| stored := stored conn;
                 pending := {| cows := <[cow_id := row]> (cows db);
                               events := events db;
                               event_seq := event_seq db |} |}
  end.

(** [INSERT INTO events (cow_id, event_type, event_date, details) ...] *)
Definition insert_event (conn : connection)
    (cow_id event_type event_date details : string) : outcome connection :=
  let db := pending conn in
  let id := event_seq db + 1 in
  Returns {| stored := stored conn;
             pending := {| cows := cows db;
                           events := events db ++
                             [{| event_id := id; event_cow_id := cow_id;
                                 event_type := event_type;
                                 event_date := event_date;
                                 details := details |}];
                           event_seq := id |} |}.

Definition set_status (new_status : string) (row : cow_row) : cow_row :=
  {| sex := sex row; birth_date := birth_date row; status := new_status;
     mother_id := mother_id row; breed := breed row |}.

(** [UPDATE cows SET status = ? WHERE cow_id = ?] *)
Definition update_status (conn : connection) (new_status cow_id : string)
  : outcome connection :=
  let db := pending conn in
  Returns {| stored := stored conn;
             pending := {| cows := alter (set_status new_status) cow_id (cows db);
                           events := events db;
                           event_seq := event_seq db |} |}.

(** [add_new_cow]: the Boolean result (or a propagated exception) and the
    database file after the connection is closed. *)
Definition add_new_cow (file : database) (cow_id sex birth_date : string)
    (mother_id : option string) (breed : string) : outcome bool * database :=
  let conn := get_db_connection file in
  match insert_cow conn cow_id
          {| sex := sex; birth_date := birth_date; status := "Active";
             mother_id := mother_id; breed := breed |} with
  | Returns conn' => (Returns true, close (commit conn'))
  | Raises IntegrityError => (Returns false, close conn)
  | Raises e => (Raises e, close conn)
  | Unmodelled => (Unmodelled, close conn)
  end.

(** [event_type in ('Death', 'Sale')] *)
Definition is_exit_event (event_type : string) : bool :=
  bool_decide (event_type = "Death") || bool_decide (event_type = "Sale").

(** [log_event]; [today] is [datetime.now().strftime("%Y-%m-%d")]. Any
    exception is printed and swallowed, the connection closed without a
    commit. *)
Definition log_event (file : database) (today : string)
    (cow_id event_type details : string) : database :=
  let conn := get_db_connection file in
  let attempt :=
    c1 ← insert_event conn cow_id event_type today details;
    c2 ← (if is_exit_event event_type
          then update_status c1 event_type cow_id
          else Returns c1);
    Returns (commit c2) in
  match attempt with
  | Returns conn' => close conn'
  | _ => close conn
  end.

(** The status vocabulary of the [cows] table, as the schema comment in
    [initialize_db] gives it: [-- e.g., Active, Sold, Dead]. *)
Definition status_vocabulary : list string := ["Active"; "Sold"; "Dead"].

(** A database holding one active cow. *)
Definition herd_of_one : database :=
  {| cows := {[ "UEMBU-001"%string :=
                  {| sex := "Female"; birth_date := "2021-03-01";
                     status := "Active"; mother_id := None; breed := "N/A" |} ]};
     events := [];
     event_seq := 0 |}.

(** ** Rows of a frame *)

(** The first [n] rows of a frame. *)
Definition frame_head (n : nat) (df : DataFrame) : DataFrame :=
  {| Year := take n (Year df); Breeders := take n (Breeders df);
     Juveniles := take n (Juveniles df); Total := take n (Total df) |}.

(** The rows of a frame from row [n] on, with the years counted from
    that row. *)
Definition frame_tail (n : nat) (df : DataFrame) : DataFrame :=
  {| Year := map (fun y => y - Z.of_nat n) (drop n (Year df));
     Breeders := drop n (Breeders df);
     Juveniles := drop n (Juveniles df);
     Total := drop n (Total df) |}.

(** A zero of either sign, or not a number. *)
Definition zero_or_nan (x : float) : bool :=
  match x with
  | S754_zero _ | S754_nan => true
  | _ => false
  end.

(** The projection of the form's default inputs over ten years. *)
Definition default_projection : DataFrame :=
  {| Year := [0; 1; 2; 3; 4; 5; 6; 7; 8; 9; 10];
     Breeders := [20; 28; 36; 47; 61; 79; 103; 134; 174; 226; 294];
     Juveniles := [10; 10; 13; 17; 22; 29; 38; 49; 64; 83; 107];
     Total := [30; 38; 49; 64; 83; 108; 141; 183; 238; 309; 401] |}.

(** A float that is finite and not zero, or infinite, with sign bit [s]. *)
Definition nonzero_with_sign (s : bool) (x : float) : Prop :=
  match x with
  | S754_finite s' _ _ | S754_infinity s' => s' = s
  | _ => False
  end.

Definition float_finite (x : float) : bool :=
  match x with
  | S754_finite _ _ _ | S754_zero _ => true
  | _ => false
  end.

(** A list entry that numpy stores as a finite number: an int of the
    signed 64-bit range or a finite float. *)
Definition pynum_finite (v : pynum) : bool :=
  match v with
  | PyInt z => in_int64 z
  | PyFloat x => float_finite x
  end.

Definition scalar_finite (v : scalar) : bool :=
  match v with
  | Int64 _ => true
  | Float64 x => float_finite x
  end.

Definition is_zero (x : float) : bool :=
  match x with
  | S754_zero _ => true
  | _ => false
  end.

(** The same number: the same binary64 datum, or two zeros whatever
    their signs. *)
Definition same_value (x y : float) : Prop :=
  x = y \/ (is_zero x = true /\ is_zero y = true).

(** ** db_manager.initialize_db and the event-logging page of app.py *)

Definition empty_database : database :=
  {| cows := ∅; events := []; event_seq := 0 |}.

(** [initialize_db]: [CREATE TABLE IF NOT EXISTS] makes the empty tables
    in a new file and leaves the tables of an existing file as they are. *)
Definition initialize_db (file : option database) : database :=
  match file with
  | Some db => db
  | None => empty_database
  end.

(** The message the birth form shows after a submission. *)
Inductive birth_message : Set :=
| CalfIdRequired
| BirthLogged
| IdExists.

(** [f"Sex: {calf_sex}, Breed: {breed}"] *)
Definition birth_details (calf_sex breed : string) : string :=
  "Sex: " +:+ calf_sex +:+ ", Breed: " +:+ breed.

(** A submission of [new_birth_form]. The two text inputs give strings, so
    the mother id is passed as a string even when left empty. *)
Definition new_birth_form (file : database)
    (today calf_id calf_sex birth_date mother_id breed : string)
  : outcome birth_message * database :=
  match calf_id with
  | EmptyString => (Returns CalfIdRequired, file)
  | _ =>
      match add_new_cow file calf_id calf_sex birth_date (Some mother_id) breed with
      | (Returns true, file') =>
          (Returns BirthLogged,
           log_event file' today calf_id "Birth" (birth_details calf_sex breed))
      | (Returns false, file') => (Returns IdExists, file')
      | (Raises e, file') => (Raises e, file')
      | (Unmodelled, file') => (Unmodelled, file')
      end
  end.

(** The exit form offers the cows [get_all_cows()] returns with
    [status == 'Active'] (the order of the rows, by birth date, plays no
    part in what can be selected). *)
Definition is_active (file : database) (cow_id : string) : bool :=
  match cows file !! cow_id with
  | Some row => bool_decide (status row = "Active"%string)
  | None => false
  end.

Definition exit_type_options : list string := ["Death"; "Sale"]%string.

(** A submission of [cull_form]: an exit type and a cow id among those
    offered, and free notes; [None] when the form cannot submit that
    choice. *)
Definition cull_form (file : database) (today exit_type cow_id details : string)
  : option database :=
  if bool_decide (exit_type ∈ exit_type_options) && is_active file cow_id
  then Some (log_event file today cow_id exit_type details)
  else None.

(** One submission of either form of the event-logging page. *)
Inductive app_step : database -> database -> Prop :=
| birth_submitted (file : database)
    (today calf_id calf_sex birth_date mother_id breed : string) :
    app_step file
      (snd (new_birth_form file today calf_id calf_sex birth_date mother_id breed))
| cull_submitted (file file' : database) (today exit_type cow_id details : string) :
    cull_form file today exit_type cow_id details = Some file' ->
    app_step file file'.

(** The databases the page can produce from a new file. *)
Inductive reachable : database -> Prop :=
| reachable_new : reachable (initialize_db None)
| reachable_step (db db' : database) :
    reachable db -> app_step db db' -> reachable db'.

Definition about (cow_id : string) (ev : event_row) : bool :=
  bool_decide (event_cow_id ev = cow_id).

(** The [Birth] events and the exit events logged for a cow. *)
Definition birth_events (db : database) (cow_id : string) : list event_row :=
  List.filter (fun ev => about cow_id ev && bool_decide (event_type ev = "Birth"%string))
    (events db).

Definition exit_events (db : database) (cow_id : string) : list event_row :=
  List.filter (fun ev => about cow_id ev && is_exit_event (event_type ev))
    (events db).

(** What the two forms keep true of the tables. *)
Record consistent (db : database) : Prop := {
  consistent_seq : event_seq db = Z.of_nat (length (events db));
  consistent_ids : forall (i : nat) (ev : event_row),
    events db !! i = Some ev -> event_id ev = Z.of_nat i + 1;
  consistent_cow : forall ev : event_row,
    ev ∈ events db -> is_Some (cows db !! event_cow_id ev);
  consistent_births : forall (cow_id : string) (row : cow_row),
    cows db !! cow_id = Some row -> length (birth_events db cow_id) = 1%nat;
  consistent_status : forall (cow_id : string) (row : cow_row),
    cows db !! cow_id = Some row ->
    match exit_events db cow_id with
    | [] => status row = "Active"%string
    | [ev] => status row = event_type ev
    | _ => False
    end
}.

(** Any number of submissions, one after the other. *)
Inductive app_steps : database -> database -> Prop :=
| app_steps_none (db : database) : app_steps db db
| app_steps_more (db db' db'' : database) :
    app_step db db' -> app_steps db' db'' -> app_steps db db''.

(** A herd logged through the forms: two births, then a sale. *)
Definition two_calves : database :=
  snd (new_birth_form
         (snd (new_birth_form (initialize_db None) "2024-03-02" "UEMBU-001"
                 "Female" "2024-03-01" EmptyString "Boran"))
         "2024-04-11" "UEMBU-002" "Male" "2024-04-10" "UEMBU-001" "Boran").

Definition logged_herd : database :=
  log_event two_calves "2025-01-20" "UEMBU-002" "Sale" "Sold at market".

(** ** db_manager: the projections table *)

(** A [REAL] column: SQLite stores a NaN as [NULL]. *)
Definition sqlite_real (x : float) : option float :=
  match x with
  | S754_nan => None
  | _ => Some x
  end.

Record projection_row : Type := {
  proj_id : Z;
  run_date : string;
  B0_start : Z;
  Y0_start : Z;
  C_param : option float;
  m_param : option float;
  projection_data_json : string
}.

(** The [projections] table in insertion order, with its AUTOINCREMENT
    counter. No function of the program touches it together with the other
    two tables. *)
Record projections_table : Type := {
  projections : list projection_row;
  proj_seq : Z
}.

Definition no_projections : projections_table :=
  {| projections := []; proj_seq := 0 |}.

Section Projections.

(** [DataFrame.to_json(orient='split')] and [pd.read_json(_, orient='split')]
    are pandas functions, taken as given. *)
Variable to_json : DataFrame -> string.
Variable read_json : string -> outcome DataFrame.

(** [save_projection]; [now] is the formatted [datetime.now()]. An integer
    that does not fit SQLite's 64-bit INTEGER makes the INSERT raise
    [OverflowError], which is printed and swallowed like any exception.
    The counter is taken to be below SQLite's largest id, [2^63 - 1] (see
    [projections_wf]); a table that has used up its ids is not described. *)
Definition save_projection (file : projections_table) (now : string)
    (B0 Y0 : Z) (C m : float) (proj_df : DataFrame) : projections_table :=
  let proj_json := to_json proj_df in
  let attempt : outcome projections_table :=
    if in_int64 B0 && in_int64 Y0 then
      let id := proj_seq file + 1 in
      Returns {| projections := projections file ++
                   [{| proj_id := id; run_date := now;
                       B0_start := B0; Y0_start := Y0;
                       C_param := sqlite_real C; m_param := sqlite_real m;
                       projection_data_json := proj_json |}];
                 proj_seq := id |}
    else Raises OverflowError in
  match attempt with
  | Returns file' => file'
  | _ => file
  end.

(** [cursor.fetchone()] of
    [SELECT projection_data_json FROM projections WHERE proj_id = ?]. *)
Definition fetch_projection_json (file : projections_table) (id : Z)
  : option string :=
  projection_data_json <$>
    List.find (fun r => proj_id r =? id) (projections file).

(** [get_projection_data]: the decoded frame, or [None] for the empty
    [pd.DataFrame()] returned when no row is found or its JSON text is
    empty. An id outside SQLite's signed 64-bit range cannot be bound to
    the query: [cursor.execute] raises [OverflowError], which the
    [try ... finally] lets through. *)
Definition get_projection_data (file : projections_table) (id : Z)
  : outcome (option DataFrame) :=
  if in_int64 id then
    match fetch_projection_json file id with
    | Some (String c s) => Some <$> read_json (String c s)
    | _ => Returns None
    end
  else Raises OverflowError.

End Projections.

(** A table as SQLite keeps it, with room for one more row: no saved row
    has an id above the counter, and the counter is below the largest id,
    [2^63 - 1]. *)
Definition projections_wf (file : projections_table) : Prop :=
  0 <= proj_seq file < int64_max /\
  forall r : projection_row, r ∈ projections file -> proj_id r <= proj_seq file.

(** The Fibonacci-like rows [(b, y), (b + y, b), ...]: [n + 1] of them. *)
Fixpoint fib_rows (n : nat) (b y : Z) : list (Z * Z) :=
  match n with
  | O => [(b, y)]
  | S n' => (b, y) :: fib_rows n' (b + y) b
  end.

(** ** Sizes of binary64 numbers *)

(** [|x| <= 2^k], for a finite [x]. *)
Definition abs_le_pow2 (k : Z) (x : float) : bool :=
  match x with
  | S754_zero _ => true
  | S754_finite _ m e => (e <=? k) && (Zpos m <=? 2 ^ (k - e))
  | _ => false
  end.

(** * Properties *)

(** ** Outcome monad *)

Lemma bind_Returns {A B : Type} (c : outcome A) (k : A -> outcome B) (b : B) :
  c ≫= k = Returns b -> exists a, c = Returns a /\ k a = Returns b.
Proof.
  destruct c as [a| |]; cbn; intros H; try discriminate.
  exists a. split; [reflexivity | exact H].
Qed.

(** ** Binary64 facts *)

Section Float_facts.

Local Abbreviation prec := F64.prec.
Local Abbreviation emax := F64.emax.

Lemma digits2_pos_bound (m : positive) : Zpos m < 2 ^ Zpos (digits2_pos m).
Proof.
  induction m as [m IH | m IH |]; cbn [digits2_pos].
  - rewrite Pos2Z.inj_succ, Z.pow_succ_r by lia. lia.
  - rewrite Pos2Z.inj_succ, Z.pow_succ_r by lia. lia.
  - reflexivity.
Qed.

Lemma digits2_pos_lower (m : positive) : 2 ^ (Zpos (digits2_pos m) - 1) <= Zpos m.
Proof.
  induction m as [m IH | m IH |]; cbn [digits2_pos].
  - rewrite Pos2Z.inj_succ. replace (Z.succ (Zpos (digits2_pos m)) - 1)
      with (Z.succ (Zpos (digits2_pos m) - 1)) by lia.
    rewrite Z.pow_succ_r by lia. lia.
  - rewrite Pos2Z.inj_succ. replace (Z.succ (Zpos (digits2_pos m)) - 1)
      with (Z.succ (Zpos (digits2_pos m) - 1)) by lia.
    rewrite Z.pow_succ_r by lia. lia.
  - cbn. lia.
Qed.

Lemma iter_xO_value (d m : positive) : Zpos (Pos.iter xO m d) = Zpos m * 2 ^ Zpos d.
Proof.
  induction d as [|d IH] using Pos.peano_ind.
  - cbn. lia.
  - rewrite Pos.iter_succ, Pos2Z.inj_succ, Z.pow_succ_r by lia.
    rewrite Pos2Z.inj_xO, IH. ring.
Qed.

Lemma iter_xO_digits (d m : positive) :
  Zpos (digits2_pos (Pos.iter xO m d)) = Zpos (digits2_pos m) + Zpos d.
Proof.
  induction d as [|d IH] using Pos.peano_ind.
  - cbn. lia.
  - rewrite Pos.iter_succ. cbn [digits2_pos]. rewrite Pos2Z.inj_succ, IH. lia.
Qed.

(** A rounded result carries the sign it was given. *)
Lemma binary_round_aux_sign (s : bool) (m e : Z) (l : location) :
  match binary_round_aux prec emax s m e l with
  | S754_nan => True
  | S754_zero s' | S754_infinity s' | S754_finite s' _ _ => s' = s
  end.
Proof.
  unfold binary_round_aux.
  destruct (shr_fexp prec emax m e l) as [mrs' e'].
  destruct (shr_fexp prec emax _ e' loc_Exact) as [mrs'' e''].
  destruct (shr_m mrs''); [reflexivity | | exact I].
  destruct (e'' <=? emax - prec); reflexivity.
Qed.

Lemma binary_round_aux_sign_clear (m e : Z) (l : location) :
  F64.sign_clear (binary_round_aux prec emax false m e l) = true.
Proof.
  pose proof (binary_round_aux_sign false m e l) as H.
  destruct (binary_round_aux prec emax false m e l); cbn; subst; reflexivity.
Qed.

Lemma binary_round_sign_clear (m : positive) (e : Z) :
  F64.sign_clear (binary_round prec emax false m e) = true.
Proof.
  unfold binary_round.
  destruct (shl_align m e _) as [mz ez].
  apply binary_round_aux_sign_clear.
Qed.

Lemma binary_normalize_sign_clear (z e : Z) :
  0 <= z -> F64.sign_clear (binary_normalize prec emax z e false) = true.
Proof.
  intros Hz. destruct z as [|p|p]; cbn [binary_normalize].
  - reflexivity.
  - apply binary_round_sign_clear.
  - lia.
Qed.

Lemma of_Z_sign_clear (z : Z) : 0 <= z -> F64.sign_clear (F64.of_Z z) = true.
Proof. apply binary_normalize_sign_clear. Qed.

Lemma mul_sign_clear (x y : float) :
  F64.sign_clear x = true -> F64.sign_clear y = true ->
  F64.sign_clear (F64.mul x y) = true.
Proof.
  destruct x as [sx|sx| |sx mx ex], y as [sy|sy| |sy my ey]; cbn;
    try reflexivity; try discriminate;
    destruct sx, sy; cbn; try discriminate; try reflexivity; intros _ _.
  apply binary_round_aux_sign_clear.
Qed.

Lemma add_sign_clear (x y : float) :
  F64.sign_clear x = true -> F64.sign_clear y = true ->
  F64.sign_clear (F64.add x y) = true.
Proof.
  destruct x as [sx|sx| |sx mx ex], y as [sy|sy| |sy my ey]; cbn;
    try reflexivity; try discriminate;
    destruct sx, sy; cbn; try discriminate; try reflexivity; intros _ _.
  apply binary_round_sign_clear.
Qed.

Lemma valid_finite_mantissa (s : bool) (m : positive) (e : Z) :
  F64.valid (S754_finite s m e) = true -> Zpos m < 2 ^ 53.
Proof.
  unfold F64.valid, valid_binary, bounded, canonical_mantissa, fexp, emin,
    F64.prec, F64.emax.
  intros H. apply andb_prop in H as [H _]. apply Z.eqb_eq in H.
  pose proof (digits2_pos_bound m) as Hb.
  assert (Zpos (digits2_pos m) <= 53) as Hd by lia.
  eapply Z.lt_le_trans; [exact Hb |].
  apply Z.pow_le_mono_r; lia.
Qed.

(** [1 - m] has a clear sign bit for a mortality rate in [[0, 1)]. *)
Lemma one_minus_sign_clear (m : float) :
  F64.valid m = true -> F64.leb F64.zero m = true -> F64.ltb m F64.one = true ->
  F64.sign_clear (F64.sub F64.one m) = true.
Proof.
  intros Hv Hle Hlt.
  destruct m as [s|s| |s mm me].
  - reflexivity.
  - destruct s; cbn in Hle, Hlt; discriminate.
  - cbn in Hle. discriminate.
  - destruct s; [cbn in Hle; discriminate |].
    apply valid_finite_mantissa in Hv.
    unfold F64.ltb, SFltb, F64.one in Hlt. cbn [SFcompare] in Hlt.
    unfold F64.sub, SFsub, F64.one. cbn [cond_Zopp].
    apply binary_normalize_sign_clear.
    destruct (me ?= -52) eqn:Hcmp.
    + apply Z.compare_eq in Hcmp. subst me.
      destruct (Pos.compare_cont Eq mm 4503599627370496) eqn:Hpc;
        try discriminate.
      assert (Zpos mm < 4503599627370496) as Hm by exact Hpc.
      rewrite Z.min_id. unfold shl_align. rewrite Z.sub_diag. cbn [fst]. lia.
    + rewrite Z.compare_lt_iff in Hcmp.
      rewrite Z.min_r by lia.
      unfold shl_align. rewrite Z.sub_diag.
      destruct (me - -52) as [| d | d] eqn:Hd; try lia.
      cbn [fst]. rewrite iter_xO_value.
      assert (2 ^ 1 <= 2 ^ Zpos d) as Hp by (apply Z.pow_le_mono_r; lia).
      change (2 ^ 1) with 2 in Hp.
      change (2 ^ 53) with 9007199254740992 in Hv. nia.
    + discriminate.
Qed.

Lemma positive_sign_clear (x : float) :
  F64.ltb F64.zero x = true -> F64.sign_clear x = true.
Proof.
  destruct x as [s|s| |s m e]; cbn; try discriminate; destruct s;
    try discriminate; reflexivity.
Qed.

Lemma round_half_even_nonneg (n d : Z) : 0 <= n -> 0 < d -> 0 <= round_half_even n d.
Proof.
  intros Hn Hd. unfold round_half_even.
  pose proof (Z.div_pos n d Hn Hd) as Hq.
  destruct (2 * (n mod d) ?= d); [destruct (Z.even (n / d)) | |]; lia.
Qed.

(** The rounding rule: the result is within one half of [n / d], and
    exactly one half away only when it is even. *)
Lemma round_half_even_spec (n d : Z) :
  0 < d ->
  Z.abs (2 * (round_half_even n d * d - n)) <= d /\
  (Z.abs (2 * (round_half_even n d * d - n)) = d ->
   Z.even (round_half_even n d) = true).
Proof.
  intros Hd. unfold round_half_even.
  pose proof (Z.div_mod n d ltac:(lia)) as Hdm.
  pose proof (Z.mod_pos_bound n d Hd) as Hr.
  destruct (Z.compare_spec (2 * (n mod d)) d) as [He | Hl | Hg].
  - destruct (Z.even (n / d)) eqn:Hev.
    + split; [nia | intros _; exact Hev].
    + split; [nia |]. intros _.
      rewrite Z.even_add, Hev. reflexivity.
  - split; [nia | nia].
  - split; [nia | nia].
Qed.

Lemma np_round_sign_clear (x : float) :
  F64.sign_clear x = true -> F64.sign_clear (np_round x) = true.
Proof.
  destruct x as [s|s| |s m e]; cbn [np_round]; try (intros H; exact H).
  intros H. destruct (Z.leb_spec 0 e) as [He | He]; [exact H |].
  destruct s; [discriminate |]. cbn [cond_Zopp].
  apply binary_normalize_sign_clear.
  apply round_half_even_nonneg; [lia |].
  apply Z.pow_pos_nonneg; lia.
Qed.

Lemma py_int_sign_clear (x : float) (z : Z) :
  F64.sign_clear x = true -> py_int x = Returns z -> 0 <= z.
Proof.
  destruct x as [s|s| |s m e]; cbn [py_int]; intros H Hz;
    try discriminate; inversion Hz; subst; [lia |].
  destruct s; [discriminate |]. cbn [cond_Zopp].
  destruct (Z.leb_spec 0 e) as [He | He].
  - apply Z.mul_nonneg_nonneg; [lia |]. apply Z.pow_nonneg; lia.
  - apply Z.div_pos; [lia |]. apply Z.pow_pos_nonneg; lia.
Qed.

Lemma py_float_Returns (z : Z) (f : float) :
  py_float z = Returns f -> f = F64.of_Z z.
Proof.
  unfold py_float. destruct (F64.of_Z z); intros H; inversion H; reflexivity.
Qed.

(** A mantissa of full width is already in normal form. *)
Lemma binary_round_aux_canonical (s : bool) (m : positive) (e : Z) :
  Zpos (digits2_pos m) = 53 -> -1074 <= e <= 971 ->
  binary_round_aux prec emax s (Zpos m) e loc_Exact = S754_finite s m e.
Proof.
  intros Hd He.
  assert (shr_fexp prec emax (Zpos m) e loc_Exact
          = ({| shr_m := Zpos m; shr_r := false; shr_s := false |}, e)) as Hs.
  { unfold shr_fexp. cbn [Zdigits2]. rewrite Hd.
    unfold fexp, emin, F64.prec, F64.emax.
    replace (Z.max (53 + e - 53) (3 - 1024 - 53) - e) with 0 by lia.
    reflexivity. }
  unfold binary_round_aux. rewrite Hs.
  cbn [shr_m loc_of_shr_record round_nearest_even]. rewrite Hs. cbn [shr_m].
  unfold F64.prec, F64.emax.
  destruct (Z.leb_spec e (1024 - 53)); [reflexivity | lia].
Qed.

(** Integers below [2^53] are represented exactly. *)
Lemma binary_round_small_int (s : bool) (p : positive) :
  Zpos p < 2 ^ 53 ->
  py_int (binary_round prec emax s p 0) = Returns (cond_Zopp s (Zpos p)).
Proof.
  intros Hp.
  pose proof (digits2_pos_lower p) as Hl.
  assert (Zpos (digits2_pos p) <= 53) as Hd.
  { destruct (Z.le_gt_cases (Zpos (digits2_pos p)) 53) as [H | H]; [exact H |].
    assert (2 ^ 53 <= 2 ^ (Zpos (digits2_pos p) - 1))
      by (apply Z.pow_le_mono_r; lia). lia. }
  unfold binary_round.
  replace (fexp prec emax (Zpos (digits2_pos p) + 0))
    with (Zpos (digits2_pos p) - 53)
    by (unfold fexp, emin, F64.prec, F64.emax; lia).
  unfold shl_align.
  destruct (Zpos (digits2_pos p) - 53 - 0) as [| d | d] eqn:Hk; try lia.
  - rewrite binary_round_aux_canonical by lia.
    cbn [py_int]. change (0 <=? 0) with true. cbv beta iota.
    rewrite Z.pow_0_r, Z.mul_1_r. reflexivity.
  - rewrite binary_round_aux_canonical.
    + cbn [py_int].
      destruct (Z.leb_spec 0 (Zpos (digits2_pos p) - 53)) as [H | H]; [lia |].
      rewrite iter_xO_value.
      replace (- (Zpos (digits2_pos p) - 53)) with (Zpos d) by lia.
      rewrite Z.div_mul; [reflexivity |].
      apply Z.pow_nonzero; lia.
    + rewrite iter_xO_digits. lia.
    + lia.
Qed.

(** [int(np.round(x))] for a finite [x]: the value itself when it is
    integral by its exponent, else the half-to-even rounding of
    [m / 2^(-e)], with the sign of [x]. *)
Lemma py_int_np_round_finite (s : bool) (m : positive) (e : Z) :
  F64.valid (S754_finite s m e) = true ->
  py_int (np_round (S754_finite s m e)) =
  Returns (cond_Zopp s (if 0 <=? e then Zpos m * 2 ^ e
                        else round_half_even (Zpos m) (2 ^ (- e)))).
Proof.
  intros Hv. apply valid_finite_mantissa in Hv.
  cbn [np_round].
  destruct (Z.leb_spec 0 e) as [He | He].
  - cbn [py_int]. destruct (Z.leb_spec 0 e); [reflexivity | lia].
  - assert (2 <= 2 ^ (- e)) as Hd.
    { change 2 with (2 ^ 1) at 1. apply Z.pow_le_mono_r; lia. }
    pose proof (round_half_even_nonneg (Zpos m) (2 ^ (- e)) ltac:(lia) ltac:(lia))
      as Hq0.
    pose proof (round_half_even_spec (Zpos m) (2 ^ (- e)) ltac:(lia)) as [Hq1 _].
    change (2 ^ 53) with 9007199254740992 in Hv.
    assert (round_half_even (Zpos m) (2 ^ (- e)) < 9007199254740992) as Hq by nia.
    destruct (round_half_even (Zpos m) (2 ^ (- e))) as [| q | q]; try lia.
    + destruct s; reflexivity.
    + destruct s; cbn [cond_Zopp Z.opp binary_normalize];
        apply binary_round_small_int; exact Hq.
Qed.

End Float_facts.

(** ** The projection loop *)

Lemma py_range_length (a b : Z) : length (py_range a b) = Z.to_nat (b - a).
Proof. unfold py_range. rewrite length_map, length_seq. reflexivity. Qed.

Lemma py_range_lookup (a b : Z) (i : nat) :
  (i < Z.to_nat (b - a))%nat -> py_range a b !! i = Some (a + Z.of_nat i).
Proof.
  intros Hi. unfold py_range. rewrite list_lookup_fmap.
  rewrite lookup_seq_lt by exact Hi. reflexivity.
Qed.

Lemma py_last_Returns {A : Type} (l : list A) (x : A) :
  py_last l = Returns x -> last l = Some x.
Proof. unfold py_last. destruct (last l); intros H; inversion H; reflexivity. Qed.

Section Loop.

Variables C m : float.

Lemma loop_body_Returns (n : Z) (B Y B' Y' : list Z) :
  loop_body C m n (B, Y) = Returns (B', Y') ->
  exists b y b' y',
    last B = Some b /\ last Y = Some y /\
    recurrence_B m b y = Returns b' /\ recurrence_Y C m b = Returns y' /\
    B' = B ++ [b'] /\ Y' = Y ++ [y'].
Proof.
  unfold loop_body. intros H.
  apply bind_Returns in H as ([nb ny] & H & Happ).
  unfold next_counts in H.
  apply bind_Returns in H as (b & Hb & H).
  apply bind_Returns in H as (fb & Hfb & H).
  apply bind_Returns in H as (fb1 & Hfb1 & H).
  apply bind_Returns in H as (y & Hy & H).
  apply bind_Returns in H as (fy & Hfy & H).
  apply bind_Returns in H as (b' & Hb' & H).
  apply bind_Returns in H as (y' & Hy' & H).
  inversion H; subst nb ny; clear H.
  inversion Happ; subst B' Y'; clear Happ.
  assert (fb1 = fb) by congruence. subst fb1.
  exists b, y, b', y'.
  split; [apply py_last_Returns; exact Hb |].
  split; [apply py_last_Returns; exact Hy |].
  unfold recurrence_B, recurrence_Y. rewrite Hfb, Hfy. cbn.
  repeat split; assumption.
Qed.

Lemma obeys_recurrence_snoc (B Y : list Z) (b y b' y' : Z) :
  length B = length Y ->
  last B = Some b -> last Y = Some y ->
  recurrence_B m b y = Returns b' -> recurrence_Y C m b = Returns y' ->
  obeys_recurrence C m B Y ->
  obeys_recurrence C m (B ++ [b']) (Y ++ [y']).
Proof.
  intros Hlen HB HY Hrb Hry Hch n p q p' q' Hp Hq Hp' Hq'.
  rewrite last_lookup in HB, HY.
  assert (S n < length B + 1)%nat as Hn.
  { apply lookup_lt_Some in Hp'. rewrite length_app in Hp'. exact Hp'. }
  rewrite lookup_app_l in Hp by lia.
  rewrite lookup_app_l in Hq by lia.
  destruct (decide (S n < length B)%nat) as [Hlt | Hge].
  - rewrite lookup_app_l in Hp' by lia.
    rewrite lookup_app_l in Hq' by lia.
    eapply Hch; eassumption.
  - assert (S n = length B) as Hn' by lia.
    rewrite lookup_app_r in Hp' by lia.
    rewrite lookup_app_r in Hq' by lia.
    rewrite Hn', Nat.sub_diag in Hp'.
    rewrite <- Hlen, Hn', Nat.sub_diag in Hq'.
    cbn in Hp', Hq'. inversion Hp'; inversion Hq'; subst p' q'.
    rewrite <- Hn' in HB. rewrite <- Hlen, <- Hn' in HY. cbn in HB, HY.
    assert (p = b) by congruence. assert (q = y) by congruence. subst p q.
    split; assumption.
Qed.

Lemma for_each_loop_body (items : list Z) :
  forall B Y B' Y' : list Z,
    for_each (loop_body C m) items (B, Y) = Returns (B', Y') ->
    length B = length Y ->
    obeys_recurrence C m B Y ->
    length B' = (length B + length items)%nat /\
    length Y' = length B' /\
    obeys_recurrence C m B' Y' /\
    (exists tB tY, B' = B ++ tB /\ Y' = Y ++ tY).
Proof.
  induction items as [| i rest IH]; intros B Y B' Y' H Hlen Hch.
  - cbn in H. inversion H; subst B' Y'.
    split; [cbn; lia |]. split; [lia |]. split; [exact Hch |].
    exists [], []. rewrite !app_nil_r. split; reflexivity.
  - cbn [for_each] in H.
    apply bind_Returns in H as ([B1 Y1] & Hbody & H).
    apply loop_body_Returns in Hbody
      as (b & y & b' & y' & HB & HY & Hrb & Hry & -> & ->).
    apply IH in H as (HlB & HlY & Hch' & tB & tY & -> & ->).
    + rewrite !length_app in *. cbn [length] in *.
      split; [lia |]. split; [exact HlY |]. split; [exact Hch' |].
      exists (b' :: tB), (y' :: tY).
      rewrite <- !app_assoc. split; reflexivity.
    + rewrite !length_app. cbn. lia.
    + eapply obeys_recurrence_snoc; eassumption.
Qed.

End Loop.

Lemma obeys_recurrence_singleton (C m : float) (B0 Y0 : Z) :
  obeys_recurrence C m [B0] [Y0].
Proof. intros n b y b' y' _ _ H. destruct n; discriminate. Qed.

Lemma np_array_int_Returns (l a : list Z) :
  np_array_int l = Returns a -> a = l /\ forallb in_int64 l = true.
Proof.
  unfold np_array_int. destruct (forallb in_int64 l); intros H; inversion H.
  split; reflexivity.
Qed.

Lemma broadcast2_same_length {A B D : Type} (f : A -> B -> D) (xs : list A) (ys : list B) :
  length xs = length ys -> broadcast2 f xs ys = Returns (zip_with f xs ys).
Proof.
  intros H. unfold broadcast2. rewrite H, Nat.eqb_refl. reflexivity.
Qed.

Lemma project_herd_yearly_zero_horizon (B0 Y0 : Z) (C m : float) :
  in_int64 B0 = true -> in_int64 Y0 = true ->
  project_herd_yearly B0 Y0 C m 0 =
  Returns {| Year := [0]; Breeders := [B0]; Juveniles := [Y0];
             Total := [int64_add B0 Y0] |}.
Proof.
  intros HB HY. unfold project_herd_yearly.
  change (py_range 1 (0 + 1)) with (@nil Z).
  change (py_range 0 (0 + 1)) with [0].
  cbn [for_each mbind outcome_bind obind].
  unfold build_frame, np_array_int. cbn [forallb]. rewrite HB, HY. reflexivity.
Qed.

(** What a returned frame is made of. *)
Lemma project_herd_yearly_Returns (B0 Y0 : Z) (C m : float) (years : Z) (df : DataFrame) :
  project_herd_yearly B0 Y0 C m years = Returns df ->
  exists B Y : list Z,
    for_each (loop_body C m) (py_range 1 (years + 1)) ([B0], [Y0]) = Returns (B, Y) /\
    length B = S (Z.to_nat years) /\ length Y = length B /\
    Z.to_nat (years + 1) = length B /\
    obeys_recurrence C m B Y /\
    (exists tB tY, B = B0 :: tB /\ Y = Y0 :: tY) /\
    forallb in_int64 B = true /\ forallb in_int64 Y = true /\
    df = {| Year := py_range 0 (years + 1); Breeders := B; Juveniles := Y;
            Total := zip_with int64_add B Y |}.
Proof.
  unfold project_herd_yearly. intros H.
  apply bind_Returns in H as ([B Y] & Hloop & H).
  unfold build_frame in H.
  apply bind_Returns in H as (aB & HaB & H).
  apply bind_Returns in H as (aY & HaY & H).
  apply bind_Returns in H as (total & Htot & H).
  apply np_array_int_Returns in HaB as [-> HBr].
  apply np_array_int_Returns in HaY as [-> HYr].
  pose proof (for_each_loop_body C m _ _ _ _ _ Hloop eq_refl
                (obeys_recurrence_singleton C m B0 Y0))
    as (HlB & HlY & Hch & tB & tY & -> & ->).
  rewrite py_range_length in HlB. cbn [length] in HlB.
  rewrite broadcast2_same_length in Htot by (symmetry; exact HlY).
  inversion Htot; subst total; clear Htot.
  unfold pd_DataFrame in H. rewrite py_range_length in H.
  destruct (_ && _) eqn:Hlens in H; inversion H; subst df; clear H.
  apply andb_prop in Hlens as [Hlens _]. apply andb_prop in Hlens as [Hlens _].
  apply Nat.eqb_eq in Hlens.
  exists ([B0] ++ tB), ([Y0] ++ tY).
  replace (years + 1 - 1) with years in HlB by lia.
  replace (years + 1 - 0) with (years + 1) in Hlens by lia.
  split; [exact Hloop |]. split; [lia |]. split; [exact HlY |].
  split; [lia |]. split; [exact Hch |].
  split; [exists tB, tY; split; reflexivity |].
  split; [exact HBr |]. split; [exact HYr | reflexivity].
Qed.

(** ** Literals *)

(** The constants are the binary64 numbers nearest to the decimal
    literals of the source and of the examples. *)
Lemma literals_nearest :
  f_0_5 = F64.of_ratio 1 2 /\ f_0_05 = F64.of_ratio 5 100 /\
  f_1_5 = F64.of_ratio 3 2 /\
  F64.one = F64.of_Z 1 /\ F64.hundred = F64.of_Z 100.
Proof. repeat split; vm_compute; reflexivity. Qed.

(** ** Properties of project_herd_yearly *)

(** The projection form's default inputs over ten years. *)
Example project_herd_yearly_defaults :
  project_herd_yearly 20 10 f_0_5 f_0_05 10 =
  Returns {| Year := [0; 1; 2; 3; 4; 5; 6; 7; 8; 9; 10];
             Breeders := [20; 28; 36; 47; 61; 79; 103; 134; 174; 226; 294];
             Juveniles := [10; 10; 13; 17; 22; 29; 38; 49; 64; 83; 107];
             Total := [30; 38; 49; 64; 83; 108; 141; 183; 238; 309; 401] |}.
Proof. vm_compute. reflexivity. Qed.

(** C1. Whenever [project_herd_yearly] returns a frame, each year
    [1 <= n <= years] is obtained from year [n - 1] by the recurrence
    [B[n] = round(B[n-1]*(1-m) + Y[n-1]*(1-m))],
    [Y[n] = round(C*B[n-1]*(1-m))], evaluated in binary64. [round] is
    rounding to the nearest integer with ties to even: on a finite
    non-integral [x = ±mt*2^e] the rounded integer [r] is within one half
    of the value and is even when exactly one half away. For
    [B0 = 20, Y0 = 10, C = 0.5, m = 0.05, years = 1] the raw values are
    exactly 28.5 and 9.5, and year 1 has 28 breeders and 10 juveniles. *)
Theorem project_herd_yearly_recurrence :
  (forall (B0 Y0 : Z) (C m : float) (years : Z) (df : DataFrame) (n : Z),
      project_herd_yearly B0 Y0 C m years = Returns df ->
      1 <= n <= years ->
      exists b y b' y' : Z,
        Breeders df !! Z.to_nat (n - 1) = Some b /\
        Juveniles df !! Z.to_nat (n - 1) = Some y /\
        Breeders df !! Z.to_nat n = Some b' /\
        Juveniles df !! Z.to_nat n = Some y' /\
        recurrence_B m b y = Returns b' /\
        recurrence_Y C m b = Returns y') /\
  (forall (s : bool) (mt : positive) (e : Z),
      F64.valid (S754_finite s mt e) = true -> e < 0 ->
      exists r : Z,
        py_int (np_round (S754_finite s mt e)) = Returns (cond_Zopp s r) /\
        Z.abs (2 * (r * 2 ^ (- e) - Zpos mt)) <= 2 ^ (- e) /\
        (Z.abs (2 * (r * 2 ^ (- e) - Zpos mt)) = 2 ^ (- e) -> Z.even r = true)) /\
  project_herd_yearly 20 10 f_0_5 f_0_05 1 =
    Returns {| Year := [0; 1]; Breeders := [20; 28];
               Juveniles := [10; 10]; Total := [30; 38] |} /\
  F64.add (F64.mul (F64.of_Z 20) (F64.sub F64.one f_0_05))
          (F64.mul (F64.of_Z 10) (F64.sub F64.one f_0_05)) = F64.of_ratio 57 2 /\
  F64.mul (F64.mul f_0_5 (F64.of_Z 20)) (F64.sub F64.one f_0_05) = F64.of_ratio 19 2 /\
  py_int (np_round (F64.of_ratio 57 2)) = Returns 28 /\
  py_int (np_round (F64.of_ratio 19 2)) = Returns 10.
Proof.
  split; [| split; [| repeat split; vm_compute; reflexivity]].
  - intros B0 Y0 C m years df n Hdf Hn.
    apply project_herd_yearly_Returns in Hdf
      as (B & Y & _ & HlB & HlY & _ & Hch & _ & _ & _ & ->).
    cbn [Breeders Juveniles].
    assert (S (Z.to_nat (n - 1)) = Z.to_nat n) as HS by lia.
    destruct (lookup_lt_is_Some_2 B (Z.to_nat (n - 1)) ltac:(lia)) as [b Hb].
    destruct (lookup_lt_is_Some_2 Y (Z.to_nat (n - 1)) ltac:(lia)) as [y Hy].
    destruct (lookup_lt_is_Some_2 B (Z.to_nat n) ltac:(lia)) as [b' Hb'].
    destruct (lookup_lt_is_Some_2 Y (Z.to_nat n) ltac:(lia)) as [y' Hy'].
    exists b, y, b', y'.
    rewrite <- HS in Hb', Hy'.
    destruct (Hch _ _ _ _ _ Hb Hy Hb' Hy') as [Hrb Hry].
    rewrite <- HS. repeat split; assumption.
  - intros s mt e Hv He.
    exists (round_half_even (Zpos mt) (2 ^ (- e))).
    assert (0 < 2 ^ (- e)) as Hd by (apply Z.pow_pos_nonneg; lia).
    destruct (round_half_even_spec (Zpos mt) (2 ^ (- e)) Hd) as [H1 H2].
    split; [| split; assumption].
    rewrite py_int_np_round_finite by exact Hv.
    destruct (Z.leb_spec 0 e); [lia | reflexivity].
Qed.

Lemma project_herd_yearly_recurrence_witness :
  exists b y b' y' : Z,
    [20; 28] !! Z.to_nat (1 - 1) = Some b /\
    [10; 10] !! Z.to_nat (1 - 1) = Some y /\
    [20; 28] !! Z.to_nat 1 = Some b' /\
    [10; 10] !! Z.to_nat 1 = Some y' /\
    recurrence_B f_0_05 b y = Returns b' /\
    recurrence_Y f_0_5 f_0_05 b = Returns y'.
Proof.
  apply (proj1 project_herd_yearly_recurrence 20 10 f_0_5 f_0_05 1
           {| Year := [0; 1]; Breeders := [20; 28];
              Juveniles := [10; 10]; Total := [30; 38] |} 1).
  - vm_compute. reflexivity.
  - lia.
Defined.

(** ** Signs of the projected counts *)

Section Nonneg.

Variables C m : float.
Hypothesis C_sign : F64.sign_clear C = true.
Hypothesis survive_sign : F64.sign_clear (F64.sub F64.one m) = true.

Lemma py_float_sign_clear (z : Z) (f : float) :
  0 <= z -> py_float z = Returns f -> F64.sign_clear f = true.
Proof.
  intros Hz Hf. apply py_float_Returns in Hf. subst f.
  apply of_Z_sign_clear. exact Hz.
Qed.

Lemma recurrence_B_nonneg (b y b' : Z) :
  0 <= b -> 0 <= y -> recurrence_B m b y = Returns b' -> 0 <= b'.
Proof.
  intros Hb Hy H. unfold recurrence_B in H.
  apply bind_Returns in H as (fb & Hfb & H).
  apply bind_Returns in H as (fy & Hfy & H).
  eapply py_int_sign_clear; [| exact H].
  apply np_round_sign_clear, add_sign_clear; apply mul_sign_clear;
    eauto using py_float_sign_clear.
Qed.

Lemma recurrence_Y_nonneg (b y' : Z) :
  0 <= b -> recurrence_Y C m b = Returns y' -> 0 <= y'.
Proof.
  intros Hb H. unfold recurrence_Y in H.
  apply bind_Returns in H as (fb & Hfb & H).
  eapply py_int_sign_clear; [| exact H].
  apply np_round_sign_clear; repeat apply mul_sign_clear;
    eauto using py_float_sign_clear.
Qed.

Lemma for_each_nonneg (items : list Z) :
  forall B Y B' Y' : list Z,
    for_each (loop_body C m) items (B, Y) = Returns (B', Y') ->
    Forall (Z.le 0) B -> Forall (Z.le 0) Y ->
    Forall (Z.le 0) B' /\ Forall (Z.le 0) Y'.
Proof.
  induction items as [| i rest IH]; intros B Y B' Y' H HB HY.
  - cbn in H. inversion H; subst. split; assumption.
  - cbn [for_each] in H.
    apply bind_Returns in H as ([B1 Y1] & Hbody & H).
    apply loop_body_Returns in Hbody
      as (b & y & b' & y' & HlB & HlY & Hrb & Hry & -> & ->).
    apply last_Some in HlB as [B0 ->]. apply last_Some in HlY as [Y0 ->].
    assert (0 <= b) as Hb.
    { apply Forall_app in HB as [_ HB]. inversion HB; assumption. }
    assert (0 <= y) as Hy.
    { apply Forall_app in HY as [_ HY]. inversion HY; assumption. }
    apply (IH _ _ _ _ H).
    + apply Forall_app. split; [exact HB |].
      constructor; [| constructor]. exact (recurrence_B_nonneg b y b' Hb Hy Hrb).
    + apply Forall_app. split; [exact HY |].
      constructor; [| constructor]. exact (recurrence_Y_nonneg b y' Hb Hry).
Qed.

End Nonneg.

Lemma wrap64_small (z : Z) : - 2 ^ 63 <= z < 2 ^ 63 -> wrap64 z = z.
Proof.
  intros Hz. unfold wrap64.
  change (2 ^ 63) with 9223372036854775808 in *.
  change (2 ^ 64) with 18446744073709551616.
  rewrite Z.mod_small by lia. lia.
Qed.

(** ** The error summary *)

Lemma select_length {A B : Type} (mask : list bool) (l : list A) (k : list B) :
  length l = length mask -> length k = length mask ->
  length (select mask l) = length (select mask k).
Proof.
  revert l k. induction mask as [| b mask IH]; intros [| x l] [| y k] Hl Hk;
    try discriminate; [reflexivity |].
  cbn in Hl, Hk. cbn [select]. destruct b; cbn [length]; auto.
Qed.

Lemma select_map {A B : Type} (f : A -> B) (mask : list bool) (l : list A) :
  select mask (map f l) = map f (select mask l).
Proof.
  revert l. induction mask as [| b mask IH]; intros [| x l]; try reflexivity.
  cbn [select map]. destruct b; cbn [map]; rewrite IH; reflexivity.
Qed.

Lemma np_len_items (a : ndarray) : np_len a = length (items a).
Proof. destruct a; cbn; rewrite length_map; reflexivity. Qed.

Lemma as_float64_items (a : ndarray) : as_float64 a = map scalar_float (items a).
Proof.
  destruct a as [l | l]; cbn [as_float64 items]; rewrite map_map; cbn.
  - reflexivity.
  - symmetry. apply map_id.
Qed.

Lemma np_ne0_items (a : ndarray) : np_ne0 a = map scalar_nonzero (items a).
Proof. destruct a as [l | l]; cbn [np_ne0 items]; rewrite map_map; reflexivity. Qed.

Lemma np_abs_items (a : ndarray) : items (np_abs a) = map scalar_abs (items a).
Proof. destruct a as [l | l]; cbn [np_abs items]; rewrite !map_map; reflexivity. Qed.

Lemma zip_with_map_l {A B A' D : Type} (f : A' -> B -> D)
    (g : A -> A') (xs : list A) (ys : list B) :
  zip_with f (map g xs) ys = zip_with (fun x y => f (g x) y) xs ys.
Proof.
  revert ys. induction xs as [| x xs IH]; intros [| y ys]; try reflexivity.
  cbn. rewrite IH. reflexivity.
Qed.

Lemma zip_with_map_r {A B B' D : Type} (f : A -> B' -> D)
    (h : B -> B') (xs : list A) (ys : list B) :
  zip_with f xs (map h ys) = zip_with (fun x y => f x (h y)) xs ys.
Proof.
  revert ys. induction xs as [| x xs IH]; intros [| y ys]; try reflexivity.
  cbn. rewrite IH. reflexivity.
Qed.

Lemma map_zip_with {A B D E : Type} (g : D -> E) (f : A -> B -> D)
    (xs : list A) (ys : list B) :
  map g (zip_with f xs ys) = zip_with (fun x y => g (f x y)) xs ys.
Proof.
  revert ys. induction xs as [| x xs IH]; intros [| y ys]; try reflexivity.
  cbn. rewrite IH. reflexivity.
Qed.

(** Subtraction of arrays of one length is entry-wise scalar subtraction. *)
Lemma np_sub_items (a b : ndarray) :
  np_len a = np_len b ->
  exists d, np_sub a b = Returns d /\
            items d = zip_with scalar_sub (items a) (items b).
Proof.
  intros Hlen.
  destruct a as [x | x], b as [y | y]; cbn [np_len] in Hlen;
    cbn [np_sub as_float64 items];
    rewrite broadcast2_same_length by (rewrite ?length_map; exact Hlen);
    eexists; (split; [reflexivity |]); cbn [items];
    rewrite ?zip_with_map_l, ?zip_with_map_r, map_zip_with; reflexivity.
Qed.

Lemma np_getitem_mask_items (a : ndarray) (mask : list bool) :
  np_len a = length mask ->
  exists a', np_getitem_mask a mask = Returns a' /\
             items a' = select mask (items a).
Proof.
  intros Hlen. unfold np_getitem_mask. rewrite Hlen, Nat.eqb_refl.
  eexists. split; [reflexivity |].
  destruct a; cbn [items]; rewrite select_map; reflexivity.
Qed.

Lemma np_any_false_filter (ps qs : list scalar) :
  length ps = length qs ->
  np_any (map scalar_nonzero qs) = false ->
  List.filter (fun pa => scalar_nonzero (snd pa)) (zip ps qs) = [].
Proof.
  revert qs. induction ps as [| p ps IH]; intros [| q qs] Hlen Hany;
    try discriminate; [reflexivity |].
  cbn in Hany. apply orb_false_elim in Hany as [Hq Hany].
  cbn. unfold id in Hq. rewrite Hq. apply IH; [cbn in Hlen; lia | exact Hany].
Qed.

Lemma np_any_true_filter (ps qs : list scalar) :
  length ps = length qs ->
  np_any (map scalar_nonzero qs) = true ->
  List.filter (fun pa => scalar_nonzero (snd pa)) (zip ps qs) <> [].
Proof.
  revert qs. induction ps as [| p ps IH]; intros [| q qs] Hlen Hany;
    try discriminate.
  cbn in Hany. cbn. unfold id in Hany.
  destruct (scalar_nonzero q); [discriminate |].
  apply IH; [cbn in Hlen; lia | exact Hany].
Qed.

Lemma select_filter_zip (ps qs : list scalar) :
  length ps = length qs ->
  zip (select (map scalar_nonzero qs) ps) (select (map scalar_nonzero qs) qs) =
  List.filter (fun pa => scalar_nonzero (snd pa)) (zip ps qs).
Proof.
  revert qs. induction ps as [| p ps IH]; intros [| q qs] Hlen;
    try discriminate; [reflexivity |].
  cbn. destruct (scalar_nonzero q); cbn; rewrite IH by (cbn in Hlen; lia);
    reflexivity.
Qed.

Lemma np_array_len (l : list pynum) (a : ndarray) :
  np_array l = Returns a -> np_len a = length l.
Proof.
  unfold np_array. destruct (negb _); [discriminate |].
  destruct l as [| v l]; [intros H; inversion H; reflexivity |].
  destruct (forallb is_PyInt (v :: l)); intros H; inversion H;
    cbn [np_len map length]; rewrite length_map; reflexivity.
Qed.

Lemma abs_errors_zip (ps qs : list scalar) :
  map scalar_float (map scalar_abs (zip_with scalar_sub ps qs)) =
  map scalar_abs_error (zip ps qs).
Proof.
  revert qs. induction ps as [| p ps IH]; intros [| q qs]; try reflexivity.
  cbn [zip_with map]. rewrite IH. reflexivity.
Qed.

Lemma percentage_errors_zip (ps qs : list scalar) :
  zip_with F64.div
    (map scalar_float (map scalar_abs (zip_with scalar_sub ps qs)))
    (map scalar_float qs) =
  map scalar_percentage_error (zip ps qs).
Proof.
  revert qs. induction ps as [| p ps IH]; intros [| q qs]; try reflexivity.
  cbn [zip_with map]. rewrite IH. reflexivity.
Qed.

(** On arrays of one length the call returns the two summaries. *)
Lemma calculate_error_equal_length (p a : list pynum) (P A : ndarray) :
  np_array p = Returns P -> np_array a = Returns A ->
  length p = length a ->
  calculate_error p a = Returns (entrywise_MAE P A, entrywise_MAPE P A).
Proof.
  intros HP HA Hlen.
  assert (np_len P = np_len A) as HPA
    by (rewrite (np_array_len _ _ HP), (np_array_len _ _ HA); exact Hlen).
  assert (length (items P) = length (items A)) as Hitems
    by (rewrite <- !np_len_items; exact HPA).
  unfold calculate_error. rewrite HP, HA. cbn [mbind outcome_bind obind].
  destruct (np_sub_items P A HPA) as (d & -> & Hd).
  cbn [mbind outcome_bind obind].
  assert (np_mean (np_abs d) = entrywise_MAE P A) as ->.
  { unfold np_mean, entrywise_MAE.
    rewrite as_float64_items, np_abs_items, Hd, abs_errors_zip.
    reflexivity. }
  rewrite np_ne0_items. unfold entrywise_MAPE.
  destruct (np_any (map scalar_nonzero (items A))) eqn:Hany; cbn [negb].
  - destruct (np_getitem_mask_items P (map scalar_nonzero (items A)))
      as (pv & -> & Hpv); [rewrite length_map, <- np_len_items; exact HPA |].
    destruct (np_getitem_mask_items A (map scalar_nonzero (items A)))
      as (av & -> & Hav); [rewrite length_map; apply np_len_items |].
    cbn [mbind outcome_bind obind].
    assert (np_len pv = np_len av) as Hlv.
    { rewrite !np_len_items, Hpv, Hav.
      apply select_length; rewrite length_map; [exact Hitems | reflexivity]. }
    destruct (np_sub_items pv av Hlv) as (dv & -> & Hdv).
    cbn [mbind outcome_bind obind]. unfold np_true_divide.
    rewrite broadcast2_same_length.
    + cbn [mbind outcome_bind obind].
      rewrite !as_float64_items, np_abs_items, Hdv, percentage_errors_zip.
      rewrite Hpv, Hav, select_filter_zip by exact Hitems.
      pose proof (np_any_true_filter _ _ Hitems Hany) as Hne.
      destruct (List.filter _ _); [contradiction | reflexivity].
    + rewrite !as_float64_items, np_abs_items, Hdv, !length_map,
        length_zip_with, <- !np_len_items. lia.
  - rewrite np_any_false_filter by assumption. reflexivity.
Qed.

Lemma scalar_abs_error_exact (pa : scalar * scalar) :
  difference_in_range pa = true -> scalar_abs_error pa = abs_error pa.
Proof.
  destruct pa as [[x | x] [y | y]]; try reflexivity.
  cbn [difference_in_range]. intros H.
  apply andb_prop in H as [Hlo Hhi].
  apply Z.ltb_lt in Hlo, Hhi.
  unfold scalar_abs_error, abs_error. cbn [fst snd scalar_sub scalar_abs scalar_float].
  unfold int64_abs, int64_sub.
  change (2 ^ 63) with 9223372036854775808 in *.
  rewrite (wrap64_small (x - y))
    by (change (2 ^ 63) with 9223372036854775808; lia).
  rewrite wrap64_small
    by (change (2 ^ 63) with 9223372036854775808; lia).
  reflexivity.
Qed.

Lemma map_ext_forallb {A B : Type} (Q : A -> bool) (f g : A -> B) (l : list A) :
  (forall x, Q x = true -> f x = g x) ->
  forallb Q l = true -> map f l = map g l.
Proof.
  intros Hfg. induction l as [| x l IH]; [reflexivity |].
  cbn. intros H. apply andb_prop in H as [Hx Hl].
  rewrite (Hfg x Hx), (IH Hl). reflexivity.
Qed.

Lemma forallb_filter {A : Type} (Q p : A -> bool) (l : list A) :
  forallb Q l = true -> forallb Q (List.filter p l) = true.
Proof.
  induction l as [| x l IH]; [reflexivity |].
  cbn. intros H. apply andb_prop in H as [Hx Hl].
  destruct (p x); cbn; rewrite ?Hx; auto.
Qed.

(** The length of the list is depth enough for the pairwise sum: a larger
    bound changes nothing. *)
Lemma pairwise_sum_depth (d : nat) :
  forall (d' : nat) (l : list float),
    (length l <= d)%nat -> (length l <= d')%nat ->
    pairwise_sum d l = pairwise_sum d' l.
Proof.
  induction d as [| d IH]; intros d' l Hd Hd'.
  - destruct l; [| cbn in Hd; lia]. destruct d'; reflexivity.
  - destruct d' as [| d']; [destruct l; [reflexivity | cbn in Hd'; lia] |].
    cbn [pairwise_sum].
    destruct (Nat.ltb_spec (length l) 8) as [| H8]; [reflexivity |].
    destruct (Nat.leb_spec (length l) 128) as [| H128]; [reflexivity |].
    pose proof (Nat.div_mod_eq (length l) 2) as Hq.
    pose proof (Nat.mod_upper_bound (length l) 2 ltac:(lia)) as Hq2.
    pose proof (Nat.mod_upper_bound (length l / 2) 8 ltac:(lia)) as Hr.
    set (q := (length l / 2)%nat) in *. set (r := (q mod 8)%nat) in *.
    f_equal; apply IH; rewrite ?length_take, ?length_drop; lia.
Qed.

Lemma buffered_sum_from_nil (fuel : nat) (acc : float) :
  buffered_sum_from fuel acc [] = acc.
Proof. destruct fuel; reflexivity. Qed.

(** Up to one buffer of entries the reduction is one pairwise sum. *)
Lemma buffered_sum_small (l : list float) :
  (length l <= bufsize)%nat -> buffered_sum l = float_sum l.
Proof.
  intros Hlen. unfold buffered_sum, float_sum.
  destruct l as [| x l]; [reflexivity |].
  change (length (x :: l)) with (S (length l)) at 1.
  cbn [buffered_sum_from].
  rewrite take_ge, drop_ge by exact Hlen.
  apply buffered_sum_from_nil.
Qed.

Lemma mean_small (l : list float) :
  (length l <= bufsize)%nat -> mean l = pairwise_mean l.
Proof.
  intros Hlen. unfold mean, pairwise_mean.
  rewrite buffered_sum_small by exact Hlen. reflexivity.
Qed.

(** Within the 64-bit range the scalar arithmetic of numpy gives the
    exact absolute differences. *)
Lemma entrywise_abs_error (P A : ndarray) :
  differences_in_range P A = true ->
  entrywise_MAE P A = mean (map abs_error (zip (items P) (items A))) /\
  entrywise_MAPE P A =
    match List.filter (fun pa => scalar_nonzero (snd pa))
            (zip (items P) (items A)) with
    | [] => F64.zero
    | sample => F64.mul (mean (map percentage_error sample)) F64.hundred
    end.
Proof.
  unfold differences_in_range. intros H. split.
  - unfold entrywise_MAE. f_equal.
    eapply map_ext_forallb; [| exact H]. apply scalar_abs_error_exact.
  - unfold entrywise_MAPE.
    apply (forallb_filter _ (fun pa => scalar_nonzero pa.2)) in H.
    destruct (List.filter _ _) as [| pa sample]; [reflexivity |].
    f_equal. f_equal.
    eapply map_ext_forallb; [| exact H].
    intros x Hx. unfold scalar_percentage_error, percentage_error.
    rewrite scalar_abs_error_exact by exact Hx. reflexivity.
Qed.

Lemma filter_length_le {X : Type} (f : X -> bool) (l : list X) :
  (length (List.filter f l) <= length l)%nat.
Proof.
  induction l as [| x l IH]; [reflexivity |]. cbn [List.filter].
  destruct (f x); cbn [length]; lia.
Qed.

Lemma entrywise_exact (P A : ndarray) :
  (length (items P) <= bufsize)%nat ->
  differences_in_range P A = true ->
  entrywise_MAE P A = spec_MAE P A /\ entrywise_MAPE P A = spec_MAPE P A.
Proof.
  intros Hlen H.
  destruct (entrywise_abs_error P A H) as [-> ->].
  assert (length (zip (items P) (items A)) <= bufsize)%nat as Hzip
    by (rewrite length_zip_with; lia).
  unfold spec_MAE, spec_MAPE. split.
  - apply mean_small. rewrite length_map. exact Hzip.
  - pose proof (filter_length_le (fun pa : scalar * scalar => scalar_nonzero pa.2)
                  (zip (items P) (items A))) as Hf.
    destruct (List.filter _ _) as [| pa sample]; [reflexivity |].
    rewrite mean_small; [reflexivity |].
    rewrite length_map. lia.
Qed.

(** C3 (amended). For argument lists of one length and of at most 8192
    entries (one buffer of numpy's reduction), of floats and of ints that
    numpy stores as [int64], and with every difference of two integer
    entries strictly inside the signed 64-bit range, [calculate_error]
    returns MAE = mean of [|projected[i] - actual[i]|] over all [i] and
    MAPE = 100 * mean of [|projected[i] - actual[i]| / actual[i]] over the
    [i] with [actual[i] != 0], or 0.0 when no actual value is non-zero.
    Quotients are binary64 and a mean is the binary64 sum, taken pairwise
    from eight entries on, divided by the count; a MAPE that is zero is
    given up to the sign of the zero. For [[10, 20]] against [[8, 22]]
    this is MAE = 2.0 and MAPE = mean(2/8, 2/22) * 100, the binary64
    number 17.045454545454547; for [[5, 5, 5]] against zeros MAE = 5.0,
    MAPE = 0.0; for [[2^53, 1, 1, 1, 1, 1, 1, 1]] against zeros the
    pairwise sum is [2^53 + 6] and MAE = (2^53 + 6) / 8, where adding the
    entries one after the other would stay at [2^53]. *)
Theorem calculate_error_formulas :
  (forall (p a : list pynum) (P A : ndarray),
      np_array p = Returns P -> np_array a = Returns A ->
      length p = length a -> p <> [] ->
      (length p <= bufsize)%nat ->
      differences_in_range P A = true ->
      exists mae mape : float,
        calculate_error p a = Returns (mae, mape) /\
        mae = spec_MAE P A /\ same_value mape (spec_MAPE P A)) /\
  calculate_error [PyInt 10; PyInt 20] [PyInt 8; PyInt 22] =
    Returns (F64.of_Z 2,
             F64.mul (F64.div (F64.add (F64.of_ratio 2 8) (F64.of_ratio 2 22))
                              (F64.of_Z 2))
                     F64.hundred) /\
  F64.mul (F64.div (F64.add (F64.of_ratio 2 8) (F64.of_ratio 2 22)) (F64.of_Z 2))
          F64.hundred = S754_finite false 4797868921204364 (-48) /\
  calculate_error [PyInt 5; PyInt 5; PyInt 5] [PyInt 0; PyInt 0; PyInt 0] =
    Returns (F64.of_Z 5, F64.zero) /\
  calculate_error
    [PyInt (2 ^ 53); PyInt 1; PyInt 1; PyInt 1; PyInt 1; PyInt 1; PyInt 1; PyInt 1]
    [PyInt 0; PyInt 0; PyInt 0; PyInt 0; PyInt 0; PyInt 0; PyInt 0; PyInt 0] =
    Returns (F64.div (F64.of_Z (2 ^ 53 + 6)) (F64.of_Z 8), F64.zero) /\
  F64.div (F64.of_Z (2 ^ 53 + 6)) (F64.of_Z 8) =
    S754_finite false 4503599627370499 (-2).
Proof.
  split; [| repeat split; vm_compute; reflexivity].
  intros p a P A HP HA Hlen _ Hbuf Hrange.
  rewrite (calculate_error_equal_length p a P A HP HA Hlen).
  assert (length (items P) <= bufsize)%nat as HbufP
    by (rewrite <- np_len_items, (np_array_len _ _ HP); exact Hbuf).
  destruct (entrywise_exact P A HbufP Hrange) as [-> ->].
  eexists _, _. split; [reflexivity |]. split; [reflexivity |].
  left. reflexivity.
Qed.

Lemma calculate_error_formulas_witness :
  exists mae mape : float,
    calculate_error [PyInt 10; PyInt 20] [PyInt 8; PyInt 22] =
      Returns (mae, mape) /\
    mae = spec_MAE (Int64Array [10; 20]) (Int64Array [8; 22]) /\
    same_value mape (spec_MAPE (Int64Array [10; 20]) (Int64Array [8; 22])).
Proof.
  apply (proj1 calculate_error_formulas
           [PyInt 10; PyInt 20] [PyInt 8; PyInt 22]);
    [reflexivity | reflexivity | reflexivity | discriminate
    | unfold bufsize; cbn [length]; lia | reflexivity].
Defined.

(** C3, as stated, fails: for the one-entry integer lists
    [[2^63 - 1]] and [[-1]] the difference leaves the 64-bit range and
    wraps; the returned MAE is [-2^63], negative, where the mean absolute
    difference is [2^63]. *)
Lemma calculate_error_int64_overflow :
  np_array [PyInt (2 ^ 63 - 1)] = Returns (Int64Array [2 ^ 63 - 1]) /\
  np_array [PyInt (-1)] = Returns (Int64Array [-1]) /\
  fst <$> calculate_error [PyInt (2 ^ 63 - 1)] [PyInt (-1)] =
    Returns (F64.of_Z (- 2 ^ 63)) /\
  spec_MAE (Int64Array [2 ^ 63 - 1]) (Int64Array [-1]) = F64.of_Z (2 ^ 63) /\
  F64.ltb (F64.of_Z (- 2 ^ 63)) F64.zero = true /\
  F64.eqb (F64.of_Z (- 2 ^ 63)) (F64.of_Z (2 ^ 63)) = false.
Proof. repeat split; vm_compute; reflexivity. Qed.

(** C4 (amended). Argument lists of different lengths, neither of length
    one, make [calculate_error] fail: the subtraction raises numpy's
    shape-mismatch [ValueError] before any number is produced (there is no
    dedicated length check nor error type). This is what happens for
    [[1, 2, 3]] against [[1, 2]]. *)
Theorem calculate_error_length_mismatch :
  (forall (p a : list pynum) (P A : ndarray),
      np_array p = Returns P -> np_array a = Returns A ->
      length p <> length a -> length p <> 1%nat -> length a <> 1%nat ->
      calculate_error p a = Raises ValueError) /\
  calculate_error [PyInt 1; PyInt 2; PyInt 3] [PyInt 1; PyInt 2] = Raises ValueError.
Proof.
  split; [| vm_compute; reflexivity].
  intros p a P A HP HA Hne Hp1 Ha1.
  pose proof (np_array_len _ _ HP) as HlP.
  pose proof (np_array_len _ _ HA) as HlA.
  unfold calculate_error. rewrite HP, HA. cbn [mbind outcome_bind obind].
  assert (forall (X Y D : Type) (f : X -> Y -> D) (xs : list X) (ys : list Y),
             length xs = length p -> length ys = length a ->
             broadcast2 f xs ys = Raises ValueError) as Hbc.
  { intros X Y D f xs ys Hx Hy. unfold broadcast2.
    destruct (Nat.eqb_spec (length xs) (length ys)) as [He | _]; [lia |].
    destruct xs as [| x [| x' xs]]; [| cbn in Hx; lia |];
      destruct ys as [| y [| y' ys]]; try reflexivity; cbn in Hy; lia. }
  destruct P as [x | x], A as [y | y]; cbn [np_len] in HlP, HlA;
    cbn [np_sub as_float64];
    rewrite Hbc by (rewrite ?length_map; assumption); reflexivity.
Qed.

Lemma calculate_error_length_mismatch_witness :
  calculate_error [PyInt 7; PyInt 9] [] = Raises ValueError.
Proof.
  apply (proj1 calculate_error_length_mismatch [PyInt 7; PyInt 9] []
           (Int64Array [7; 9]) (Float64Array []));
    [reflexivity | reflexivity | discriminate | discriminate | discriminate].
Defined.

(** C4, as stated, fails: lengths 3 and 1 differ, yet the single actual
    value is stretched over the projected ones and a numeric result comes
    back. *)
Lemma calculate_error_broadcasts_single :
  length [PyInt 1; PyInt 2; PyInt 3] <> length [PyInt 0] /\
  calculate_error [PyInt 1; PyInt 2; PyInt 3] [PyInt 0] =
    Returns (F64.of_Z 2, F64.zero).
Proof. split; [discriminate | vm_compute; reflexivity]. Qed.

(** C6 (amended). [calculate_error] has no error for an empty sample and
    sets no value aside for its MAE: on two empty lists, which numpy
    stores as empty [float64] arrays, it raises nothing and returns
    MAE = NaN (the mean of an empty array, 0.0 / 0) together with
    MAPE = 0.0 (no actual value is non-zero). *)
Theorem calculate_error_empty_sample :
  np_array [] = Returns (Float64Array []) /\
  np_mean (Float64Array []) = S754_nan /\
  np_any (np_ne0 (Float64Array [])) = false /\
  calculate_error [] [] = Returns (S754_nan, F64.zero).
Proof.
  split; [reflexivity |]. split; [reflexivity |]. split; [reflexivity |].
  unfold calculate_error. cbn [np_array forallb negb mbind outcome_bind obind].
  reflexivity.
Qed.

(** C6, as stated, fails: on two empty lists no error is raised, and the
    MAE that comes back is NaN, which is neither 0.0 nor a number. *)
Lemma calculate_error_empty_sample_nan :
  (forall e : exn, calculate_error [] [] <> Raises e) /\
  (exists mae mape : float,
      calculate_error [] [] = Returns (mae, mape) /\
      mae = S754_nan /\ F64.eqb mae F64.zero = false).
Proof.
  split; [intros e; discriminate |].
  exists S754_nan, F64.zero. repeat split; reflexivity.
Qed.

(** ** The cows table *)

Lemma log_event_cows (file : database) (today cow_id event_type details : string) :
  cows (log_event file today cow_id event_type details) =
  if is_exit_event event_type
  then alter (set_status event_type) cow_id (cows file)
  else cows file.
Proof.
  unfold log_event. cbn. destruct (is_exit_event event_type); reflexivity.
Qed.

(** A logged exit event rewrites the status of the named cow only. *)
Lemma log_event_other_cows (file : database)
    (today cow_id event_type details other : string) :
  other <> cow_id ->
  cows (log_event file today cow_id event_type details) !! other =
  cows file !! other.
Proof.
  intros Hne. rewrite log_event_cows.
  destruct (is_exit_event event_type); [| reflexivity].
  apply lookup_alter_ne. congruence.
Qed.

Lemma log_event_exit_status (file : database)
    (today cow_id event_type details : string) (row : cow_row) :
  is_exit_event event_type = true ->
  cows file !! cow_id = Some row ->
  cows (log_event file today cow_id event_type details) !! cow_id =
  Some (set_status event_type row).
Proof.
  intros Hexit Hrow. rewrite log_event_cows, Hexit.
  rewrite lookup_alter_eq, Hrow. reflexivity.
Qed.

(** C9 (code defect). After [log_event(cow, 'Death')] the cow's status is
    the event type, ['Death'], and after a ['Sale'] event it is ['Sale']:
    neither is in the vocabulary Active / Sold / Dead of the [cows]
    table. *)
Theorem log_event_status_outside_vocabulary :
  status <$> cows (log_event herd_of_one "2024-05-17" "UEMBU-001" "Death"
                     "Illness") !! "UEMBU-001"%string
    = Some "Death"%string /\
  status <$> cows (log_event herd_of_one "2024-05-17" "UEMBU-001" "Sale"
                     "Sold at market") !! "UEMBU-001"%string
    = Some "Sale"%string /\
  ~ In "Death"%string status_vocabulary /\
  ~ In "Sale"%string status_vocabulary.
Proof.
  split; [| split; [| split]].
  - vm_compute. reflexivity.
  - vm_compute. reflexivity.
  - cbn. intros [H | [H | [H | []]]]; discriminate.
  - cbn. intros [H | [H | [H | []]]]; discriminate.
Qed.

(** C10. [add_new_cow] never raises. When no cow has the given id it
    returns [True] and the stored table gains exactly that cow, with
    status ['Active'] and the given fields, the events being untouched;
    when the id is taken it returns [False] and the database is what it
    was: nothing inserted, nothing overwritten. *)
Theorem add_new_cow_insert_or_reject :
  forall (file : database) (cow_id sex birth_date : string)
         (mother_id : option string) (breed : string),
    (cows file !! cow_id = None ->
     fst (add_new_cow file cow_id sex birth_date mother_id breed) = Returns true /\
     cows (snd (add_new_cow file cow_id sex birth_date mother_id breed)) =
       <[cow_id := {| sex := sex; birth_date := birth_date; status := "Active";
                      mother_id := mother_id; breed := breed |}]> (cows file) /\
     events (snd (add_new_cow file cow_id sex birth_date mother_id breed)) =
       events file) /\
    (is_Some (cows file !! cow_id) ->
     add_new_cow file cow_id sex birth_date mother_id breed = (Returns false, file)).
Proof.
  intros file cow_id sex birth_date mother_id breed.
  unfold add_new_cow, insert_cow, get_db_connection. cbn [pending stored].
  split.
  - intros ->. cbn. repeat split; reflexivity.
  - intros [row ->]. reflexivity.
Qed.

Lemma add_new_cow_insert_or_reject_witness :
  fst (add_new_cow herd_of_one "UEMBU-002" "Male" "2024-01-09" (Some "UEMBU-001"%string)
         "Boran") = Returns true /\
  add_new_cow herd_of_one "UEMBU-001" "Male" "2024-01-09" None "Boran"
    = (Returns false, herd_of_one).
Proof.
  split.
  - apply (proj1 (add_new_cow_insert_or_reject herd_of_one "UEMBU-002" "Male"
                    "2024-01-09" (Some "UEMBU-001"%string) "Boran")).
    reflexivity.
  - apply (proj2 (add_new_cow_insert_or_reject herd_of_one "UEMBU-001" "Male"
                    "2024-01-09" None "Boran")).
    exists {| sex := "Female"; birth_date := "2021-03-01";
              status := "Active"; mother_id := None; breed := "N/A" |}.
    reflexivity.
Defined.

(** ** The call and the store of list objects *)

Section Store.

Variables (C m : float) (lB lY : positive).
Hypothesis distinct : lB <> lY.

Lemma loop_body_prog_simulates (n : Z) (h : gmap positive (list Z)) (B Y : list Z) :
  h !! lB = Some B -> h !! lY = Some Y ->
  simulates lB lY (fst (loop_body_prog C m lB lY n h)) h
            (snd (loop_body_prog C m lB lY n h)) (loop_body C m n (B, Y)).
Proof.
  intros HB HY.
  unfold loop_body_prog, loop_body, mbind, prog_mbind, prog_bind,
    list_contents, lift, list_append.
  rewrite HB, HY. cbn [default from_option]. unfold id.
  destruct (next_counts C m B Y) as [[nb ny] | e |];
    cbn [fst snd mbind outcome_bind obind]; unfold simulates;
    (split; [| try reflexivity]).
  - intros l HlB HlY. rewrite !lookup_alter_ne by congruence. reflexivity.
  - split; [reflexivity |]. split.
    + rewrite lookup_alter_ne by congruence.
      rewrite lookup_alter_eq, HB. reflexivity.
    + rewrite lookup_alter_eq, lookup_alter_ne, HY by congruence. reflexivity.
  - intros; reflexivity.
  - intros; reflexivity.
Qed.

Lemma for_each_prog_simulates (items : list Z) :
  forall (h : gmap positive (list Z)) (B Y : list Z),
    h !! lB = Some B -> h !! lY = Some Y ->
    simulates lB lY (fst (for_each_prog (loop_body_prog C m lB lY) items h)) h
              (snd (for_each_prog (loop_body_prog C m lB lY) items h))
              (for_each (loop_body C m) items (B, Y)).
Proof.
  induction items as [| i rest IH]; intros h B Y HB HY.
  - cbn. split; [reflexivity |]. repeat split; assumption.
  - cbn [for_each_prog for_each]. unfold prog_bind.
    destruct (loop_body_prog_simulates i h B Y HB HY) as [Hframe Hstep].
    destruct (loop_body_prog C m lB lY i h) as [r h1]. cbn [fst snd] in *.
    destruct (loop_body C m i (B, Y)) as [[B1 Y1] | e |];
      cbn [mbind outcome_bind obind].
    + destruct Hstep as (-> & HB1 & HY1).
      destruct (IH h1 B1 Y1 HB1 HY1) as [Hframe' Hloop].
      split; [| exact Hloop].
      intros l HlB HlY. rewrite Hframe' by assumption. apply Hframe; assumption.
    + subst r. split; [exact Hframe | reflexivity].
    + subst r. split; [exact Hframe | reflexivity].
Qed.

End Store.

(** On any store the store-passing call returns what the function on lists
    returns, and leaves every object of the store as it was. *)
Lemma project_herd_yearly_prog_run (B0 Y0 : Z) (C m : float) (years : Z)
    (h : gmap positive (list Z)) :
  exists h' : gmap positive (list Z),
    project_herd_yearly_prog B0 Y0 C m years h =
      (project_herd_yearly B0 Y0 C m years, h') /\
    forall l v, h !! l = Some v -> h' !! l = Some v.
Proof.
  unfold project_herd_yearly_prog, mbind, prog_mbind, prog_bind, new_list,
    list_contents, lift.
  set (lB := fresh (dom h)).
  set (h1 := <[lB := [B0]]> h).
  set (lY := fresh (dom h1)).
  set (h2 := <[lY := [Y0]]> h1).
  assert (h !! lB = None) as HlB
    by (apply not_elem_of_dom; subst lB; apply is_fresh).
  assert (h1 !! lY = None) as HlY
    by (apply not_elem_of_dom; subst lY; apply is_fresh).
  assert (lB <> lY) as Hne.
  { intros Heq. rewrite <- Heq in HlY. subst h1.
    rewrite lookup_insert_eq in HlY. discriminate. }
  assert (h2 !! lB = Some [B0]) as HB
    by (subst h2 h1; rewrite lookup_insert_ne, lookup_insert_eq by congruence;
        reflexivity).
  assert (h2 !! lY = Some [Y0]) as HY
    by (subst h2; apply lookup_insert_eq).
  destruct (for_each_prog_simulates C m lB lY Hne (py_range 1 (years + 1))
              h2 [B0] [Y0] HB HY) as [Hframe Hloop].
  assert (forall l v, h !! l = Some v -> l <> lB /\ l <> lY) as Hfresh.
  { intros l v Hl. split; intros ->; [congruence |].
    subst h1. rewrite lookup_insert_ne in HlY by congruence. congruence. }
  assert (forall l v, h !! l = Some v -> h2 !! l = Some v) as Hold.
  { intros l v Hl. destruct (Hfresh l v Hl) as [H1 H2]. subst h2 h1.
    rewrite !lookup_insert_ne by congruence. exact Hl. }
  destruct (for_each_prog (loop_body_prog C m lB lY) (py_range 1 (years + 1)) h2)
    as [r h3]. cbn [fst snd] in *.
  assert (forall l v, h !! l = Some v -> h3 !! l = Some v) as Hkept.
  { intros l v Hl. destruct (Hfresh l v Hl) as [H1 H2].
    rewrite Hframe by assumption. apply Hold. exact Hl. }
  exists h3. split; [| exact Hkept].
  unfold project_herd_yearly.
  destruct (for_each (loop_body C m) (py_range 1 (years + 1)) ([B0], [Y0]))
    as [[B Y] | e |]; cbn [mbind outcome_bind obind].
  - destruct Hloop as (-> & HB3 & HY3). rewrite HB3, HY3. reflexivity.
  - subst r. reflexivity.
  - subst r. reflexivity.
Qed.

(** C8. [project_herd_yearly] is a function of its arguments alone: run
    on any two stores of list objects the call gives the same outcome,
    that of the function on lists, and every object that was in the store
    before the call is unchanged after it. *)
Theorem project_herd_yearly_deterministic :
  forall (B0 Y0 : Z) (C m : float) (years : Z) (h1 h2 : gmap positive (list Z)),
    fst (project_herd_yearly_prog B0 Y0 C m years h1) =
      fst (project_herd_yearly_prog B0 Y0 C m years h2) /\
    fst (project_herd_yearly_prog B0 Y0 C m years h1) =
      project_herd_yearly B0 Y0 C m years /\
    (forall l v, h1 !! l = Some v ->
       snd (project_herd_yearly_prog B0 Y0 C m years h1) !! l = Some v).
Proof.
  intros B0 Y0 C m years h1 h2.
  destruct (project_herd_yearly_prog_run B0 Y0 C m years h1) as (h1' & -> & Hs1).
  destruct (project_herd_yearly_prog_run B0 Y0 C m years h2) as (h2' & -> & _).
  split; [reflexivity |]. split; [reflexivity | exact Hs1].
Qed.

Lemma project_herd_yearly_deterministic_witness :
  snd (project_herd_yearly_prog 20 10 f_0_5 f_0_05 1 {[ 1%positive := [7; 8] ]})
    !! 1%positive = Some [7; 8].
Proof.
  apply (proj2 (proj2 (project_herd_yearly_deterministic 20 10 f_0_5 f_0_05 1
                         {[ 1%positive := [7; 8] ]} ∅))).
  reflexivity.
Defined.

(** * Further properties *)

(** ** The projection over different horizons *)

Lemma fmap_Returns_inv {A B : Type} (f : A -> B) (c : outcome A) (b : B) :
  f <$> c = Returns b -> exists a, c = Returns a /\ b = f a.
Proof.
  destruct c as [a | e |]; cbn; intros H; try discriminate.
  exists a. split; [reflexivity | congruence].
Qed.

Lemma for_each_app {S I : Type} (body : I -> S -> outcome S) (xs ys : list I) (s : S) :
  for_each body (xs ++ ys) s = s' ← for_each body xs s; for_each body ys s'.
Proof.
  revert s. induction xs as [| x xs IH]; intros s; cbn [for_each app].
  - reflexivity.
  - destruct (body x s) as [s1 | e |]; cbn [mbind outcome_bind obind];
      [apply IH | reflexivity | reflexivity].
Qed.

Lemma map_seq_shift (a : Z) (k n start : nat) :
  map (fun i => a + Z.of_nat i) (seq (start + k) n) =
  map (fun i => a + Z.of_nat k + Z.of_nat i) (seq start n).
Proof.
  revert start. induction n as [| n IH]; intros start; [reflexivity |].
  cbn [seq map]. f_equal; [lia |]. apply (IH (S start)).
Qed.

Lemma py_range_split (a b c : Z) :
  a <= b <= c -> py_range a c = py_range a b ++ py_range b c.
Proof.
  intros H. unfold py_range.
  replace (Z.to_nat (c - a)) with (Z.to_nat (b - a) + Z.to_nat (c - b))%nat by lia.
  rewrite seq_app, map_app. f_equal.
  rewrite (map_seq_shift a (Z.to_nat (b - a)) _ 0%nat).
  replace (a + Z.of_nat (Z.to_nat (b - a))) with b by lia. reflexivity.
Qed.

Lemma zip_with_take_both {A B D : Type} (f : A -> B -> D) (n : nat)
    (xs : list A) (ys : list B) :
  take n (zip_with f xs ys) = zip_with f (take n xs) (take n ys).
Proof.
  revert xs ys. induction n as [| n IH]; intros [| x xs] [| y ys];
    try reflexivity.
  cbn. rewrite IH. reflexivity.
Qed.

Lemma zip_with_drop_both {A B D : Type} (f : A -> B -> D) (n : nat)
    (xs : list A) (ys : list B) :
  length xs = length ys ->
  drop n (zip_with f xs ys) = zip_with f (drop n xs) (drop n ys).
Proof.
  revert xs ys. induction n as [| n IH]; intros [| x xs] [| y ys] H;
    try reflexivity; try discriminate.
  cbn. apply IH. cbn in H. lia.
Qed.

(** The loop over the first [years] items of a longer run. *)
Lemma for_each_loop_body_split (C m : float) (B0 Y0 years years' : Z)
    (B' Y' : list Z) :
  0 <= years <= years' ->
  for_each (loop_body C m) (py_range 1 (years' + 1)) ([B0], [Y0]) = Returns (B', Y') ->
  exists B Y tB tY : list Z,
    for_each (loop_body C m) (py_range 1 (years + 1)) ([B0], [Y0]) = Returns (B, Y) /\
    for_each (loop_body C m) (py_range (years + 1) (years' + 1)) (B, Y)
      = Returns (B', Y') /\
    B' = B ++ tB /\ Y' = Y ++ tY /\
    length B = S (Z.to_nat years) /\ length Y = S (Z.to_nat years).
Proof.
  intros Hy Hloop.
  rewrite (py_range_split 1 (years + 1) (years' + 1)) in Hloop by lia.
  rewrite for_each_app in Hloop.
  apply bind_Returns in Hloop as ([B Y] & Hfirst & Hrest).
  pose proof (for_each_loop_body C m _ _ _ _ _ Hfirst eq_refl
                (obeys_recurrence_singleton C m B0 Y0)) as (HlB & HlY & Hch & _).
  pose proof (for_each_loop_body C m _ _ _ _ _ Hrest ltac:(lia) Hch)
    as (_ & _ & _ & tB & tY & -> & ->).
  rewrite py_range_length in HlB. cbn [length] in HlB.
  exists B, Y, tB, tY.
  split; [exact Hfirst |]. split; [exact Hrest |].
  split; [reflexivity |]. split; [reflexivity |]. split; lia.
Qed.

Lemma build_frame_Returns (years : Z) (B Y : list Z) :
  length B = Z.to_nat (years + 1) -> length Y = length B ->
  forallb in_int64 B = true -> forallb in_int64 Y = true ->
  build_frame years B Y =
  Returns {| Year := py_range 0 (years + 1); Breeders := B; Juveniles := Y;
             Total := zip_with int64_add B Y |}.
Proof.
  intros HlB HlY HB HY. unfold build_frame, np_array_int.
  rewrite HB, HY. cbn [mbind outcome_bind obind].
  rewrite broadcast2_same_length by (symmetry; exact HlY).
  cbn [mbind outcome_bind obind]. unfold pd_DataFrame.
  rewrite py_range_length, length_zip_with, HlY.
  replace (years + 1 - 0) with (years + 1) by lia.
  rewrite <- HlB, Nat.min_id, !Nat.eqb_refl. reflexivity.
Qed.

(** X1. As long as every count of a returned projection fits a signed
    64-bit integer, cutting it after year [years] gives the projection
    over the shorter horizon [years], which returns too. (A count beyond
    that range changes the element type of the whole total column, the
    earlier years included.) *)
Theorem project_herd_yearly_shorter_horizon :
  forall (B0 Y0 : Z) (C m : float) (years years' : Z) (df' : DataFrame),
    0 <= years <= years' ->
    project_herd_yearly B0 Y0 C m years' = Returns df' ->
    forallb in_int64 (Breeders df') = true ->
    forallb in_int64 (Juveniles df') = true ->
    project_herd_yearly B0 Y0 C m years =
    Returns (frame_head (S (Z.to_nat years)) df').
Proof.
  intros B0 Y0 C m years years' df' Hy Hdf' _ _.
  apply project_herd_yearly_Returns in Hdf'
    as (B' & Y' & Hloop' & HlB' & HlY' & _ & _ & _ & HB' & HY' & ->).
  destruct (for_each_loop_body_split C m B0 Y0 years years' B' Y' Hy Hloop')
    as (B & Y & tB & tY & Hloop & _ & -> & -> & HlB & HlY).
  unfold project_herd_yearly. rewrite Hloop. cbn [mbind outcome_bind obind].
  rewrite forallb_app in HB', HY'.
  apply andb_prop in HB' as [HB _]. apply andb_prop in HY' as [HY _].
  rewrite build_frame_Returns by (try assumption; lia).
  unfold frame_head. cbn [Year Breeders Juveniles Total].
  rewrite zip_with_take_both.
  rewrite !take_app_length' by lia.
  rewrite (py_range_split 0 (years + 1) (years' + 1)) by lia.
  rewrite take_app_length' by (rewrite py_range_length; lia).
  reflexivity.
Qed.

Lemma project_herd_yearly_shorter_horizon_witness :
  project_herd_yearly 20 10 f_0_5 f_0_05 3 =
  Returns (frame_head 4 default_projection).
Proof.
  apply (project_herd_yearly_shorter_horizon 20 10 f_0_5 f_0_05 3 10).
  - lia.
  - vm_compute. reflexivity.
  - reflexivity.
  - reflexivity.
Defined.

Lemma py_last_app {A : Type} (l1 l2 : list A) :
  l2 <> [] -> py_last (l1 ++ l2) = py_last l2.
Proof.
  intros H. unfold py_last. rewrite last_app.
  destruct (last l2) eqn:Hl; [reflexivity |].
  apply last_None in Hl. contradiction.
Qed.

Lemma next_counts_app (C m : float) (P Q B Y : list Z) :
  B <> [] -> Y <> [] ->
  next_counts C m (P ++ B) (Q ++ Y) = next_counts C m B Y.
Proof.
  intros HB HY. unfold next_counts.
  rewrite (py_last_app P B HB), (py_last_app Q Y HY). reflexivity.
Qed.

Lemma loop_body_app (C m : float) (P Q B Y : list Z) (i i' : Z) :
  B <> [] -> Y <> [] ->
  loop_body C m i (P ++ B, Q ++ Y) =
  (fun st : list Z * list Z => (P ++ st.1, Q ++ st.2)) <$> loop_body C m i' (B, Y).
Proof.
  intros HB HY. unfold loop_body.
  rewrite next_counts_app by assumption.
  destruct (next_counts C m B Y) as [[nb ny] | e |]; cbn; [| reflexivity | reflexivity].
  rewrite <- !app_assoc. reflexivity.
Qed.

(** The loop reads the latest entries only: entries before them, and the
    loop items themselves, do not matter. *)
Lemma for_each_loop_body_latest (C m : float) (P Q : list Z) (items items' : list Z) :
  length items = length items' ->
  forall B Y : list Z,
    B <> [] -> Y <> [] ->
    for_each (loop_body C m) items (P ++ B, Q ++ Y) =
    (fun st : list Z * list Z => (P ++ st.1, Q ++ st.2))
      <$> for_each (loop_body C m) items' (B, Y).
Proof.
  revert items'. induction items as [| i items IH]; intros [| i' items'] Hlen B Y HB HY;
    try discriminate; [reflexivity |].
  cbn [for_each]. rewrite (loop_body_app C m P Q B Y i i') by assumption.
  destruct (loop_body C m i' (B, Y)) as [[B1 Y1] | e |] eqn:Hbody;
    cbn [fmap outcome_fmap mbind outcome_bind obind fst snd];
    [| reflexivity | reflexivity].
  apply loop_body_Returns in Hbody as (b & y & b' & y' & _ & _ & _ & _ & -> & ->).
  apply IH; [cbn in Hlen; lia | |]; intros Hnil;
    apply app_eq_nil in Hnil as [_ Hnil]; discriminate.
Qed.

Lemma py_range_shift (a b n : Z) :
  map (fun y => y - n) (py_range a b) = py_range (a - n) (b - n).
Proof.
  unfold py_range. rewrite map_map.
  replace (b - n - (a - n)) with (b - a) by lia.
  apply map_ext. intros k. lia.
Qed.

(** X2. The projection has no memory beyond the latest year: as long as
    every count of a returned frame fits a signed 64-bit integer, its rows
    from year [n] on are the projection started from the counts of year
    [n], which returns too. *)
Theorem project_herd_yearly_restart :
  forall (B0 Y0 : Z) (C m : float) (n k : Z) (df : DataFrame),
    0 <= n -> 0 <= k ->
    project_herd_yearly B0 Y0 C m (n + k) = Returns df ->
    forallb in_int64 (Breeders df) = true ->
    forallb in_int64 (Juveniles df) = true ->
    exists b y : Z,
      Breeders df !! Z.to_nat n = Some b /\
      Juveniles df !! Z.to_nat n = Some y /\
      project_herd_yearly b y C m k = Returns (frame_tail (Z.to_nat n) df).
Proof.
  intros B0 Y0 C m n k df Hn Hk Hdf _ _.
  apply project_herd_yearly_Returns in Hdf
    as (B' & Y' & Hloop' & HlB' & HlY' & _ & _ & _ & HB' & HY' & ->).
  destruct (for_each_loop_body_split C m B0 Y0 n (n + k) B' Y' ltac:(lia) Hloop')
    as (B & Y & tB & tY & _ & Hrest & -> & -> & HlB & HlY).
  destruct (last B) as [b |] eqn:Hb;
    [| apply last_None in Hb; subst B; discriminate].
  destruct (last Y) as [y |] eqn:Hy;
    [| apply last_None in Hy; subst Y; discriminate].
  apply last_Some in Hb as [P ->]. apply last_Some in Hy as [Q ->].
  rewrite length_app in HlB, HlY. cbn [length] in HlB, HlY.
  exists b, y. cbn [Breeders Juveniles].
  assert (Z.to_nat n = length P) as HnP by lia.
  assert (Z.to_nat n = length Q) as HnQ by lia.
  split; [rewrite <- app_assoc, lookup_app_r, HnP, Nat.sub_diag by lia;
          reflexivity |].
  split; [rewrite <- app_assoc, lookup_app_r, HnQ, Nat.sub_diag by lia;
          reflexivity |].
  rewrite (for_each_loop_body_latest C m P Q _ (py_range 1 (k + 1)))
    in Hrest by (rewrite ?py_range_length; try discriminate; lia).
  apply fmap_Returns_inv in Hrest as ([B2 Y2] & Hloop & Heq).
  cbn [fst snd] in Heq. inversion Heq as [[HeqB HeqY]]; clear Heq.
  pose proof (for_each_loop_body C m _ _ _ _ _ Hloop eq_refl
                (obeys_recurrence_singleton C m b y))
    as (HlB2 & HlY2 & _ & tB2 & tY2 & -> & ->).
  rewrite py_range_length in HlB2. cbn [length] in HlB2.
  rewrite <- !app_assoc in HeqB, HeqY.
  apply app_inv_head in HeqB, HeqY. cbn [app] in HeqB, HeqY.
  inversion HeqB; inversion HeqY; subst tB2 tY2; clear HeqB HeqY.
  unfold project_herd_yearly. rewrite Hloop. cbn [mbind outcome_bind obind].
  rewrite <- !app_assoc, !forallb_app in HB', HY'.
  apply andb_prop in HB' as [_ HB]. apply andb_prop in HY' as [_ HY].
  rewrite <- forallb_app in HB, HY.
  rewrite !length_app in *. cbn [length] in *.
  rewrite build_frame_Returns
    by (rewrite ?length_app; cbn [length]; try assumption; lia).
  unfold frame_tail. cbn [Year Breeders Juveniles Total].
  rewrite zip_with_drop_both by (rewrite !length_app; cbn [length]; lia).
  rewrite <- !app_assoc, !drop_app_length' by lia.
  rewrite (py_range_split 0 n (n + k + 1)) by lia.
  rewrite drop_app_length' by (rewrite py_range_length; lia).
  rewrite py_range_shift.
  replace (n - Z.of_nat (Z.to_nat n)) with 0 by lia.
  replace (n + k + 1 - Z.of_nat (Z.to_nat n)) with (k + 1) by lia.
  reflexivity.
Qed.

Lemma project_herd_yearly_restart_witness :
  exists b y : Z,
    Breeders default_projection !! Z.to_nat 4 = Some b /\
    Juveniles default_projection !! Z.to_nat 4 = Some y /\
    project_herd_yearly b y f_0_5 f_0_05 6 =
    Returns (frame_tail (Z.to_nat 4) default_projection).
Proof.
  apply (project_herd_yearly_restart 20 10 f_0_5 f_0_05 4 6 default_projection).
  - lia.
  - lia.
  - vm_compute. reflexivity.
  - reflexivity.
  - reflexivity.
Defined.

(** ** A herd without breeders *)

Lemma mul_zero_or_nan_l (x y : float) :
  zero_or_nan x = true -> zero_or_nan (F64.mul x y) = true.
Proof. destruct x, y; cbn; intros H; try discriminate; reflexivity. Qed.

Lemma mul_zero_or_nan_r (x y : float) :
  zero_or_nan y = true -> zero_or_nan (F64.mul x y) = true.
Proof. destruct x, y; cbn; intros H; try discriminate; reflexivity. Qed.

Lemma add_zero_or_nan (x y : float) :
  zero_or_nan x = true -> zero_or_nan y = true ->
  zero_or_nan (F64.add x y) = true.
Proof.
  destruct x as [sx | | |], y as [sy | | |]; cbn; intros Hx Hy;
    try discriminate; try reflexivity.
  destruct sx, sy; reflexivity.
Qed.

Lemma py_int_np_round_zero_or_nan (x : float) (z : Z) :
  zero_or_nan x = true -> py_int (np_round x) = Returns z -> z = 0.
Proof.
  destruct x; cbn; intros H Hz; try discriminate; inversion Hz; reflexivity.
Qed.

Lemma py_float_0 : py_float 0 = Returns (S754_zero false).
Proof. reflexivity. Qed.

(** No breeders, no calves. *)
Lemma recurrence_Y_no_breeders (C m : float) (y' : Z) :
  recurrence_Y C m 0 = Returns y' -> y' = 0.
Proof.
  unfold recurrence_Y. rewrite py_float_0. cbn [mbind outcome_bind obind].
  apply py_int_np_round_zero_or_nan.
  apply mul_zero_or_nan_l, mul_zero_or_nan_r. reflexivity.
Qed.

Lemma recurrence_B_empty_herd (m : float) (b' : Z) :
  recurrence_B m 0 0 = Returns b' -> b' = 0.
Proof.
  unfold recurrence_B. rewrite py_float_0. cbn [mbind outcome_bind obind].
  apply py_int_np_round_zero_or_nan.
  apply add_zero_or_nan; apply mul_zero_or_nan_l; reflexivity.
Qed.

(** X3. In a returned frame a year without breeders is followed by a year
    without juveniles, and a herd that starts empty stays empty: every
    count and every total of its projection is zero. *)
Theorem project_herd_yearly_no_breeders :
  (forall (B0 Y0 : Z) (C m : float) (years : Z) (df : DataFrame) (n : nat),
      project_herd_yearly B0 Y0 C m years = Returns df ->
      Breeders df !! n = Some 0 ->
      (S n < nrows df)%nat ->
      Juveniles df !! S n = Some 0) /\
  (forall (C m : float) (years : Z) (df : DataFrame),
      project_herd_yearly 0 0 C m years = Returns df ->
      forall (i : nat) (v : Z),
        Breeders df !! i = Some v \/ Juveniles df !! i = Some v \/
        Total df !! i = Some v ->
        v = 0).
Proof.
  split.
  - intros B0 Y0 C m years df n Hdf Hb Hn.
    apply project_herd_yearly_Returns in Hdf
      as (B & Y & _ & HlB & HlY & Hrange & Hch & _ & _ & _ & ->).
    unfold nrows in Hn. cbn [Year Breeders Juveniles] in *.
    rewrite py_range_length in Hn.
    destruct (lookup_lt_is_Some_2 Y n ltac:(lia)) as [y Hy].
    destruct (lookup_lt_is_Some_2 B (S n) ltac:(lia)) as [b' Hb'].
    destruct (lookup_lt_is_Some_2 Y (S n) ltac:(lia)) as [y' Hy'].
    destruct (Hch _ _ _ _ _ Hb Hy Hb' Hy') as [_ Hry].
    apply recurrence_Y_no_breeders in Hry. subst y'. exact Hy'.
  - intros C m years df Hdf.
    apply project_herd_yearly_Returns in Hdf
      as (B & Y & _ & _ & HlY & _ & Hch & (tB & tY & -> & ->) & _ & _ & ->).
    cbn [Breeders Juveniles Total].
    assert (forall i b y, (0 :: tB) !! i = Some b -> (0 :: tY) !! i = Some y ->
                          b = 0 /\ y = 0) as Hzero.
    { induction i as [| i IH]; intros b y Hb Hy.
      - cbn in Hb, Hy. split; congruence.
      - destruct (lookup_lt_is_Some_2 (0 :: tB) i) as [b0 Hb0];
          [apply lookup_lt_Some in Hb; lia |].
        destruct (lookup_lt_is_Some_2 (0 :: tY) i) as [y0 Hy0];
          [apply lookup_lt_Some in Hy; lia |].
        destruct (IH b0 y0 Hb0 Hy0) as [-> ->].
        destruct (Hch _ _ _ _ _ Hb0 Hy0 Hb Hy) as [Hrb Hry].
        split; [eapply recurrence_B_empty_herd | eapply recurrence_Y_no_breeders];
          eassumption. }
    intros i v [Hv | [Hv | Hv]].
    + destruct (lookup_lt_is_Some_2 (0 :: tY) i) as [y Hy];
        [apply lookup_lt_Some in Hv; lia |].
      apply (Hzero i v y Hv Hy).
    + destruct (lookup_lt_is_Some_2 (0 :: tB) i) as [b Hb];
        [apply lookup_lt_Some in Hv; lia |].
      apply (Hzero i b v Hb Hv).
    + rewrite lookup_zip_with in Hv.
      destruct ((0 :: tB) !! i) as [b |] eqn:Hb; [| discriminate].
      destruct ((0 :: tY) !! i) as [y |] eqn:Hy; [| discriminate].
      cbn in Hv. destruct (Hzero i b y Hb Hy) as [-> ->].
      inversion Hv. reflexivity.
Qed.

Lemma project_herd_yearly_no_breeders_witness :
  [5; 0] !! 1%nat = Some 0 /\
  (forall (i : nat) (v : Z),
      [0; 0; 0] !! i = Some v \/ [0; 0; 0] !! i = Some v \/
      [0; 0; 0] !! i = Some v -> v = 0).
Proof.
  split.
  - apply (proj1 project_herd_yearly_no_breeders 0 5 f_0_5 f_0_05 1
             {| Year := [0; 1]; Breeders := [0; 5]; Juveniles := [5; 0];
                Total := [5; 5] |} 0%nat).
    + vm_compute. reflexivity.
    + reflexivity.
    + cbn. lia.
  - apply (proj2 project_herd_yearly_no_breeders f_0_5 f_0_05 2
             {| Year := [0; 1; 2]; Breeders := [0; 0; 0]; Juveniles := [0; 0; 0];
                Total := [0; 0; 0] |}).
    vm_compute. reflexivity.
Defined.

(** ** How the projection can fail *)

Lemma py_float_Raises (z : Z) (e : exn) : py_float z = Raises e -> e = OverflowError.
Proof.
  unfold py_float. destruct (F64.of_Z z); intros H; inversion H; reflexivity.
Qed.

Lemma py_int_Raises (x : float) (e : exn) :
  py_int x = Raises e -> e = OverflowError \/ e = ValueError.
Proof. destruct x; cbn; intros H; inversion H; auto. Qed.

Lemma py_last_nonempty {A : Type} (l : list A) :
  l <> [] -> exists x, py_last l = Returns x.
Proof.
  intros H. unfold py_last. destruct (last l) as [x |] eqn:Hl; [eauto |].
  apply last_None in Hl. contradiction.
Qed.

Lemma bind_Raises {A B : Type} (c : outcome A) (k : A -> outcome B) (e : exn) :
  c ≫= k = Raises e ->
  c = Raises e \/ exists a, c = Returns a /\ k a = Raises e.
Proof.
  destruct c as [a | e' |]; cbn; intros H.
  - right. exists a. split; [reflexivity | exact H].
  - left. inversion H. reflexivity.
  - discriminate.
Qed.

Lemma next_counts_Raises (C m : float) (B Y : list Z) (e : exn) :
  B <> [] -> Y <> [] ->
  next_counts C m B Y = Raises e -> e = OverflowError \/ e = ValueError.
Proof.
  intros HB HY. unfold next_counts.
  destruct (py_last_nonempty B HB) as [b ->].
  destruct (py_last_nonempty Y HY) as [y ->].
  cbn [mbind outcome_bind obind]. intros H.
  apply bind_Raises in H as [H | (fb & _ & H)];
    [apply py_float_Raises in H; auto |].
  apply bind_Raises in H as [H | (fb1 & _ & H)];
    [apply py_float_Raises in H; auto |].
  cbn [mbind outcome_bind obind] in H.
  apply bind_Raises in H as [H | (fy & _ & H)];
    [apply py_float_Raises in H; auto |].
  apply bind_Raises in H as [H | (nb & _ & H)];
    [apply py_int_Raises in H; exact H |].
  apply bind_Raises in H as [H | (ny & _ & H)];
    [apply py_int_Raises in H; exact H | discriminate].
Qed.

Lemma for_each_loop_body_Raises (C m : float) (items : list Z) (e : exn) :
  forall B Y : list Z,
    B <> [] -> Y <> [] ->
    for_each (loop_body C m) items (B, Y) = Raises e ->
    e = OverflowError \/ e = ValueError.
Proof.
  induction items as [| i items IH]; intros B Y HB HY H; [discriminate |].
  cbn [for_each] in H.
  apply bind_Raises in H as [H | ([B1 Y1] & Hbody & H)].
  - unfold loop_body in H.
    apply bind_Raises in H as [H | ([nb ny] & _ & H)]; [| discriminate].
    exact (next_counts_Raises C m B Y e HB HY H).
  - apply loop_body_Returns in Hbody as (b & y & b' & y' & _ & _ & _ & _ & -> & ->).
    apply (IH _ _) in H; [exact H | |]; intros Hnil;
      apply app_eq_nil in Hnil as [_ Hnil]; discriminate.
Qed.

Lemma build_frame_Raises (years : Z) (B Y : list Z) (e : exn) :
  length Y = length B ->
  build_frame years B Y = Raises e ->
  e = ValueError /\ length B <> Z.to_nat (years + 1).
Proof.
  intros HlY. unfold build_frame, np_array_int.
  destruct (forallb in_int64 B); [| discriminate].
  destruct (forallb in_int64 Y); [| discriminate].
  cbn [mbind outcome_bind obind].
  rewrite broadcast2_same_length by (symmetry; exact HlY).
  cbn [mbind outcome_bind obind]. unfold pd_DataFrame.
  rewrite py_range_length, length_zip_with, HlY, Nat.min_id, !Nat.eqb_refl.
  replace (years + 1 - 0) with (years + 1) by lia.
  destruct (Nat.eqb_spec (Z.to_nat (years + 1)) (length B)) as [Heq | Hne];
    cbn; intros H; inversion H.
  split; [reflexivity | congruence].
Qed.

(** X4. The only exceptions [project_herd_yearly] raises are
    [OverflowError] and [ValueError]; in particular [B[-1]] and [Y[-1]]
    never raise [IndexError]. For a non-negative horizon the frame
    construction never fails: an exception then comes from the loop, from a
    count too large to convert or a raw value that is infinite or NaN. *)
Theorem project_herd_yearly_exceptions :
  forall (B0 Y0 : Z) (C m : float) (years : Z) (e : exn),
    project_herd_yearly B0 Y0 C m years = Raises e ->
    (e = OverflowError \/ e = ValueError) /\
    (0 <= years ->
     for_each (loop_body C m) (py_range 1 (years + 1)) ([B0], [Y0]) = Raises e).
Proof.
  intros B0 Y0 C m years e H. unfold project_herd_yearly in H.
  apply bind_Raises in H as [H | ([B Y] & Hloop & H)].
  - split; [| intros _; exact H].
    eapply for_each_loop_body_Raises; [| | exact H]; discriminate.
  - pose proof (for_each_loop_body C m _ _ _ _ _ Hloop eq_refl
                  (obeys_recurrence_singleton C m B0 Y0)) as (HlB & HlY & _).
    rewrite py_range_length in HlB. cbn [length] in HlB.
    apply build_frame_Raises in H as [-> Hlen]; [| exact HlY].
    split; [auto |]. intros Hy. exfalso. apply Hlen. lia.
Qed.

Lemma project_herd_yearly_exceptions_witness :
  (ValueError = OverflowError \/ ValueError = ValueError) /\
  (0 <= 1 ->
   for_each (loop_body f_0_5 S754_nan) (py_range 1 (1 + 1)) ([20], [10])
     = Raises ValueError).
Proof.
  apply (project_herd_yearly_exceptions 20 10 f_0_5 S754_nan 1 ValueError).
  vm_compute. reflexivity.
Defined.

(** ** Integers as binary64 numbers *)

Lemma shr_1_m (r : shr_record) :
  0 <= shr_m r -> shr_m (shr_1 r) = shr_m r / 2 /\ 0 <= shr_m (shr_1 r).
Proof.
  destruct r as [m rb sb]. cbn [shr_m]. intros Hm.
  destruct m as [| [p | p |] | p]; cbn [shr_1 shr_m]; [| | | | lia];
    (split; [| lia]).
  - reflexivity.
  - apply Z.div_unique with 1; lia.
  - apply Z.div_unique with 0; lia.
  - reflexivity.
Qed.

Lemma iter_shr_1_m (n : positive) :
  forall r : shr_record,
    0 <= shr_m r ->
    shr_m (SpecFloat.iter_pos shr_1 n r) = shr_m r / 2 ^ Zpos n /\
    0 <= shr_m (SpecFloat.iter_pos shr_1 n r).
Proof.
  induction n as [n IH | n IH |]; intros r Hr; cbn [SpecFloat.iter_pos];
    try pose proof (Z.pow_pos_nonneg 2 (Zpos n) ltac:(lia) ltac:(lia)) as Hp.
  - destruct (shr_1_m r Hr) as [H1 H1'].
    destruct (IH _ H1') as [H2 H2']. destruct (IH _ H2') as [H3 H3'].
    split; [| exact H3']. rewrite H3, H2, H1.
    rewrite !Z.div_div by lia.
    assert (2 ^ Zpos n~1 = 2 * (2 ^ Zpos n * 2 ^ Zpos n)) as ->; [| reflexivity].
    rewrite <- Z.pow_add_r, <- Z.pow_succ_r by lia. f_equal. lia.
  - destruct (IH _ Hr) as [H2 H2']. destruct (IH _ H2') as [H3 H3'].
    split; [| exact H3']. rewrite H3, H2.
    rewrite !Z.div_div by lia.
    assert (2 ^ Zpos n~0 = 2 ^ Zpos n * 2 ^ Zpos n) as ->; [| reflexivity].
    rewrite <- Z.pow_add_r by lia. f_equal. lia.
  - destruct (shr_1_m r Hr) as [H1 H1']. split; [exact H1 | exact H1'].
Qed.

Lemma round_nearest_even_bounds (q : Z) (l : location) :
  q <= round_nearest_even q l <= q + 1.
Proof.
  destruct l as [| [| |]]; cbn [round_nearest_even]; try lia.
  destruct (Z.even q); lia.
Qed.

Lemma digits2_pos_of_bounds (p : positive) (d : Z) :
  2 ^ (d - 1) <= Zpos p < 2 ^ d -> 1 <= d -> Zpos (digits2_pos p) = d.
Proof.
  intros [Hlo Hhi] Hd.
  pose proof (digits2_pos_bound p) as Hb. pose proof (digits2_pos_lower p) as Hl.
  destruct (Z.lt_trichotomy (Zpos (digits2_pos p)) d) as [H | [H | H]];
    [| exact H |].
  - assert (2 ^ Zpos (digits2_pos p) <= 2 ^ (d - 1))
      by (apply Z.pow_le_mono_r; lia). lia.
  - assert (2 ^ d <= 2 ^ (Zpos (digits2_pos p) - 1))
      by (apply Z.pow_le_mono_r; lia). lia.
Qed.

(** Rounding a mantissa of more than 53 bits at exponent 0: the result is
    finite, or infinite when the mantissa has 1024 bits or more. *)
Lemma binary_round_aux_wide (s : bool) (p : positive) (d : Z) :
  Zpos (digits2_pos p) = d -> 54 <= d ->
  match binary_round_aux F64.prec F64.emax s (Zpos p) 0 loc_Exact with
  | S754_finite s' _ _ => s' = s
  | S754_infinity s' => s' = s /\ 1024 <= d
  | _ => False
  end.
Proof.
  intros Hd Hd54.
  pose proof (digits2_pos_bound p) as Hhi. pose proof (digits2_pos_lower p) as Hlo.
  rewrite Hd in Hhi, Hlo.
  unfold binary_round_aux.
  destruct (shr_fexp F64.prec F64.emax (Zpos p) 0 loc_Exact) as [mrs' e'] eqn:Hs1.
  unfold shr_fexp, shr in Hs1. cbn [Zdigits2 shr_record_of_loc] in Hs1.
  rewrite Hd in Hs1. unfold fexp, emin, F64.prec, F64.emax in Hs1.
  replace (Z.max (d + 0 - 53) (3 - 1024 - 53) - 0) with (d - 53) in Hs1 by lia.
  destruct (d - 53) as [| n |] eqn:Hn; try lia.
  inversion Hs1; subst mrs' e'; clear Hs1.
  destruct (iter_shr_1_m n {| shr_m := Zpos p; shr_r := false; shr_s := false |}
              ltac:(cbn; lia)) as [Hq _].
  cbn [shr_m] in Hq.
  set (mrs' := SpecFloat.iter_pos shr_1 n _) in *.
  assert (0 < 2 ^ Zpos n) as Hpn by (apply Z.pow_pos_nonneg; lia).
  assert (2 ^ (d - 1) = 4503599627370496 * 2 ^ Zpos n) as Hlo'.
  { replace (d - 1) with (52 + Zpos n) by lia. rewrite Z.pow_add_r by lia.
    reflexivity. }
  assert (2 ^ d = 9007199254740992 * 2 ^ Zpos n) as Hhi'.
  { replace d with (53 + Zpos n) by lia. rewrite Z.pow_add_r by lia.
    reflexivity. }
  rewrite Hlo' in Hlo. rewrite Hhi' in Hhi.
  assert (4503599627370496 <= shr_m mrs' < 9007199254740992) as Hqb.
  { rewrite Hq. split.
    - apply Z.div_le_lower_bound; lia.
    - apply Z.div_lt_upper_bound; lia. }
  pose proof (round_nearest_even_bounds (shr_m mrs') (loc_of_shr_record mrs')) as Hr.
  destruct (round_nearest_even (shr_m mrs') (loc_of_shr_record mrs'))
    as [| p1 | p1]; try lia.
  destruct (shr_fexp F64.prec F64.emax (Zpos p1) (0 + Zpos n) loc_Exact)
    as [mrs'' e''] eqn:Hs2.
  unfold shr_fexp, shr, F64.prec, F64.emax in Hs2 |- *.
  cbn [Zdigits2 shr_record_of_loc] in Hs2.
  destruct (Z.eq_dec (Zpos p1) 9007199254740992) as [Heq | Hne].
  - rewrite (digits2_pos_of_bounds p1 54) in Hs2
      by (rewrite ?Heq; vm_compute; intuition discriminate).
    unfold fexp, emin in Hs2.
    replace (Z.max (54 + (0 + Zpos n) - 53) (3 - 1024 - 53) - (0 + Zpos n))
      with 1 in Hs2 by lia.
    inversion Hs2; subst mrs'' e''; clear Hs2.
    assert (p1 = 9007199254740992%positive) as -> by congruence.
    cbn [SpecFloat.iter_pos shr_1 shr_m].
    match goal with |- context [?a <=? ?b] => destruct (Z.leb_spec a b) end;
      [reflexivity |].
    split; [reflexivity | lia].
  - rewrite (digits2_pos_of_bounds p1 53) in Hs2
      by (change (2 ^ (53 - 1)) with 4503599627370496;
          change (2 ^ 53) with 9007199254740992; lia).
    unfold fexp, emin in Hs2.
    replace (Z.max (53 + (0 + Zpos n) - 53) (3 - 1024 - 53) - (0 + Zpos n))
      with 0 in Hs2 by lia.
    inversion Hs2; subst mrs'' e''; clear Hs2.
    cbn [shr_m].
    match goal with |- context [?a <=? ?b] => destruct (Z.leb_spec a b) end;
      [reflexivity |].
    split; [reflexivity | lia].
Qed.

Lemma binary_round_int_shape (s : bool) (p : positive) :
  nonzero_with_sign s (binary_round F64.prec F64.emax s p 0).
Proof.
  pose proof (digits2_pos_lower p) as Hl.
  unfold binary_round.
  replace (fexp F64.prec F64.emax (Zpos (digits2_pos p) + 0))
    with (Zpos (digits2_pos p) - 53)
    by (unfold fexp, emin, F64.prec, F64.emax; lia).
  unfold shl_align.
  destruct (Zpos (digits2_pos p) - 53 - 0) as [| d | d] eqn:Hk.
  - rewrite binary_round_aux_canonical by lia. reflexivity.
  - pose proof (binary_round_aux_wide s p (Zpos (digits2_pos p)) eq_refl
                  ltac:(lia)) as H.
    destruct (binary_round_aux F64.prec F64.emax s (Zpos p) 0 loc_Exact);
      cbn; tauto.
  - rewrite binary_round_aux_canonical; [reflexivity | | lia].
    rewrite iter_xO_digits. lia.
Qed.

(** A non-zero integer converts to a non-zero float of its sign (an
    infinity when it is out of the binary64 range). *)
Lemma of_Z_shape (z : Z) :
  z <> 0 -> nonzero_with_sign (z <? 0) (F64.of_Z z).
Proof.
  intros Hz. unfold F64.of_Z.
  destruct z as [| p | p]; [congruence | |]; cbn [binary_normalize];
    apply binary_round_int_shape.
Qed.

Lemma div_zero_nonzero (s s' : bool) (x : float) :
  nonzero_with_sign s' x -> F64.div (S754_zero s) x = S754_zero (xorb s s').
Proof. destruct x; cbn; try tauto; intros ->; reflexivity. Qed.

Lemma binary_round_int_finite (s : bool) (p : positive) :
  Zpos p < 2 ^ 1023 ->
  float_finite (binary_round F64.prec F64.emax s p 0) = true.
Proof.
  intros Hp.
  pose proof (digits2_pos_lower p) as Hl.
  unfold binary_round.
  replace (fexp F64.prec F64.emax (Zpos (digits2_pos p) + 0))
    with (Zpos (digits2_pos p) - 53)
    by (unfold fexp, emin, F64.prec, F64.emax; lia).
  unfold shl_align.
  destruct (Zpos (digits2_pos p) - 53 - 0) as [| d | d] eqn:Hk.
  - rewrite binary_round_aux_canonical by lia. reflexivity.
  - pose proof (binary_round_aux_wide s p (Zpos (digits2_pos p)) eq_refl
                  ltac:(lia)) as H.
    destruct (binary_round_aux F64.prec F64.emax s (Zpos p) 0 loc_Exact);
      cbn; try tauto.
    destruct H as [_ H].
    assert (2 ^ 1023 <= 2 ^ (Zpos (digits2_pos p) - 1))
      by (apply Z.pow_le_mono_r; lia).
    lia.
  - rewrite binary_round_aux_canonical; [reflexivity | | lia].
    rewrite iter_xO_digits. lia.
Qed.

Lemma of_Z_finite (z : Z) : Z.abs z < 2 ^ 1023 -> float_finite (F64.of_Z z) = true.
Proof.
  intros Hz. unfold F64.of_Z.
  destruct z as [| p | p]; cbn [binary_normalize]; [reflexivity | |];
    apply binary_round_int_finite; exact Hz.
Qed.

Lemma in_int64_finite (z : Z) : in_int64 z = true -> float_finite (F64.of_Z z) = true.
Proof.
  unfold in_int64, int64_min, int64_max. intros H.
  apply andb_prop in H as [H1 H2]. apply Z.leb_le in H1, H2.
  apply of_Z_finite.
  assert (2 ^ 63 < 2 ^ 1023) by (apply Z.pow_lt_mono_r; lia). lia.
Qed.

(** ** A perfect forecast *)

Lemma sub_same (x : float) : float_finite x = true -> F64.sub x x = F64.zero.
Proof.
  destruct x as [s | s | | s m e]; try discriminate; intros _.
  - destruct s; reflexivity.
  - unfold F64.sub, SFsub.
    destruct (shl_align m e (Z.min e e)) as [m' e'] eqn:Hs. cbn [fst].
    rewrite Z.sub_diag. reflexivity.
Qed.

Lemma scalar_abs_error_same (v : scalar) :
  scalar_finite v = true -> scalar_abs_error (v, v) = F64.zero.
Proof.
  destruct v as [z | x]; cbn [scalar_finite]; intros Hv;
    unfold scalar_abs_error; cbn [fst snd scalar_sub scalar_abs scalar_float].
  - unfold int64_sub. rewrite Z.sub_diag. reflexivity.
  - rewrite sub_same by exact Hv. reflexivity.
Qed.

Lemma scalar_percentage_error_same (v : scalar) :
  scalar_finite v = true -> scalar_nonzero v = true ->
  is_zero (scalar_percentage_error (v, v)) = true.
Proof.
  intros Hv Hnz. unfold scalar_percentage_error.
  rewrite scalar_abs_error_same by exact Hv. cbn [snd].
  destruct v as [z | x]; cbn [scalar_float scalar_nonzero scalar_finite] in *.
  - apply negb_true_iff, Z.eqb_neq in Hnz.
    unfold F64.zero. rewrite (div_zero_nonzero _ _ _ (of_Z_shape z Hnz)).
    reflexivity.
  - destruct x as [[|] | s | | s m e]; try discriminate Hv;
      try (vm_compute in Hnz; discriminate Hnz).
    reflexivity.
Qed.

(** A set of floats that holds 0.0 and is closed under addition holds
    every sum numpy takes of its members. *)
Section Sum_closed.

Variable Q : float -> bool.
Hypothesis Q_add : forall x y, Q x = true -> Q y = true -> Q (F64.add x y) = true.
Hypothesis Q_zero : Q F64.zero = true.

Lemma forallb_take (n : nat) (l : list float) :
  forallb Q l = true -> forallb Q (take n l) = true.
Proof.
  revert n. induction l as [| x l IH]; intros [| n] H; try reflexivity.
  cbn in H |- *. apply andb_prop in H as [Hx Hl].
  rewrite Hx, (IH n Hl). reflexivity.
Qed.

Lemma forallb_drop (n : nat) (l : list float) :
  forallb Q l = true -> forallb Q (drop n l) = true.
Proof.
  revert n. induction l as [| x l IH]; intros [| n] H; try reflexivity;
    [exact H |].
  cbn in H |- *. apply andb_prop in H as [_ Hl]. exact (IH n Hl).
Qed.

Lemma fold_add_closed (l : list float) (acc : float) :
  Q acc = true -> forallb Q l = true -> Q (fold_left F64.add l acc) = true.
Proof.
  revert acc. induction l as [| x l IH]; intros acc Hacc Hl; [exact Hacc |].
  cbn [forallb] in Hl. apply andb_prop in Hl as [Hx Hl].
  cbn [fold_left]. apply IH; [apply Q_add; assumption | exact Hl].
Qed.

Lemma zip_with_add_closed (r g : list float) :
  forallb Q r = true -> forallb Q g = true ->
  forallb Q (zip_with F64.add r g) = true.
Proof.
  revert g. induction r as [| x r IH]; intros [| y g] Hr Hg; try reflexivity.
  cbn in Hr, Hg |- *.
  apply andb_prop in Hr as [Hx Hr]. apply andb_prop in Hg as [Hy Hg].
  rewrite (Q_add x y Hx Hy), (IH g Hr Hg). reflexivity.
Qed.

Lemma add_groups_closed (k : nat) :
  forall r rest : list float,
    forallb Q r = true -> forallb Q rest = true ->
    forallb Q (fst (add_groups k r rest)) = true /\
    forallb Q (snd (add_groups k r rest)) = true.
Proof.
  induction k as [| k IH]; intros r rest Hr Hrest; [split; assumption |].
  cbn [add_groups]. apply IH.
  - apply zip_with_add_closed; [exact Hr | apply forallb_take; exact Hrest].
  - apply forallb_drop. exact Hrest.
Qed.

Lemma sum_tree8_closed (r : list float) :
  forallb Q r = true -> Q (sum_tree8 r) = true.
Proof.
  destruct r as [| r0 [| r1 [| r2 [| r3 [| r4 [| r5 [| r6 [| r7 [| r8 r]]]]]]]]];
    try (intros _; exact Q_zero).
  cbn [forallb sum_tree8]. intros H.
  repeat (apply andb_prop in H as [? H]).
  repeat apply Q_add; assumption.
Qed.

Lemma unrolled_sum_closed (l : list float) :
  forallb Q l = true -> Q (unrolled_sum l) = true.
Proof.
  intros Hl. unfold unrolled_sum.
  destruct (add_groups_closed (length l / 8 - 1) (take 8 l) (drop 8 l)
              (forallb_take 8 l Hl) (forallb_drop 8 l Hl)) as [Hr Hrest].
  destruct (add_groups _ _ _) as [r rest]. cbn [fst snd] in Hr, Hrest.
  apply fold_add_closed; [apply sum_tree8_closed; exact Hr | exact Hrest].
Qed.

Lemma pairwise_sum_closed (depth : nat) :
  forall l : list float, forallb Q l = true -> Q (pairwise_sum depth l) = true.
Proof.
  induction depth as [| d IH]; intros l Hl; cbn [pairwise_sum];
    destruct (length l <? 8)%nat;
    try (apply fold_add_closed; [exact Q_zero | exact Hl]);
    destruct (length l <=? 128)%nat;
    try (apply unrolled_sum_closed; exact Hl).
  apply Q_add; apply IH; [apply forallb_take | apply forallb_drop]; exact Hl.
Qed.



End Sum_closed.

Lemma add_is_zero (x y : float) :
  is_zero x = true -> is_zero y = true -> is_zero (F64.add x y) = true.
Proof.
  destruct x as [sx | | |], y as [sy | | |]; try discriminate.
  destruct sx, sy; reflexivity.
Qed.

Lemma add_zero_is_zero (x : float) :
  is_zero x = true -> F64.add F64.zero x = F64.zero.
Proof. destruct x as [[|] | | |]; try discriminate; reflexivity. Qed.

Lemma buffered_sum_zeros (l : list float) :
  forallb is_zero l = true -> buffered_sum l = F64.zero.
Proof.
  unfold buffered_sum. generalize (length l) as fuel. intros fuel. revert l.
  induction fuel as [| fuel IH]; intros l Hl; destruct l as [| x l];
    try reflexivity.
  cbn [buffered_sum_from].
  rewrite add_zero_is_zero
    by (apply (pairwise_sum_closed is_zero add_is_zero eq_refl),
          (forallb_take is_zero); exact Hl).
  apply IH. apply (forallb_drop is_zero). exact Hl.
Qed.

Lemma mean_zeros (l : list float) :
  l <> [] -> forallb is_zero l = true -> mean l = F64.zero.
Proof.
  intros Hne Hl.
  assert (Z.of_nat (length l) <> 0) as Hn by (destruct l; [congruence | cbn; lia]).
  assert (F64.div F64.zero (F64.of_Z (Z.of_nat (length l))) = F64.zero) as Hdiv.
  { unfold F64.zero at 1. rewrite (div_zero_nonzero _ _ _ (of_Z_shape _ Hn)).
    destruct (Z.ltb_spec (Z.of_nat (length l)) 0); [lia | reflexivity]. }
  unfold mean. rewrite buffered_sum_zeros by exact Hl. exact Hdiv.
Qed.

Lemma zip_diag {A : Type} (l : list A) : zip l l = map (fun v => (v, v)) l.
Proof. induction l as [| x l IH]; [reflexivity |]. cbn. rewrite <- IH. reflexivity. Qed.

Lemma forallb_map {A B : Type} (f : A -> B) (P : B -> bool) (l : list A) :
  forallb P (map f l) = forallb (fun x => P (f x)) l.
Proof. induction l as [| x l IH]; [reflexivity |]. cbn. rewrite IH. reflexivity. Qed.

Lemma forallb_impl {A : Type} (P Q : A -> bool) (l : list A) :
  (forall x, P x = true -> Q x = true) ->
  forallb P l = true -> forallb Q l = true.
Proof.
  intros HPQ. induction l as [| x l IH]; [reflexivity |]. cbn.
  intros H. apply andb_prop in H as [Hx Hl].
  rewrite (HPQ x Hx), (IH Hl). reflexivity.
Qed.

Lemma forallb_filter_impl {A : Type} (P Q R : A -> bool) (l : list A) :
  (forall x, P x = true -> Q x = true -> R x = true) ->
  forallb P l = true -> forallb R (List.filter Q l) = true.
Proof.
  intros H. induction l as [| x l IH]; [reflexivity |]. cbn.
  intros Hl. apply andb_prop in Hl as [Hx Hl].
  destruct (Q x) eqn:HQ; [| exact (IH Hl)].
  cbn. rewrite (H x Hx HQ), (IH Hl). reflexivity.
Qed.

Lemma filter_map_diag {A : Type} (Q : A * A -> bool) (l : list A) :
  List.filter Q (map (fun v => (v, v)) l) =
  map (fun v => (v, v)) (List.filter (fun v => Q (v, v)) l).
Proof.
  induction l as [| x l IH]; [reflexivity |]. cbn.
  destruct (Q (x, x)); cbn; rewrite IH; reflexivity.
Qed.

Lemma entrywise_same (P : ndarray) :
  items P <> [] -> forallb scalar_finite (items P) = true ->
  entrywise_MAE P P = F64.zero /\ entrywise_MAPE P P = F64.zero.
Proof.
  intros Hne Hfin. unfold entrywise_MAE, entrywise_MAPE.
  rewrite zip_diag. split.
  - apply mean_zeros.
    + destruct (items P); [congruence | discriminate].
    + rewrite !forallb_map.
      eapply forallb_impl; [| exact Hfin].
      intros v Hv. rewrite scalar_abs_error_same by exact Hv. reflexivity.
  - assert (forallb (fun pa => is_zero (scalar_percentage_error pa))
              (List.filter (fun pa : scalar * scalar => scalar_nonzero pa.2)
                 (map (fun v => (v, v)) (items P))) = true) as Hz.
    { rewrite filter_map_diag, forallb_map.
      eapply forallb_filter_impl; [| exact Hfin].
      intros v Hv Hnz. exact (scalar_percentage_error_same v Hv Hnz). }
    destruct (List.filter _ _) as [| pa sample] eqn:Hf; [reflexivity |].
    rewrite mean_zeros; [reflexivity | discriminate |].
    rewrite forallb_map. exact Hz.
Qed.

Lemma np_array_finite (l : list pynum) :
  forallb pynum_finite l = true ->
  exists P, np_array l = Returns P /\ forallb scalar_finite (items P) = true.
Proof.
  intros Hl. unfold np_array.
  assert (forallb pynum_in_int64 l = true) as ->.
  { eapply forallb_impl; [| exact Hl]. intros [z | x]; cbn; auto. }
  cbn [negb].
  destruct l as [| v l]; [eexists; split; reflexivity |].
  destruct (forallb is_PyInt (v :: l)); eexists; (split; [reflexivity |]);
    cbn [items]; rewrite !forallb_map; [apply forallb_forall; reflexivity |].
  eapply forallb_impl; [| exact Hl].
  intros [z | x]; cbn [pynum_finite pynum_float scalar_finite]; [| auto].
  apply in_int64_finite.
Qed.

(** X5. A forecast that equals the observations has no error: for a
    non-empty list of ints of the 64-bit range and finite floats,
    [calculate_error(l, l)] returns an MAE and an MAPE that are both zero,
    whatever the signs and sizes of the entries (no division by a zero
    actual value, no NaN). *)
Theorem calculate_error_perfect_forecast (l : list pynum) :
  l <> [] -> forallb pynum_finite l = true ->
  exists mae mape : float,
    calculate_error l l = Returns (mae, mape) /\
    is_zero mae = true /\ is_zero mape = true.
Proof.
  intros Hne Hl.
  destruct (np_array_finite l Hl) as (P & HP & Hfin).
  rewrite (calculate_error_equal_length l l P P HP HP eq_refl).
  assert (items P <> []) as HneP.
  { pose proof (np_array_len _ _ HP) as Hlen. rewrite np_len_items in Hlen.
    destruct (items P); [destruct l; [congruence | discriminate] | discriminate]. }
  destruct (entrywise_same P HneP Hfin) as [-> ->].
  exists F64.zero, F64.zero. repeat split; reflexivity.
Qed.

Lemma calculate_error_perfect_forecast_witness :
  exists mae mape : float,
    calculate_error [PyInt 30; PyFloat f_1_5; PyInt (-4); PyInt 0]
                    [PyInt 30; PyFloat f_1_5; PyInt (-4); PyInt 0]
    = Returns (mae, mape) /\
    is_zero mae = true /\ is_zero mape = true.
Proof.
  apply (calculate_error_perfect_forecast
           [PyInt 30; PyFloat f_1_5; PyInt (-4); PyInt 0]);
    [discriminate | reflexivity].
Defined.

(** ** Lists of different lengths *)






(** * The event-logging page *)

Lemma log_event_events (file : database) (today cow_id event_type details : string) :
  events (log_event file today cow_id event_type details) =
    events file ++ [{| event_id := event_seq file + 1; event_cow_id := cow_id;
                       event_type := event_type; event_date := today;
                       details := details |}] /\
  event_seq (log_event file today cow_id event_type details) = event_seq file + 1.
Proof.
  unfold log_event. cbn. destruct (is_exit_event event_type); split; reflexivity.
Qed.

Lemma add_new_cow_fresh (file : database) (cow_id sex birth_date : string)
    (mother_id : option string) (breed : string) :
  cows file !! cow_id = None ->
  add_new_cow file cow_id sex birth_date mother_id breed =
  (Returns true,
   {| cows := <[cow_id := {| sex := sex; birth_date := birth_date;
                             status := "Active"; mother_id := mother_id;
                             breed := breed |}]> (cows file);
      events := events file; event_seq := event_seq file |}).
Proof.
  intros H. unfold add_new_cow, insert_cow, get_db_connection. cbn [pending stored].
  rewrite H. reflexivity.
Qed.

Lemma add_new_cow_taken (file : database) (cow_id sex birth_date : string)
    (mother_id : option string) (breed : string) :
  is_Some (cows file !! cow_id) ->
  add_new_cow file cow_id sex birth_date mother_id breed = (Returns false, file).
Proof.
  intros [row H]. unfold add_new_cow, insert_cow, get_db_connection.
  cbn [pending stored]. rewrite H. reflexivity.
Qed.

Lemma new_birth_form_cases (file : database)
    (today calf_id calf_sex birth_date mother_id breed : string) :
  new_birth_form file today calf_id calf_sex birth_date mother_id breed =
  if bool_decide (calf_id = EmptyString) then (Returns CalfIdRequired, file)
  else match cows file !! calf_id with
       | Some _ => (Returns IdExists, file)
       | None =>
           (Returns BirthLogged,
            {| cows := <[calf_id := {| sex := calf_sex; birth_date := birth_date;
                                       status := "Active";
                                       mother_id := Some mother_id;
                                       breed := breed |}]> (cows file);
               events := events file ++
                 [{| event_id := event_seq file + 1; event_cow_id := calf_id;
                     event_type := "Birth"; event_date := today;
                     details := birth_details calf_sex breed |}];
               event_seq := event_seq file + 1 |})
       end.
Proof.
  destruct calf_id as [| c calf_id]; [reflexivity |].
  rewrite bool_decide_eq_false_2 by discriminate.
  cbn [new_birth_form].
  destruct (cows file !! String c calf_id) as [row |] eqn:Hrow.
  - rewrite add_new_cow_taken by (rewrite Hrow; eexists; reflexivity).
    reflexivity.
  - rewrite add_new_cow_fresh by exact Hrow. reflexivity.
Qed.

Lemma filter_none {A : Type} (f : A -> bool) (l : list A) :
  (forall x, x ∈ l -> f x = false) -> List.filter f l = [].
Proof.
  induction l as [| x l IH]; [reflexivity |]. intros H. cbn.
  rewrite (H x) by left. apply IH. intros y Hy. apply H. right. exact Hy.
Qed.

Lemma filter_snoc {A : Type} (f : A -> bool) (l : list A) (x : A) :
  List.filter f (l ++ [x]) = List.filter f l ++ (if f x then [x] else []).
Proof. rewrite List.filter_app. reflexivity. Qed.

Lemma filter_elem {A : Type} (f : A -> bool) (l : list A) (x : A) :
  x ∈ List.filter f l -> x ∈ l /\ f x = true.
Proof.
  rewrite !list_elem_of_In. intros H. apply List.filter_In in H. exact H.
Qed.

Lemma is_exit_event_options (event_type : string) :
  event_type ∈ exit_type_options -> is_exit_event event_type = true.
Proof.
  unfold exit_type_options. rewrite !elem_of_cons, elem_of_nil.
  intros [-> | [-> | []]]; reflexivity.
Qed.

(** No event is about a cow that is not in the table. *)
Lemma consistent_absent (db : database) (cow_id : string) :
  consistent db -> cows db !! cow_id = None ->
  forall ev, ev ∈ events db -> about cow_id ev = false.
Proof.
  intros Hc Hnone ev Hev. unfold about.
  apply bool_decide_eq_false_2. intros Heq.
  destruct (consistent_cow db Hc ev Hev) as [row Hrow].
  rewrite Heq, Hnone in Hrow. discriminate.
Qed.

Lemma consistent_snoc_seq (db : database) (ev : event_row) (evs : list event_row)
    (seq : Z) :
  consistent db -> evs = events db ++ [ev] -> seq = event_seq db + 1 ->
  event_id ev = event_seq db + 1 ->
  seq = Z.of_nat (length evs) /\
  forall (i : nat) (ev' : event_row),
    evs !! i = Some ev' -> event_id ev' = Z.of_nat i + 1.
Proof.
  intros Hc -> -> Hid. pose proof (consistent_seq db Hc) as Hseq. split.
  - rewrite length_app. cbn [length]. lia.
  - intros i ev' Hi.
    destruct (lookup_app_Some (events db) [ev] i ev') as [H _].
    destruct (H Hi) as [Hold | [Hlen Hnew]].
    + exact (consistent_ids db Hc i ev' Hold).
    + destruct (i - length (events db))%nat as [| k] eqn:Hk; [| discriminate Hnew].
      cbn in Hnew. inversion Hnew; subst ev'. rewrite Hid, Hseq. lia.
Qed.

Lemma consistent_empty : consistent empty_database.
Proof.
  split; cbn.
  - reflexivity.
  - intros i ev H. rewrite lookup_nil in H. discriminate.
  - intros ev H. apply elem_of_nil in H. contradiction.
  - intros id row H. rewrite lookup_empty in H. discriminate.
  - intros id row H. rewrite lookup_empty in H. discriminate.
Qed.

Lemma consistent_birth (db : database)
    (today calf_id calf_sex birth_date mother_id breed : string) :
  consistent db ->
  consistent (snd (new_birth_form db today calf_id calf_sex birth_date mother_id breed)).
Proof.
  intros Hc. rewrite new_birth_form_cases.
  destruct (bool_decide (calf_id = EmptyString)); [exact Hc |].
  destruct (cows db !! calf_id) as [row0 |] eqn:Hrow0; [exact Hc |].
  cbn [snd].
  pose proof (consistent_absent db calf_id Hc Hrow0) as Habs.
  set (ev := {| event_id := event_seq db + 1; event_cow_id := calf_id;
                event_type := "Birth"; event_date := today;
                details := birth_details calf_sex breed |}).
  destruct (consistent_snoc_seq db ev (events db ++ [ev]) (event_seq db + 1) Hc
              eq_refl eq_refl eq_refl) as [Hseq Hids].
  split; cbn [cows events event_seq].
  - exact Hseq.
  - exact Hids.
  - intros ev' Hev'. apply elem_of_app in Hev' as [Hold | Hnew].
    + apply lookup_insert_is_Some'. right. exact (consistent_cow db Hc ev' Hold).
    + apply list_elem_of_singleton in Hnew. subst ev'. cbn [event_cow_id ev].
      rewrite lookup_insert_eq. eexists; reflexivity.
  - intros id row Hrow. unfold birth_events. cbn [events].
    rewrite filter_snoc, length_app.
    destruct (decide (id = calf_id)) as [-> | Hne].
    + rewrite filter_none
        by (intros x Hx; rewrite (Habs x Hx); reflexivity).
      unfold about. cbn [ev event_cow_id event_type].
      rewrite !bool_decide_eq_true_2 by reflexivity. reflexivity.
    + rewrite lookup_insert_ne in Hrow by congruence.
      fold (birth_events db id). rewrite (consistent_births db Hc id row Hrow).
      unfold about. cbn [ev event_cow_id].
      rewrite bool_decide_eq_false_2 by congruence. reflexivity.
  - intros id row Hrow. unfold exit_events. cbn [events].
    rewrite filter_snoc.
    replace (about id ev && is_exit_event (event_type ev)) with false
      by (rewrite andb_comm; reflexivity).
    rewrite app_nil_r. fold (exit_events db id).
    destruct (decide (id = calf_id)) as [-> | Hne].
    + rewrite lookup_insert_eq in Hrow. inversion Hrow; subst row.
      unfold exit_events. rewrite filter_none
        by (intros x Hx; rewrite (Habs x Hx); reflexivity).
      reflexivity.
    + rewrite lookup_insert_ne in Hrow by congruence.
      exact (consistent_status db Hc id row Hrow).
Qed.

Lemma cull_form_Some (db db' : database) (today exit_type cow_id details : string) :
  cull_form db today exit_type cow_id details = Some db' ->
  exit_type ∈ exit_type_options /\
  (exists row, cows db !! cow_id = Some row /\ status row = "Active"%string) /\
  db' = log_event db today cow_id exit_type details.
Proof.
  unfold cull_form, is_active.
  destruct (bool_decide (exit_type ∈ exit_type_options)) eqn:Hopt;
    [| discriminate].
  apply bool_decide_eq_true_1 in Hopt.
  destruct (cows db !! cow_id) as [row |]; [| discriminate].
  destruct (bool_decide (status row = "Active"%string)) eqn:Hact; [| discriminate].
  apply bool_decide_eq_true_1 in Hact. cbn [andb].
  intros H. inversion H. split; [exact Hopt |]. split; [| reflexivity].
  exists row. split; [reflexivity | exact Hact].
Qed.

Lemma exit_event_not_active (ev : event_row) (l : list event_row) (f : event_row -> bool) :
  (forall x, f x = true -> is_exit_event (event_type x) = true) ->
  List.filter f l = [ev] -> event_type ev <> "Active"%string.
Proof.
  intros Hf Hl Heq.
  assert (ev ∈ List.filter f l) as Hin by (rewrite Hl; left).
  apply filter_elem in Hin as [_ Hin]. apply Hf in Hin.
  rewrite Heq in Hin. discriminate.
Qed.

Lemma consistent_cull (db db' : database) (today exit_type cow_id details : string) :
  consistent db ->
  cull_form db today exit_type cow_id details = Some db' ->
  consistent db'.
Proof.
  intros Hc H. apply cull_form_Some in H as (Hopt & (row0 & Hrow0 & Hact) & ->).
  pose proof (is_exit_event_options exit_type Hopt) as Hexit.
  destruct (log_event_events db today cow_id exit_type details) as [Hev Hsq].
  pose proof (log_event_cows db today cow_id exit_type details) as Hcows.
  rewrite Hexit in Hcows.
  set (ev := {| event_id := event_seq db + 1; event_cow_id := cow_id;
                event_type := exit_type; event_date := today;
                details := details |}) in *.
  destruct (consistent_snoc_seq db ev _ _ Hc Hev Hsq eq_refl) as [Hseq Hids].
  assert (bool_decide (exit_type = "Birth"%string) = false) as Hnb.
  { apply bool_decide_eq_false_2. intros ->. discriminate Hexit. }
  split.
  - exact Hseq.
  - exact Hids.
  - intros ev' Hev'. rewrite Hev in Hev'. rewrite Hcows.
    apply elem_of_app in Hev' as [Hold | Hnew].
    + destruct (consistent_cow db Hc ev' Hold) as [row Hrow].
      destruct (decide (event_cow_id ev' = cow_id)) as [Heq | Hne].
      * rewrite Heq, lookup_alter_eq, Hrow0. eexists; reflexivity.
      * rewrite lookup_alter_ne by congruence. rewrite Hrow. eexists; reflexivity.
    + apply list_elem_of_singleton in Hnew. subst ev'. cbn [event_cow_id ev].
      rewrite lookup_alter_eq, Hrow0. eexists; reflexivity.
  - intros id row Hrow. rewrite Hcows in Hrow.
    unfold birth_events. rewrite Hev, filter_snoc.
    cbn [ev event_type]. rewrite Hnb, andb_false_r, app_nil_r.
    fold (birth_events db id).
    destruct (decide (id = cow_id)) as [-> | Hne].
    + exact (consistent_births db Hc cow_id row0 Hrow0).
    + rewrite lookup_alter_ne in Hrow by congruence.
      exact (consistent_births db Hc id row Hrow).
  - intros id row Hrow. rewrite Hcows in Hrow.
    unfold exit_events. rewrite Hev, filter_snoc.
    fold (exit_events db id). cbn [ev event_type]. rewrite Hexit, andb_true_r.
    unfold about. cbn [ev event_cow_id].
    destruct (decide (id = cow_id)) as [-> | Hne].
    + rewrite bool_decide_eq_true_2 by reflexivity.
      rewrite lookup_alter_eq, Hrow0 in Hrow. inversion Hrow; subst row.
      pose proof (consistent_status db Hc cow_id row0 Hrow0) as Hst.
      destruct (exit_events db cow_id) as [| ev0 [| ev1 evs]] eqn:Hex;
        [reflexivity | | contradiction].
      exfalso. cbv beta iota in Hst. unfold exit_events in Hex.
      apply exit_event_not_active in Hex;
        [apply Hex; rewrite <- Hst; exact Hact |].
      intros x Hx. apply andb_prop in Hx as [_ Hx]. exact Hx.
    + rewrite bool_decide_eq_false_2 by congruence. rewrite app_nil_r.
      rewrite lookup_alter_ne in Hrow by congruence.
      exact (consistent_status db Hc id row Hrow).
Qed.

Lemma reachable_consistent (db : database) : reachable db -> consistent db.
Proof.
  induction 1 as [| db db' _ IH Hstep]; [exact consistent_empty |].
  destruct Hstep as [file today calf_id calf_sex birth_date mother_id breed
                    | file file' today exit_type cow_id details Hcull].
  - apply consistent_birth. exact IH.
  - exact (consistent_cull file file' today exit_type cow_id details IH Hcull).
Qed.

Lemma logged_herd_reachable : reachable logged_herd.
Proof.
  apply (reachable_step two_calves).
  - apply reachable_step with
      (db := snd (new_birth_form (initialize_db None) "2024-03-02" "UEMBU-001"
                    "Female" "2024-03-01" EmptyString "Boran")).
    + apply (reachable_step (initialize_db None)); [apply reachable_new |].
      apply birth_submitted.
    + apply birth_submitted.
  - apply (cull_submitted two_calves logged_herd "2025-01-20" "Sale" "UEMBU-002"
             "Sold at market").
    vm_compute. reflexivity.
Defined.

(** X7. Whatever is submitted through the two forms, starting from a new
    database file, the status of every cow is ['Active'], ['Death'] or
    ['Sale']. *)
Theorem reachable_status_values (db : database) (cow_id : string) (row : cow_row) :
  reachable db -> cows db !! cow_id = Some row ->
  status row ∈ ["Active"; "Death"; "Sale"]%string.
Proof.
  intros Hr Hrow. apply reachable_consistent in Hr.
  pose proof (consistent_status db Hr cow_id row Hrow) as Hst.
  destruct (exit_events db cow_id) as [| ev [| ev' evs]] eqn:Hex;
    cbv beta iota in Hst; [| | contradiction].
  - rewrite Hst. left.
  - assert (ev ∈ exit_events db cow_id) as Hin by (rewrite Hex; left).
    apply filter_elem in Hin as [_ Hin]. apply andb_prop in Hin as [_ Hin].
    rewrite Hst. unfold is_exit_event in Hin.
    apply orb_prop in Hin as [Hin | Hin]; apply bool_decide_eq_true_1 in Hin;
      rewrite Hin.
    + right. left.
    + right. right. left.
Qed.

Lemma reachable_status_values_witness :
  status {| sex := "Male"; birth_date := "2024-04-10"; status := "Sale";
            mother_id := Some "UEMBU-001"%string; breed := "Boran" |}
    ∈ ["Active"; "Death"; "Sale"]%string.
Proof.
  apply (reachable_status_values logged_herd "UEMBU-002");
    [exact logged_herd_reachable | vm_compute; reflexivity].
Defined.

(** X8. The events logged through the forms are numbered 1, 2, 3, ... in
    the order they were logged, and the AUTOINCREMENT counter equals the
    number of events. *)
Theorem reachable_event_ids (db : database) :
  reachable db ->
  event_seq db = Z.of_nat (length (events db)) /\
  forall (i : nat) (ev : event_row),
    events db !! i = Some ev -> event_id ev = Z.of_nat i + 1.
Proof.
  intros Hr. apply reachable_consistent in Hr.
  split; [exact (consistent_seq db Hr) | exact (consistent_ids db Hr)].
Qed.

Lemma reachable_event_ids_witness :
  event_seq logged_herd = Z.of_nat (length (events logged_herd)) /\
  forall (i : nat) (ev : event_row),
    events logged_herd !! i = Some ev -> event_id ev = Z.of_nat i + 1.
Proof. apply (reachable_event_ids logged_herd). exact logged_herd_reachable. Defined.

(** X9. Foreign keys are not enforced by the connection, yet every event
    logged through the forms names a cow of the [cows] table. *)
Theorem reachable_events_name_cows (db : database) (ev : event_row) :
  reachable db -> ev ∈ events db -> is_Some (cows db !! event_cow_id ev).
Proof.
  intros Hr. apply reachable_consistent in Hr. exact (consistent_cow db Hr ev).
Qed.

Lemma reachable_events_name_cows_witness :
  is_Some (cows logged_herd !! event_cow_id
             {| event_id := 3; event_cow_id := "UEMBU-002"; event_type := "Sale";
                event_date := "2025-01-20"; details := "Sold at market" |}).
Proof.
  apply (reachable_events_name_cows logged_herd);
    [exact logged_herd_reachable | vm_compute].
  right. right. left.
Defined.

(** X10. The status of a cow and the event log agree. Every cow has
    exactly one [Birth] event; it is ['Active'] exactly when no exit event
    is logged for it; and a cow that is not active has exactly one exit
    event, whose type is its status. *)
Theorem reachable_status_matches_events (db : database) (cow_id : string)
    (row : cow_row) :
  reachable db -> cows db !! cow_id = Some row ->
  length (birth_events db cow_id) = 1%nat /\
  (status row = "Active"%string <-> exit_events db cow_id = []) /\
  (status row <> "Active"%string ->
   exists ev, exit_events db cow_id = [ev] /\ event_type ev = status row).
Proof.
  intros Hr Hrow. apply reachable_consistent in Hr.
  split; [exact (consistent_births db Hr cow_id row Hrow) |].
  pose proof (consistent_status db Hr cow_id row Hrow) as Hst.
  destruct (exit_events db cow_id) as [| ev [| ev' evs]] eqn:Hex;
    cbv beta iota in Hst; [| | contradiction].
  - split; [split; [reflexivity | intros _; exact Hst] |].
    intros Hna. contradiction.
  - assert (event_type ev <> "Active"%string) as Hna.
    { unfold exit_events in Hex. apply exit_event_not_active in Hex; [exact Hex |].
      intros x Hx. apply andb_prop in Hx as [_ Hx]. exact Hx. }
    split; [split; [| discriminate] |].
    + intros Hact. rewrite Hst in Hact. contradiction.
    + intros _. exists ev. split; [reflexivity | symmetry; exact Hst].
Qed.

Lemma reachable_status_matches_events_witness :
  length (birth_events logged_herd "UEMBU-002") = 1%nat /\
  (status {| sex := "Male"; birth_date := "2024-04-10"; status := "Sale";
             mother_id := Some "UEMBU-001"%string; breed := "Boran" |}
     = "Active"%string
   <-> exit_events logged_herd "UEMBU-002" = []) /\
  (status {| sex := "Male"; birth_date := "2024-04-10"; status := "Sale";
             mother_id := Some "UEMBU-001"%string; breed := "Boran" |}
     <> "Active"%string ->
   exists ev, exit_events logged_herd "UEMBU-002" = [ev] /\
     event_type ev =
       status {| sex := "Male"; birth_date := "2024-04-10"; status := "Sale";
                 mother_id := Some "UEMBU-001"%string; breed := "Boran" |}).
Proof.
  apply (reachable_status_matches_events logged_herd "UEMBU-002");
    [exact logged_herd_reachable | vm_compute; reflexivity].
Defined.

(** X11. [log_event] does not check that the cow exists: for an id that
    is not in the [cows] table it still stores the event, with the next
    event id and today's date, and leaves the [cows] table as it was, so
    that the log then holds an event about no cow. *)
Theorem log_event_unknown_cow (file : database)
    (today cow_id event_type details : string) :
  cows file !! cow_id = None ->
  cows (log_event file today cow_id event_type details) = cows file /\
  events (log_event file today cow_id event_type details) =
    events file ++ [{| event_id := event_seq file + 1; event_cow_id := cow_id;
                       event_type := event_type; event_date := today;
                       details := details |}] /\
  ~ consistent (log_event file today cow_id event_type details).
Proof.
  intros Hnone.
  destruct (log_event_events file today cow_id event_type details) as [Hev _].
  assert (cows (log_event file today cow_id event_type details) = cows file)
    as Hcows.
  { rewrite log_event_cows. destruct (is_exit_event event_type); [| reflexivity].
    apply map_eq. intros k. destruct (decide (k = cow_id)) as [-> | Hne].
    - rewrite lookup_alter_eq, Hnone. reflexivity.
    - apply lookup_alter_ne. congruence. }
  split; [exact Hcows |]. split; [exact Hev |].
  intros Hc.
  destruct (consistent_cow _ Hc
              {| event_id := event_seq file + 1; event_cow_id := cow_id;
                 event_type := event_type; event_date := today;
                 details := details |}) as [row Hrow].
  - rewrite Hev. apply elem_of_app. right. left.
  - cbn [event_cow_id] in Hrow. rewrite Hcows, Hnone in Hrow. discriminate.
Qed.

Lemma log_event_unknown_cow_witness :
  cows (log_event herd_of_one "2024-05-17" "UEMBU-404" "Death" "Unknown") =
    cows herd_of_one /\
  events (log_event herd_of_one "2024-05-17" "UEMBU-404" "Death" "Unknown") =
    events herd_of_one ++
      [{| event_id := event_seq herd_of_one + 1; event_cow_id := "UEMBU-404";
          event_type := "Death"; event_date := "2024-05-17";
          details := "Unknown" |}] /\
  ~ consistent (log_event herd_of_one "2024-05-17" "UEMBU-404" "Death" "Unknown").
Proof.
  apply (log_event_unknown_cow herd_of_one "2024-05-17" "UEMBU-404" "Death"
           "Unknown").
  vm_compute. reflexivity.
Defined.

Lemma app_step_rows (db db' : database) (cow_id : string) (row : cow_row) :
  app_step db db' -> cows db !! cow_id = Some row ->
  cows db' !! cow_id =
    Some (if bool_decide (status row = "Active"%string)
          then match cows db' !! cow_id with
               | Some row' => set_status (status row') row
               | None => row
               end
          else row).
Proof.
  intros Hstep Hrow.
  destruct Hstep as [file today calf_id calf_sex birth_date mother_id breed
                    | file file' today exit_type id details Hcull].
  - assert (cows (snd (new_birth_form file today calf_id calf_sex birth_date
                         mother_id breed)) !! cow_id = Some row) as H.
    { rewrite new_birth_form_cases.
      destruct (bool_decide (calf_id = EmptyString)); [exact Hrow |].
      destruct (cows file !! calf_id) as [row0 |] eqn:Hrow0; [exact Hrow |].
      cbn [snd cows]. rewrite lookup_insert_ne by congruence. exact Hrow. }
    rewrite H. destruct row; destruct (bool_decide _); reflexivity.
  - apply cull_form_Some in Hcull as (Hopt & (row0 & Hrow0 & Hact) & ->).
    rewrite log_event_cows, (is_exit_event_options exit_type Hopt).
    destruct (decide (cow_id = id)) as [-> | Hne].
    + rewrite lookup_alter_eq, Hrow. rewrite Hrow0 in Hrow.
      inversion Hrow; subst row0.
      rewrite bool_decide_eq_true_2 by exact Hact. reflexivity.
    + rewrite lookup_alter_ne by congruence. rewrite Hrow.
      destruct row; destruct (bool_decide _); reflexivity.
Qed.

(** X12. Submissions never remove a cow and never change its sex, birth
    date, mother or breed: only its status can change. A cow whose status
    is no longer ['Active'] keeps its row unchanged for ever: an exit
    cannot be undone or logged a second time through the forms. *)
Theorem app_steps_rows (db db' : database) (cow_id : string) (row : cow_row) :
  app_steps db db' -> cows db !! cow_id = Some row ->
  exists row',
    cows db' !! cow_id = Some row' /\
    row' = set_status (status row') row /\
    (status row <> "Active"%string -> row' = row).
Proof.
  intros Hsteps. revert row.
  induction Hsteps as [db | db db1 db2 Hstep _ IH]; intros row Hrow.
  - exists row. split; [exact Hrow |]. split; [destruct row; reflexivity | reflexivity].
  - pose proof (app_step_rows db db1 cow_id row Hstep Hrow) as H1.
    destruct (cows db1 !! cow_id) as [row1 |] eqn:Hrow1; [| discriminate H1].
    destruct (IH row1 eq_refl) as (row' & Hrow' & Hfields & Hexit).
    exists row'. split; [exact Hrow' |].
    inversion H1 as [Heq]; clear H1.
    destruct (bool_decide (status row = "Active"%string)) eqn:Hact.
    + split.
      * rewrite Hfields, Heq. destruct row; reflexivity.
      * apply bool_decide_eq_true_1 in Hact. intros Hna. contradiction.
    + subst row1. split; [exact Hfields |].
      intros Hna. exact (Hexit Hna).
Qed.

Lemma app_steps_rows_witness :
  exists row',
    cows (snd (new_birth_form logged_herd "2025-02-01" "UEMBU-002" "Female"
                 "2025-01-31" "UEMBU-001" "Boran")) !! "UEMBU-002"%string
      = Some row' /\
    row' = set_status (status row')
             {| sex := "Male"; birth_date := "2024-04-10"; status := "Sale";
                mother_id := Some "UEMBU-001"%string; breed := "Boran" |} /\
    (status {| sex := "Male"; birth_date := "2024-04-10"; status := "Sale";
               mother_id := Some "UEMBU-001"%string; breed := "Boran" |}
       <> "Active"%string ->
     row' = {| sex := "Male"; birth_date := "2024-04-10"; status := "Sale";
               mother_id := Some "UEMBU-001"%string; breed := "Boran" |}).
Proof.
  apply (app_steps_rows logged_herd).
  - eapply app_steps_more; [apply birth_submitted | apply app_steps_none].
  - vm_compute. reflexivity.
Defined.

(** X13. A submission of the birth form either writes nothing (an empty
    calf id, or an id that is already in the table, each with its own
    message) or adds exactly one cow, ['Active'] and with the mother id as
    typed, together with exactly one [Birth] event for it. *)
Theorem new_birth_form_effect (file : database)
    (today calf_id calf_sex birth_date mother_id breed : string) :
  (calf_id = EmptyString ->
   new_birth_form file today calf_id calf_sex birth_date mother_id breed =
     (Returns CalfIdRequired, file)) /\
  (calf_id <> EmptyString -> is_Some (cows file !! calf_id) ->
   new_birth_form file today calf_id calf_sex birth_date mother_id breed =
     (Returns IdExists, file)) /\
  (calf_id <> EmptyString -> cows file !! calf_id = None ->
   new_birth_form file today calf_id calf_sex birth_date mother_id breed =
     (Returns BirthLogged,
      {| cows := <[calf_id := {| sex := calf_sex; birth_date := birth_date;
                                 status := "Active";
                                 mother_id := Some mother_id;
                                 breed := breed |}]> (cows file);
         events := events file ++
           [{| event_id := event_seq file + 1; event_cow_id := calf_id;
               event_type := "Birth"; event_date := today;
               details := "Sex: " +:+ calf_sex +:+ ", Breed: " +:+ breed |}];
         event_seq := event_seq file + 1 |})).
Proof.
  rewrite new_birth_form_cases. split; [| split].
  - intros ->. reflexivity.
  - intros Hne [row Hrow]. rewrite bool_decide_eq_false_2 by exact Hne.
    rewrite Hrow. reflexivity.
  - intros Hne Hnone. rewrite bool_decide_eq_false_2 by exact Hne.
    rewrite Hnone. reflexivity.
Qed.

Lemma new_birth_form_effect_witness :
  new_birth_form herd_of_one "2024-06-02" "UEMBU-002" "Female" "2024-06-01"
    "UEMBU-001" "Boran" =
  (Returns BirthLogged,
   {| cows := <["UEMBU-002"%string :=
                  {| sex := "Female"; birth_date := "2024-06-01";
                     status := "Active"; mother_id := Some "UEMBU-001"%string;
                     breed := "Boran" |}]> (cows herd_of_one);
      events := events herd_of_one ++
        [{| event_id := event_seq herd_of_one + 1; event_cow_id := "UEMBU-002";
            event_type := "Birth"; event_date := "2024-06-02";
            details := "Sex: " +:+ "Female" +:+ ", Breed: " +:+ "Boran" |}];
      event_seq := event_seq herd_of_one + 1 |}).
Proof.
  apply (proj2 (proj2 (new_birth_form_effect herd_of_one "2024-06-02" "UEMBU-002"
                         "Female" "2024-06-01" "UEMBU-001" "Boran")));
    [discriminate | vm_compute; reflexivity].
Defined.

(** * The projections table *)

Lemma save_projection_cases (to_json : DataFrame -> string)
    (file : projections_table) (now : string)
    (B0 Y0 : Z) (C m : float) (proj_df : DataFrame) :
  save_projection to_json file now B0 Y0 C m proj_df =
  if in_int64 B0 && in_int64 Y0 then
    {| projections := projections file ++
         [{| proj_id := proj_seq file + 1; run_date := now;
             B0_start := B0; Y0_start := Y0;
             C_param := sqlite_real C; m_param := sqlite_real m;
             projection_data_json := to_json proj_df |}];
       proj_seq := proj_seq file + 1 |}
  else file.
Proof. unfold save_projection. destruct (in_int64 B0 && in_int64 Y0); reflexivity. Qed.

Lemma save_projection_wf (to_json : DataFrame -> string)
    (file : projections_table) (now : string)
    (B0 Y0 : Z) (C m : float) (proj_df : DataFrame) :
  projections_wf file -> proj_seq file + 1 < int64_max ->
  projections_wf (save_projection to_json file now B0 Y0 C m proj_df).
Proof.
  intros [Hseq Hwf] Hroom. rewrite save_projection_cases.
  destruct (in_int64 B0 && in_int64 Y0); [| split; assumption].
  split; cbn [projections proj_seq]; [lia |].
  intros r Hr.
  apply elem_of_app in Hr as [Hr | Hr].
  - specialize (Hwf r Hr). lia.
  - apply list_elem_of_singleton in Hr. subst r. cbn. lia.
Qed.

Lemma wf_next_id (file : projections_table) :
  projections_wf file -> in_int64 (proj_seq file + 1) = true.
Proof.
  intros [Hseq _]. unfold in_int64, int64_min, int64_max in *.
  apply andb_true_intro. split; apply Z.leb_le; lia.
Qed.

Lemma find_app_r {A : Type} (f : A -> bool) (l l' : list A) :
  List.find f l = None -> List.find f (l ++ l') = List.find f l'.
Proof.
  induction l as [| x l IH]; [reflexivity |]. cbn.
  destruct (f x); [discriminate | exact IH].
Qed.

Lemma find_app_l {A : Type} (f : A -> bool) (l l' : list A) (x : A) :
  List.find f l = Some x -> List.find f (l ++ l') = Some x.
Proof.
  induction l as [| y l IH]; [discriminate |]. cbn.
  destruct (f y); [auto | exact IH].
Qed.

Lemma find_above_seq (file : projections_table) (id : Z) :
  projections_wf file -> proj_seq file < id ->
  List.find (fun r => proj_id r =? id) (projections file) = None.
Proof.
  intros [_ Hwf] Hid.
  destruct (List.find _ _) as [r |] eqn:Hf; [| reflexivity].
  apply List.find_some in Hf as [Hin Heq].
  apply list_elem_of_In in Hin. apply Hwf in Hin.
  apply Z.eqb_eq in Heq. lia.
Qed.

(** X14. A saved projection is found again under the id it was given,
    the counter plus one: [get_projection_data] returns the frame decoded
    from the JSON text that [save_projection] stored (as long as that
    text is not empty), and what the ids saved earlier return is left
    unchanged. *)
Theorem save_projection_then_get (to_json : DataFrame -> string)
    (read_json : string -> outcome DataFrame)
    (file : projections_table) (now : string)
    (B0 Y0 : Z) (C m : float) (proj_df : DataFrame) :
  projections_wf file ->
  in_int64 B0 = true -> in_int64 Y0 = true ->
  to_json proj_df <> EmptyString ->
  let file' := save_projection to_json file now B0 Y0 C m proj_df in
  get_projection_data read_json file' (proj_seq file + 1) =
    Some <$> read_json (to_json proj_df) /\
  forall id : Z, id <> proj_seq file + 1 ->
    get_projection_data read_json file' id = get_projection_data read_json file id.
Proof.
  intros Hwf HB HY Hjson file'. subst file'.
  rewrite save_projection_cases, HB, HY. cbn [andb].
  unfold get_projection_data, fetch_projection_json. cbn [projections].
  split.
  - rewrite (wf_next_id file Hwf).
    rewrite find_app_r by (apply find_above_seq; [exact Hwf | lia]).
    cbn [List.find proj_id]. rewrite Z.eqb_refl. cbn [fmap option_fmap option_map
      projection_data_json].
    destruct (to_json proj_df) as [| c s]; [congruence | reflexivity].
  - intros id Hid. destruct (in_int64 id); [| reflexivity].
    destruct (List.find (fun r => proj_id r =? id) (projections file))
      as [r |] eqn:Hf.
    + rewrite (find_app_l _ _ _ r Hf). reflexivity.
    + rewrite find_app_r by exact Hf. cbn [List.find proj_id].
      destruct (Z.eqb_spec (proj_seq file + 1) id) as [Heq | _]; [congruence |].
      reflexivity.
Qed.

(** X15. An id under which nothing was saved gives the empty frame, not an
    error: for every id above the counter that SQLite can take as a
    64-bit integer [get_projection_data] returns [pd.DataFrame()]. An id
    beyond the signed 64-bit range cannot be bound to the query and
    raises [OverflowError]. *)
Theorem get_projection_data_unknown_id (read_json : string -> outcome DataFrame)
    (file : projections_table) (id : Z) :
  projections_wf file -> proj_seq file < id ->
  get_projection_data read_json file id =
  if id <? 2 ^ 63 then Returns None else Raises OverflowError.
Proof.
  intros Hwf Hid. unfold get_projection_data, fetch_projection_json.
  rewrite (find_above_seq file id Hwf Hid).
  destruct Hwf as [Hseq _].
  unfold in_int64, int64_min, int64_max in *.
  destruct (Z.ltb_spec id (2 ^ 63)) as [Hlt | Hge].
  - replace ((- 2 ^ 63 <=? id) && (id <=? 2 ^ 63 - 1)) with true; [reflexivity |].
    symmetry. apply andb_true_intro. split; apply Z.leb_le; lia.
  - replace ((- 2 ^ 63 <=? id) && (id <=? 2 ^ 63 - 1)) with false; [reflexivity |].
    symmetry. apply andb_false_intro2. apply Z.leb_gt. lia.
Qed.

(** X16. A projection whose initial counts do not both fit a signed
    64-bit integer is not saved, and nothing tells the caller: the table
    stays as it was, and the id the projection would have got gives the
    empty frame. *)
Theorem save_projection_overflow (to_json : DataFrame -> string)
    (read_json : string -> outcome DataFrame)
    (file : projections_table) (now : string)
    (B0 Y0 : Z) (C m : float) (proj_df : DataFrame) :
  projections_wf file ->
  in_int64 B0 && in_int64 Y0 = false ->
  save_projection to_json file now B0 Y0 C m proj_df = file /\
  get_projection_data read_json
    (save_projection to_json file now B0 Y0 C m proj_df) (proj_seq file + 1)
  = Returns None.
Proof.
  intros Hwf Hrange. rewrite save_projection_cases, Hrange.
  split; [reflexivity |].
  unfold get_projection_data, fetch_projection_json.
  rewrite (wf_next_id file Hwf).
  rewrite (find_above_seq file (proj_seq file + 1) Hwf) by lia. reflexivity.
Qed.

Lemma no_projections_wf : projections_wf no_projections.
Proof.
  split; [cbn; unfold int64_max; lia |].
  intros r Hr. apply elem_of_nil in Hr. contradiction.
Qed.

Lemma save_projection_then_get_witness :
  let to_json := fun df : DataFrame => "split"%string in
  let read_json := fun s : string =>
    if String.eqb s "split" then Returns default_projection else Raises ValueError in
  let file' := save_projection to_json no_projections "2025-01-20 10:00:00"
                 20 10 f_0_5 f_0_05 default_projection in
  get_projection_data read_json file' (proj_seq no_projections + 1) =
    Some <$> read_json (to_json default_projection) /\
  forall id : Z, id <> proj_seq no_projections + 1 ->
    get_projection_data read_json file' id =
    get_projection_data read_json no_projections id.
Proof.
  intros to_json read_json.
  apply (save_projection_then_get to_json read_json no_projections
           "2025-01-20 10:00:00" 20 10 f_0_5 f_0_05 default_projection);
    [exact no_projections_wf | reflexivity | reflexivity | discriminate].
Defined.

Lemma get_projection_data_unknown_id_witness :
  let to_json := fun df : DataFrame => "split"%string in
  let read_json := fun s : string =>
    if String.eqb s "split" then Returns default_projection else Raises ValueError in
  get_projection_data read_json
    (save_projection to_json no_projections "2025-01-20 10:00:00"
       20 10 f_0_5 f_0_05 default_projection) 2
  = (if 2 <? 2 ^ 63 then Returns None else Raises OverflowError).
Proof.
  intros to_json read_json.
  apply (get_projection_data_unknown_id read_json).
  - apply save_projection_wf; [exact no_projections_wf | reflexivity].
  - reflexivity.
Defined.

Lemma save_projection_overflow_witness :
  let to_json := fun df : DataFrame => "split"%string in
  let read_json := fun s : string =>
    if String.eqb s "split" then Returns default_projection else Raises ValueError in
  save_projection to_json no_projections "2025-01-20 10:00:00"
    (2 ^ 63) 10 f_0_5 f_0_05 default_projection = no_projections /\
  get_projection_data read_json
    (save_projection to_json no_projections "2025-01-20 10:00:00"
       (2 ^ 63) 10 f_0_5 f_0_05 default_projection) (proj_seq no_projections + 1)
  = Returns None.
Proof.
  intros to_json read_json.
  apply (save_projection_overflow to_json read_json no_projections);
    [exact no_projections_wf | reflexivity].
Defined.

(** * Exact arithmetic on small integers *)

Lemma shr_1_even (x : Z) :
  0 <= x ->
  shr_1 {| shr_m := 2 * x; shr_r := false; shr_s := false |} =
  {| shr_m := x; shr_r := false; shr_s := false |}.
Proof. intros Hx. destruct x as [| p | p]; [reflexivity | reflexivity | lia]. Qed.

Lemma iter_shr_1_exact (n : positive) :
  forall q : Z, 0 <= q ->
    SpecFloat.iter_pos shr_1 n
      {| shr_m := q * 2 ^ Zpos n; shr_r := false; shr_s := false |} =
    {| shr_m := q; shr_r := false; shr_s := false |}.
Proof.
  induction n as [n IH | n IH |]; intros q Hq; cbn [SpecFloat.iter_pos];
    try pose proof (Z.pow_pos_nonneg 2 (Zpos n) ltac:(lia) ltac:(lia)) as Hp.
  - assert (2 ^ Zpos n~1 = 2 * (2 ^ Zpos n * 2 ^ Zpos n)) as ->.
    { rewrite <- Z.pow_add_r, <- Z.pow_succ_r by lia. f_equal. lia. }
    replace (q * (2 * (2 ^ Zpos n * 2 ^ Zpos n)))
      with (2 * (q * 2 ^ Zpos n * 2 ^ Zpos n)) by ring.
    rewrite shr_1_even by nia. rewrite IH by nia. apply IH. exact Hq.
  - assert (2 ^ Zpos n~0 = 2 ^ Zpos n * 2 ^ Zpos n) as ->.
    { rewrite <- Z.pow_add_r by lia. f_equal. lia. }
    replace (q * (2 ^ Zpos n * 2 ^ Zpos n))
      with (q * 2 ^ Zpos n * 2 ^ Zpos n) by ring.
    rewrite IH by nia. apply IH. exact Hq.
  - replace (q * 2 ^ 1) with (2 * q) by lia. apply shr_1_even. exact Hq.
Qed.

(** Rounding a number that has a 53-bit normal form gives that form. *)
Lemma binary_round_aux_exact (s : bool) (m0 : positive) (e0 k : Z) (M : positive) :
  Zpos (digits2_pos m0) = 53 -> -1074 <= e0 <= 971 -> 0 <= k ->
  Zpos M = Zpos m0 * 2 ^ k ->
  binary_round_aux F64.prec F64.emax s (Zpos M) (e0 - k) loc_Exact =
  S754_finite s m0 e0.
Proof.
  intros Hd He Hk HM.
  destruct k as [| kp | kp]; [| | lia].
  - rewrite Z.pow_0_r, Z.mul_1_r in HM. inversion HM; subst M.
    rewrite Z.sub_0_r. apply binary_round_aux_canonical; assumption.
  - pose proof (digits2_pos_bound m0) as Hhi.
    pose proof (digits2_pos_lower m0) as Hlo. rewrite Hd in Hhi, Hlo.
    pose proof (Z.pow_pos_nonneg 2 (Zpos kp) ltac:(lia) ltac:(lia)) as Hp.
    assert (Zpos (digits2_pos M) = 53 + Zpos kp) as HdM.
    { apply digits2_pos_of_bounds; [| lia]. rewrite HM.
      replace (53 + Zpos kp - 1) with (52 + Zpos kp) by lia.
      rewrite !Z.pow_add_r by lia.
      change (53 - 1) with 52 in Hlo. nia. }
    assert (shr_fexp F64.prec F64.emax (Zpos M) (e0 - Zpos kp) loc_Exact
            = ({| shr_m := Zpos m0; shr_r := false; shr_s := false |}, e0)) as Hs1.
    { unfold shr_fexp. cbn [Zdigits2]. rewrite HdM.
      unfold fexp, emin, F64.prec, F64.emax.
      replace (Z.max (53 + Zpos kp + (e0 - Zpos kp) - 53) (3 - 1024 - 53)
               - (e0 - Zpos kp)) with (Zpos kp) by lia.
      cbn [shr shr_record_of_loc]. rewrite HM.
      rewrite iter_shr_1_exact by lia. f_equal. lia. }
    assert (shr_fexp F64.prec F64.emax (Zpos m0) e0 loc_Exact
            = ({| shr_m := Zpos m0; shr_r := false; shr_s := false |}, e0)) as Hs2.
    { unfold shr_fexp. cbn [Zdigits2]. rewrite Hd.
      unfold fexp, emin, F64.prec, F64.emax.
      replace (Z.max (53 + e0 - 53) (3 - 1024 - 53) - e0) with 0 by lia.
      reflexivity. }
    unfold binary_round_aux. rewrite Hs1.
    cbn [shr_m loc_of_shr_record round_nearest_even]. rewrite Hs2. cbn [shr_m].
    unfold F64.prec, F64.emax.
    destruct (Z.leb_spec e0 (1024 - 53)); [reflexivity | lia].
Qed.

Lemma binary_normalize_exact (S : positive) (ez : Z) (mt : positive) (et : Z) :
  Zpos (digits2_pos mt) = 53 -> -1074 <= et <= 971 -> ez <= et ->
  Zpos S = Zpos mt * 2 ^ (et - ez) ->
  binary_normalize F64.prec F64.emax (Zpos S) ez false = S754_finite false mt et.
Proof.
  intros Hd He Hez HS.
  pose proof (digits2_pos_bound mt) as Hhi.
  pose proof (digits2_pos_lower mt) as Hlo. rewrite Hd in Hhi, Hlo.
  change (53 - 1) with 52 in Hlo.
  pose proof (Z.pow_pos_nonneg 2 (et - ez) ltac:(lia) ltac:(lia)) as Hp.
  assert (Zpos (digits2_pos S) = 53 + (et - ez)) as HdS.
  { apply digits2_pos_of_bounds; [| lia]. rewrite HS.
    replace (53 + (et - ez) - 1) with (52 + (et - ez)) by lia.
    rewrite !Z.pow_add_r by lia. nia. }
  cbn [binary_normalize]. unfold binary_round. rewrite HdS.
  replace (fexp F64.prec F64.emax (53 + (et - ez) + ez)) with et
    by (unfold fexp, emin, F64.prec, F64.emax; lia).
  unfold shl_align.
  destruct (et - ez) as [| d | d] eqn:Hk; [| | lia].
  - replace ez with (et - 0) at 1 by lia.
    apply binary_round_aux_exact; try assumption; lia.
  - replace ez with (et - Zpos d) at 1 by lia.
    apply binary_round_aux_exact; try assumption; lia.
Qed.

(** The binary64 form of a positive integer below [2^53]. *)
Lemma of_Z_small (p : positive) :
  Zpos p < 2 ^ 53 ->
  exists (m : positive) (e : Z),
    F64.of_Z (Zpos p) = S754_finite false m e /\
    Zpos (digits2_pos m) = 53 /\ -52 <= e <= 0 /\
    Zpos m = Zpos p * 2 ^ (- e).
Proof.
  intros Hp.
  pose proof (digits2_pos_lower p) as Hl.
  assert (Zpos (digits2_pos p) <= 53) as Hd.
  { destruct (Z.le_gt_cases (Zpos (digits2_pos p)) 53) as [H | H]; [exact H |].
    assert (2 ^ 53 <= 2 ^ (Zpos (digits2_pos p) - 1))
      by (apply Z.pow_le_mono_r; lia). lia. }
  unfold F64.of_Z. cbn [binary_normalize]. unfold binary_round.
  replace (fexp F64.prec F64.emax (Zpos (digits2_pos p) + 0))
    with (Zpos (digits2_pos p) - 53)
    by (unfold fexp, emin, F64.prec, F64.emax; lia).
  unfold shl_align.
  destruct (Zpos (digits2_pos p) - 53 - 0) as [| d | d] eqn:Hk; try lia.
  - rewrite binary_round_aux_canonical by lia.
    exists p, 0. split; [reflexivity |]. split; [lia |]. split; [lia |].
    cbn. lia.
  - rewrite binary_round_aux_canonical;
      [| rewrite iter_xO_digits; lia | lia].
    exists (Pos.iter xO p d), (Zpos (digits2_pos p) - 53).
    split; [reflexivity |]. split; [rewrite iter_xO_digits; lia |].
    split; [lia |]. rewrite iter_xO_value. f_equal. f_equal. lia.
Qed.

Lemma mul_one_r_small (z : Z) :
  0 <= z < 2 ^ 53 -> F64.mul (F64.of_Z z) F64.one = F64.of_Z z.
Proof.
  intros [Hz0 Hz]. destruct z as [| p | p]; [reflexivity | | lia].
  destruct (of_Z_small p Hz) as (m & e & -> & Hd & He & Hm).
  unfold F64.mul, F64.one. cbn [SFmul xorb].
  replace (e + -52) with (e - 52) by lia.
  apply binary_round_aux_exact; [exact Hd | lia | lia |].
  rewrite Pos2Z.inj_mul. reflexivity.
Qed.

Lemma mul_one_l_small (z : Z) :
  0 <= z < 2 ^ 53 -> F64.mul F64.one (F64.of_Z z) = F64.of_Z z.
Proof.
  intros [Hz0 Hz]. destruct z as [| p | p]; [reflexivity | | lia].
  destruct (of_Z_small p Hz) as (m & e & -> & Hd & He & Hm).
  unfold F64.mul, F64.one. cbn [SFmul xorb].
  replace (-52 + e) with (e - 52) by lia.
  apply binary_round_aux_exact; [exact Hd | lia | lia |].
  rewrite Pos2Z.inj_mul. change (2 ^ 52) with 4503599627370496. lia.
Qed.

Lemma shl_align_value (m : positive) (e ez : Z) :
  ez <= e -> Zpos (fst (shl_align m e ez)) = Zpos m * 2 ^ (e - ez).
Proof.
  intros H. unfold shl_align.
  destruct (ez - e) as [| d | d] eqn:Hk; cbn [fst]; try lia.
  - replace (e - ez) with 0 by lia. lia.
  - rewrite iter_xO_value. f_equal. f_equal. lia.
Qed.

Lemma add_small (b y : Z) :
  0 <= b -> 0 <= y -> b + y < 2 ^ 53 ->
  F64.add (F64.of_Z b) (F64.of_Z y) = F64.of_Z (b + y).
Proof.
  intros Hb Hy Hsum.
  destruct b as [| pb | pb]; [| | lia].
  { rewrite Z.add_0_l. destruct y as [| py | py]; [reflexivity | | lia].
    destruct (of_Z_small py ltac:(lia)) as (m & e & -> & _). reflexivity. }
  destruct y as [| py | py]; [| | lia].
  { rewrite Z.add_0_r.
    destruct (of_Z_small pb ltac:(lia)) as (m & e & -> & _). reflexivity. }
  destruct (of_Z_small pb ltac:(lia)) as (mb & eb & -> & Hdb & Heb & Hmb).
  destruct (of_Z_small py ltac:(lia)) as (my & ey & -> & Hdy & Hey & Hmy).
  change (Zpos pb + Zpos py) with (Zpos (pb + py)) in *.
  destruct (of_Z_small (pb + py) Hsum) as (mt & et & -> & Hdt & Het & Hmt).
  unfold F64.add. cbn [SFadd cond_Zopp].
  set (ez := Z.min eb ey).
  assert (ez <= eb /\ ez <= ey /\ -52 <= ez) as (Hzb & Hzy & Hz52)
    by (unfold ez; lia).
  pose proof (digits2_pos_bound mb) as Hhb.
  pose proof (digits2_pos_lower mb) as Hlb. rewrite Hdb in Hhb, Hlb.
  pose proof (digits2_pos_bound my) as Hhy.
  pose proof (digits2_pos_lower my) as Hly. rewrite Hdy in Hhy, Hly.
  pose proof (digits2_pos_bound mt) as Hht.
  pose proof (digits2_pos_lower mt) as Hlt. rewrite Hdt in Hht, Hlt.
  change (53 - 1) with 52 in *.
  (* the sum cannot have a smaller exponent than its terms *)
  assert (forall (p : positive) (m : positive) (e : Z),
             Zpos p <= Zpos (pb + py) -> -52 <= e <= 0 ->
             Zpos m = Zpos p * 2 ^ (- e) -> 2 ^ 52 <= Zpos m -> e <= et) as Hmono.
  { intros p m e Hle He Hm Hlo.
    destruct (Z.le_gt_cases e et) as [H | H]; [exact H |]. exfalso.
    assert (2 * 2 ^ (- e) <= 2 ^ (- et)) as Hpow.
    { rewrite <- Z.pow_succ_r by lia. apply Z.pow_le_mono_r; lia. }
    pose proof (Z.pow_pos_nonneg 2 (- e) ltac:(lia) ltac:(lia)) as Hpe.
    assert (2 * 2 ^ 52 <= Zpos mt) by nia.
    change (2 ^ 53) with (2 * 2 ^ 52) in Hht. lia. }
  assert (ez <= et) as Hzt.
  { unfold ez. destruct (Z.min_spec eb ey) as [[_ ->] | [_ ->]].
    - apply (Hmono pb mb eb); [lia | lia | exact Hmb | exact Hlb].
    - apply (Hmono py my ey); [lia | lia | exact Hmy | exact Hly]. }
  set (S := (fst (shl_align mb eb ez) + fst (shl_align my ey ez))%positive).
  change (Zpos (fst (shl_align mb eb ez)) + Zpos (fst (shl_align my ey ez)))
    with (Zpos S).
  apply binary_normalize_exact; [exact Hdt | lia | exact Hzt |].
  unfold S. rewrite Pos2Z.inj_add, !shl_align_value by assumption.
  rewrite Hmb, Hmy, Hmt, Pos2Z.inj_add.
  rewrite <- !Z.mul_assoc, <- !Z.pow_add_r by lia.
  replace (- eb + (eb - ez)) with (- ez) by lia.
  replace (- ey + (ey - ez)) with (- ez) by lia.
  replace (- et + (et - ez)) with (- ez) by lia. ring.
Qed.

Lemma py_float_small (z : Z) :
  0 <= z < 2 ^ 53 -> py_float z = Returns (F64.of_Z z).
Proof.
  intros [Hz0 Hz]. unfold py_float.
  destruct z as [| p | p]; [reflexivity | | lia].
  destruct (of_Z_small p Hz) as (m & e & -> & _). reflexivity.
Qed.

Lemma py_int_np_round_small (z : Z) :
  0 <= z < 2 ^ 53 -> py_int (np_round (F64.of_Z z)) = Returns z.
Proof.
  intros [Hz0 Hz]. destruct z as [| p | p]; [reflexivity | | lia].
  destruct (of_Z_small p Hz) as (m & e & -> & Hd & He & Hm).
  rewrite py_int_np_round_finite.
  - cbn [cond_Zopp]. f_equal.
    destruct (Z.leb_spec 0 e) as [H0 | H0].
    + replace e with 0 in * by lia. cbn in Hm. lia.
    + pose proof (Z.pow_pos_nonneg 2 (- e) ltac:(lia) ltac:(lia)) as Hp.
      unfold round_half_even. rewrite Hm.
      rewrite Z.div_mul, Z.mod_mul by lia.
      destruct (Z.compare_spec (2 * 0) (2 ^ (- e))); [lia | reflexivity | lia].
  - unfold F64.valid, valid_binary, bounded, canonical_mantissa.
    rewrite Hd. unfold fexp, emin, F64.prec, F64.emax.
    apply andb_true_intro. split; [apply Z.eqb_eq | apply Z.leb_le]; lia.
Qed.

(** * The Fibonacci case *)

Lemma next_counts_fibonacci (B Y : list Z) (b y : Z) :
  0 <= b -> 0 <= y -> b + y < 2 ^ 53 ->
  next_counts F64.one F64.zero (B ++ [b]) (Y ++ [y]) = Returns (b + y, b).
Proof.
  intros Hb Hy Hsum. unfold next_counts.
  rewrite !py_last_app by discriminate.
  change (py_last [b]) with (Returns b). change (py_last [y]) with (Returns y).
  cbn [mbind outcome_bind obind].
  rewrite (py_float_small b), (py_float_small y) by lia.
  cbn [mbind outcome_bind obind].
  change (F64.sub F64.one F64.zero) with F64.one.
  rewrite (mul_one_l_small b), !(mul_one_r_small b), (mul_one_r_small y) by lia.
  rewrite add_small by assumption.
  rewrite !py_int_np_round_small by lia.
  reflexivity.
Qed.

Lemma for_each_fibonacci (items : list Z) :
  forall (B Y : list Z) (b y : Z),
    0 <= b -> 0 <= y -> (b + y) * 2 ^ Z.of_nat (length items) < 2 ^ 53 ->
    for_each (loop_body F64.one F64.zero) items (B ++ [b], Y ++ [y]) =
    Returns (B ++ map fst (fib_rows (length items) b y),
             Y ++ map snd (fib_rows (length items) b y)).
Proof.
  induction items as [| i rest IH]; intros B Y b y Hb Hy Hbound.
  - reflexivity.
  - cbn [length] in Hbound. rewrite Nat2Z.inj_succ, Z.pow_succ_r in Hbound by lia.
    pose proof (Z.pow_pos_nonneg 2 (Z.of_nat (length rest)) ltac:(lia) ltac:(lia))
      as Hp.
    cbn [for_each loop_body].
    rewrite next_counts_fibonacci by nia.
    cbn [mbind outcome_bind obind].
    rewrite (IH (B ++ [b]) (Y ++ [y]) (b + y) b) by nia.
    cbn [length fib_rows map fst snd]. rewrite <- !app_assoc. reflexivity.
Qed.

Lemma fib_rows_length (n : nat) (b y : Z) : length (fib_rows n b y) = S n.
Proof.
  revert b y. induction n as [| n IH]; intros b y; [reflexivity |].
  cbn [fib_rows length]. rewrite IH. reflexivity.
Qed.

Lemma fib_rows_bounds (n : nat) :
  forall b y : Z,
    0 <= b -> 0 <= y -> (b + y) * 2 ^ Z.of_nat n < 2 ^ 53 ->
    Forall (fun r => 0 <= fst r /\ 0 <= snd r /\ fst r + snd r < 2 ^ 53)
      (fib_rows n b y).
Proof.
  induction n as [| n IH]; intros b y Hb Hy Hbound.
  - cbn in Hbound. repeat constructor; cbn; lia.
  - rewrite Nat2Z.inj_succ, Z.pow_succ_r in Hbound by lia.
    pose proof (Z.pow_pos_nonneg 2 (Z.of_nat n) ltac:(lia) ltac:(lia)) as Hp.
    cbn [fib_rows]. constructor.
    + cbn. repeat split; nia.
    + apply IH; nia.
Qed.

Lemma int64_add_rows (rows : list (Z * Z)) :
  Forall (fun r => 0 <= fst r /\ 0 <= snd r /\ fst r + snd r < 2 ^ 53) rows ->
  zip_with int64_add (map fst rows) (map snd rows) =
  map (fun r => fst r + snd r) rows.
Proof.
  assert (2 ^ 53 < 2 ^ 63) as H63 by (apply Z.pow_lt_mono_r; lia).
  induction 1 as [| [b y] rows (Hb & Hy & Hs) _ IH]; [reflexivity |].
  cbn [map zip_with fst snd] in *. rewrite IH. f_equal.
  unfold int64_add. apply wrap64_small. lia.
Qed.

(** X17. With one female calf per breeder and no mortality ([C = 1.0],
    [m = 0.0]) the projection is the Fibonacci scheme: it returns, every
    year's breeders are last year's breeders plus juveniles, every year's
    juveniles are last year's breeders, and the total is their exact sum,
    as long as the herd stays below [2^53] head. *)
Theorem project_herd_yearly_fibonacci (B0 Y0 years : Z) :
  0 <= B0 -> 0 <= Y0 -> 0 <= years -> (B0 + Y0) * 2 ^ years < 2 ^ 53 ->
  project_herd_yearly B0 Y0 F64.one F64.zero years =
  Returns {| Year := py_range 0 (years + 1);
             Breeders := map fst (fib_rows (Z.to_nat years) B0 Y0);
             Juveniles := map snd (fib_rows (Z.to_nat years) B0 Y0);
             Total := map (fun r => fst r + snd r)
                        (fib_rows (Z.to_nat years) B0 Y0) |}.
Proof.
  intros HB HY Hyears Hbound. unfold project_herd_yearly.
  assert (length (py_range 1 (years + 1)) = Z.to_nat years) as Hlen
    by (rewrite py_range_length; lia).
  pose proof (for_each_fibonacci (py_range 1 (years + 1)) [] [] B0 Y0 HB HY) as Hloop.
  rewrite Hlen, Z2Nat.id in Hloop by lia.
  cbn [app] in Hloop. rewrite (Hloop Hbound). cbn [mbind outcome_bind obind].
  pose proof (fib_rows_bounds (Z.to_nat years) B0 Y0 HB HY) as Hrows.
  rewrite Z2Nat.id in Hrows by lia. specialize (Hrows Hbound).
  assert (2 ^ 53 < 2 ^ 63) as H63 by (apply Z.pow_lt_mono_r; lia).
  rewrite build_frame_Returns.
  - rewrite (int64_add_rows _ Hrows). reflexivity.
  - rewrite length_map, fib_rows_length. lia.
  - rewrite !length_map. reflexivity.
  - rewrite forallb_map. apply forallb_forall. intros r Hr.
    rewrite Forall_forall in Hrows. apply list_elem_of_In in Hr.
    destruct (Hrows r Hr) as (Hb & Hy & Hs).
    unfold in_int64, int64_min, int64_max.
    apply andb_true_intro. split; [apply Z.leb_le | apply Z.leb_le]; lia.
  - rewrite forallb_map. apply forallb_forall. intros r Hr.
    rewrite Forall_forall in Hrows. apply list_elem_of_In in Hr.
    destruct (Hrows r Hr) as (Hb & Hy & Hs).
    unfold in_int64, int64_min, int64_max.
    apply andb_true_intro. split; [apply Z.leb_le | apply Z.leb_le]; lia.
Qed.

Lemma project_herd_yearly_fibonacci_witness :
  project_herd_yearly 1 0 F64.one F64.zero 6 =
  Returns {| Year := py_range 0 (6 + 1);
             Breeders := map fst (fib_rows (Z.to_nat 6) 1 0);
             Juveniles := map snd (fib_rows (Z.to_nat 6) 1 0);
             Total := map (fun r => fst r + snd r) (fib_rows (Z.to_nat 6) 1 0) |}.
Proof.
  apply (project_herd_yearly_fibonacci 1 0 6); [lia | lia | lia | reflexivity].
Defined.

(** * Total mortality, no births *)

Lemma recurrence_B_total_mortality (b y b' : Z) :
  recurrence_B F64.one b y = Returns b' -> b' = 0.
Proof.
  unfold recurrence_B. intros H.
  apply bind_Returns in H as (fb & _ & H).
  apply bind_Returns in H as (fy & _ & H).
  revert H. apply py_int_np_round_zero_or_nan.
  apply add_zero_or_nan; apply mul_zero_or_nan_r; reflexivity.
Qed.

Lemma recurrence_Y_total_mortality (C : float) (b y' : Z) :
  recurrence_Y C F64.one b = Returns y' -> y' = 0.
Proof.
  unfold recurrence_Y. intros H.
  apply bind_Returns in H as (fb & _ & H).
  revert H. apply py_int_np_round_zero_or_nan.
  apply mul_zero_or_nan_r. reflexivity.
Qed.

Lemma recurrence_Y_no_births (s : bool) (m : float) (b y' : Z) :
  recurrence_Y (S754_zero s) m b = Returns y' -> y' = 0.
Proof.
  unfold recurrence_Y. intros H.
  apply bind_Returns in H as (fb & _ & H).
  revert H. apply py_int_np_round_zero_or_nan.
  apply mul_zero_or_nan_l, mul_zero_or_nan_l. reflexivity.
Qed.

(** X18. Degenerate parameters are accepted and have the effect one
    expects. With a mortality rate of [1.0] a returned projection has no
    animal left from year 1 on: every breeder count, juvenile count and
    total after the first row is zero. With [C = 0.0] (no births) every
    juvenile count after the first row is zero. *)
Theorem project_herd_yearly_extinction :
  forall (B0 Y0 : Z) (C m : float) (years : Z) (df : DataFrame) (i : nat) (v : Z),
    project_herd_yearly B0 Y0 C m years = Returns df ->
    (m = F64.one ->
     Breeders df !! S i = Some v \/ Juveniles df !! S i = Some v \/
     Total df !! S i = Some v ->
     v = 0) /\
    (is_zero C = true -> Juveniles df !! S i = Some v -> v = 0).
Proof.
  intros B0 Y0 C m years df i v Hdf.
  apply project_herd_yearly_Returns in Hdf
    as (B & Y & _ & _ & HlY & _ & Hch & _ & _ & _ & ->).
  cbn [Breeders Juveniles Total].
  assert (forall b' y', B !! S i = Some b' -> Y !! S i = Some y' ->
            exists b y, recurrence_B m b y = Returns b' /\
                        recurrence_Y C m b = Returns y') as Hprev.
  { intros b' y' Hb' Hy'.
    destruct (lookup_lt_is_Some_2 B i) as [b Hb];
      [apply lookup_lt_Some in Hb'; lia |].
    destruct (lookup_lt_is_Some_2 Y i) as [y Hy];
      [apply lookup_lt_Some in Hy'; lia |].
    exists b, y. exact (Hch _ _ _ _ _ Hb Hy Hb' Hy'). }
  split.
  - intros -> Hv.
    assert (forall b' y', B !! S i = Some b' -> Y !! S i = Some y' ->
              b' = 0 /\ y' = 0) as Hzero.
    { intros b' y' Hb' Hy'. destruct (Hprev b' y' Hb' Hy') as (b & y & Hrb & Hry).
      split; [exact (recurrence_B_total_mortality b y b' Hrb)
             | exact (recurrence_Y_total_mortality C b y' Hry)]. }
    destruct Hv as [Hv | [Hv | Hv]].
    + destruct (lookup_lt_is_Some_2 Y (S i)) as [y' Hy'];
        [apply lookup_lt_Some in Hv; lia |].
      apply (Hzero v y' Hv Hy').
    + destruct (lookup_lt_is_Some_2 B (S i)) as [b' Hb'];
        [apply lookup_lt_Some in Hv; lia |].
      apply (Hzero b' v Hb' Hv).
    + rewrite lookup_zip_with in Hv.
      destruct (B !! S i) as [b' |] eqn:Hb'; [| discriminate].
      destruct (Y !! S i) as [y' |] eqn:Hy'; [| discriminate].
      cbn in Hv. destruct (Hzero b' y' eq_refl eq_refl) as [-> ->].
      inversion Hv. reflexivity.
  - intros HC Hv.
    destruct (lookup_lt_is_Some_2 B (S i)) as [b' Hb'];
      [apply lookup_lt_Some in Hv; lia |].
    destruct (Hprev b' v Hb' Hv) as (b & y & _ & Hry).
    destruct C as [s | | |]; try discriminate HC.
    exact (recurrence_Y_no_births s m b v Hry).
Qed.

Lemma project_herd_yearly_extinction_witness :
  (F64.one = F64.one ->
   Breeders {| Year := [0; 1; 2]; Breeders := [20; 0; 0];
               Juveniles := [10; 0; 0]; Total := [30; 0; 0] |} !! 1%nat = Some 0 \/
   Juveniles {| Year := [0; 1; 2]; Breeders := [20; 0; 0];
                Juveniles := [10; 0; 0]; Total := [30; 0; 0] |} !! 1%nat = Some 0 \/
   Total {| Year := [0; 1; 2]; Breeders := [20; 0; 0];
            Juveniles := [10; 0; 0]; Total := [30; 0; 0] |} !! 1%nat = Some 0 ->
   0 = 0) /\
  (is_zero F64.zero = true ->
   Juveniles {| Year := [0; 1; 2]; Breeders := [20; 0; 0];
                Juveniles := [10; 0; 0]; Total := [30; 0; 0] |} !! 1%nat = Some 0 ->
   0 = 0).
Proof.
  apply (project_herd_yearly_extinction 20 10 F64.zero F64.one 2).
  vm_compute. reflexivity.
Defined.

(** * The sign of the mean absolute error *)







(** * The mean absolute error is symmetric *)









(** * Herds of bounded size *)

(** ** Rounding keeps a bound by a power of two *)

Lemma abs_le_pow2_finite (k : Z) (s : bool) (m : positive) (e : Z) :
  e <= k -> Zpos m <= 2 ^ (k - e) -> abs_le_pow2 k (S754_finite s m e) = true.
Proof.
  intros He Hm. cbn [abs_le_pow2].
  apply andb_true_intro. split; [apply Z.leb_le | apply Z.leb_le]; assumption.
Qed.

Lemma abs_le_pow2_finite_inv (k : Z) (s : bool) (m : positive) (e : Z) :
  abs_le_pow2 k (S754_finite s m e) = true -> e <= k /\ Zpos m <= 2 ^ (k - e).
Proof.
  cbn [abs_le_pow2]. intros H. apply andb_prop in H as [He Hm].
  apply Z.leb_le in He, Hm. split; assumption.
Qed.

Lemma abs_le_pow2_mono (k k' : Z) (x : float) :
  k <= k' -> abs_le_pow2 k x = true -> abs_le_pow2 k' x = true.
Proof.
  intros Hk. destruct x as [s | s | | s m e]; try (intros H; exact H).
  intros H. apply abs_le_pow2_finite_inv in H as [He Hm].
  apply abs_le_pow2_finite; [lia |].
  eapply Z.le_trans; [exact Hm |]. apply Z.pow_le_mono_r; lia.
Qed.

(** The exponent the format gives a mantissa that is bounded by a power of
    two is not above that power. *)
Lemma fexp_le_pow2 (M : positive) (E K : Z) :
  -1074 <= K -> E <= K -> Zpos M <= 2 ^ (K - E) ->
  fexp F64.prec F64.emax (Zpos (digits2_pos M) + E) <= K.
Proof.
  intros HK HE HM.
  pose proof (digits2_pos_lower M) as Hlo.
  assert (Zpos (digits2_pos M) - 1 <= K - E) as Hd.
  { apply (Z.pow_le_mono_r_iff 2); [lia | lia | lia]. }
  unfold fexp, emin, F64.prec, F64.emax. lia.
Qed.
(** Rounding a mantissa at exponent [E] whose value is at most [2^K]
    gives a number that is at most [2^K]: no overflow, and rounding up
    never passes a power of two. *)
Lemma binary_round_aux_le_pow2 (s : bool) (M : positive) (E K : Z) :
  -1074 <= K <= 971 -> E <= K -> Zpos M <= 2 ^ (K - E) ->
  abs_le_pow2 K (binary_round_aux F64.prec F64.emax s (Zpos M) E loc_Exact) = true.
Proof.
  intros HK HE HM.
  pose proof (fexp_le_pow2 M E K ltac:(lia) HE HM) as Hfe.
  unfold binary_round_aux.
  destruct (shr_fexp F64.prec F64.emax (Zpos M) E loc_Exact) as [mrs' e'] eqn:Hs1.
  unfold shr_fexp, shr in Hs1. cbn [Zdigits2 shr_record_of_loc] in Hs1.
  set (fe := fexp F64.prec F64.emax (Zpos (digits2_pos M) + E)) in *.
  assert (-1074 <= fe) as Hfe0
    by (unfold fe, fexp, emin, F64.prec, F64.emax; lia).
  (* the first shift leaves a mantissa [r] with [r * 2^e' <= 2^K] *)
  assert (e' <= K /\
          0 <= round_nearest_even (shr_m mrs') (loc_of_shr_record mrs')
            <= 2 ^ (K - e') /\ -1074 <= e') as (He' & Hr & He'0).
  { destruct (fe - E) as [| n | n] eqn:Hn; inversion Hs1; subst mrs' e'; clear Hs1.
    - cbn [shr_m loc_of_shr_record round_nearest_even]. lia.
    - assert (K - E = (K - fe) + Zpos n) as HKE by lia.
      pose proof (Z.pow_pos_nonneg 2 (Zpos n) ltac:(lia) ltac:(lia)) as Hpn.
      pose proof (Z.pow_pos_nonneg 2 (K - fe) ltac:(lia) ltac:(lia)) as Hpk.
      rewrite HKE, Z.pow_add_r in HM by lia.
      replace (E + Zpos n) with fe by lia.
      split; [exact Hfe |]. split; [| exact Hfe0].
      destruct (Z.eq_dec (Zpos M) (2 ^ (K - fe) * 2 ^ Zpos n)) as [Heq | Hne].
      + rewrite Heq, iter_shr_1_exact by lia.
        cbn [shr_m loc_of_shr_record round_nearest_even]. lia.
      + destruct (iter_shr_1_m n {| shr_m := Zpos M; shr_r := false; shr_s := false |}
                    ltac:(cbn; lia)) as [Hq Hq0].
        cbn [shr_m] in Hq.
        set (mrs' := SpecFloat.iter_pos shr_1 n _) in *.
        pose proof (round_nearest_even_bounds (shr_m mrs') (loc_of_shr_record mrs'))
          as Hb.
        assert (shr_m mrs' < 2 ^ (K - fe)) as Hlt.
        { rewrite Hq. apply Z.div_lt_upper_bound; lia. }
        lia.
    - cbn [shr_m loc_of_shr_record round_nearest_even]. lia. }
  clear Hs1.
  destruct (round_nearest_even (shr_m mrs') (loc_of_shr_record mrs'))
    as [| r | r]; [| | lia].
  - (* rounded to zero *)
    assert (shr_fexp F64.prec F64.emax 0 e' loc_Exact
            = ({| shr_m := 0; shr_r := false; shr_s := false |}, e')) as ->.
    { unfold shr_fexp, shr. cbn [Zdigits2 shr_record_of_loc].
      unfold fexp, emin, F64.prec, F64.emax.
      destruct (Z.max (0 + e' - 53) (3 - 1024 - 53) - e') eqn:Hz; try reflexivity.
      lia. }
    reflexivity.
  - destruct Hr as [_ Hr].
    pose proof (fexp_le_pow2 r e' K ltac:(lia) He' Hr) as Hfe2.
    destruct (shr_fexp F64.prec F64.emax (Zpos r) e' loc_Exact) as [mrs'' e'']
      eqn:Hs2.
    unfold shr_fexp, shr in Hs2. cbn [Zdigits2 shr_record_of_loc] in Hs2.
    set (fe2 := fexp F64.prec F64.emax (Zpos (digits2_pos r) + e')) in *.
    destruct (fe2 - e') as [| n | n] eqn:Hn; inversion Hs2; subst mrs'' e'';
      clear Hs2; cbn [shr_m].
    + destruct (Z.leb_spec e' (F64.emax - F64.prec));
        [| unfold F64.emax, F64.prec in *; lia].
      apply abs_le_pow2_finite; assumption.
    + destruct (iter_shr_1_m n {| shr_m := Zpos r; shr_r := false; shr_s := false |}
                  ltac:(cbn; lia)) as [Hq Hq0].
      cbn [shr_m] in Hq.
      set (mrs'' := SpecFloat.iter_pos shr_1 n _) in *.
      destruct (shr_m mrs'') as [| m2 | m2] eqn:Hm2; [reflexivity | | lia].
      destruct (Z.leb_spec (e' + Zpos n) (F64.emax - F64.prec));
        [| unfold F64.emax, F64.prec in *; lia].
      apply abs_le_pow2_finite; [lia |].
      pose proof (Z.pow_pos_nonneg 2 (Zpos n) ltac:(lia) ltac:(lia)) as Hpn.
      rewrite Hq. apply Z.div_le_upper_bound; [lia |].
      rewrite <- Z.pow_add_r by lia.
      replace (Zpos n + (K - (e' + Zpos n))) with (K - e') by lia. exact Hr.
    + destruct (Z.leb_spec e' (F64.emax - F64.prec));
        [| unfold F64.emax, F64.prec in *; lia].
      apply abs_le_pow2_finite; assumption.
Qed.

Lemma binary_round_le_pow2 (s : bool) (M : positive) (E K : Z) :
  -1074 <= K <= 971 -> E <= K -> Zpos M <= 2 ^ (K - E) ->
  abs_le_pow2 K (binary_round F64.prec F64.emax s M E) = true.
Proof.
  intros HK HE HM.
  pose proof (fexp_le_pow2 M E K ltac:(lia) HE HM) as Hfe.
  unfold binary_round, shl_align.
  set (fe := fexp F64.prec F64.emax (Zpos (digits2_pos M) + E)) in *.
  destruct (fe - E) as [| d | d] eqn:Hd;
    try (apply binary_round_aux_le_pow2; assumption).
  apply binary_round_aux_le_pow2; [exact HK | exact Hfe |].
  rewrite iter_xO_value.
  replace (K - fe) with ((K - E) + Zpos d) by lia.
  rewrite Z.pow_add_r by lia.
  apply Z.mul_le_mono_nonneg_r; [apply Z.pow_nonneg; lia | exact HM].
Qed.

Lemma binary_normalize_le_pow2 (z E K : Z) (szero : bool) :
  -1074 <= K <= 971 -> E <= K -> Z.abs z <= 2 ^ (K - E) ->
  abs_le_pow2 K (binary_normalize F64.prec F64.emax z E szero) = true.
Proof.
  intros HK HE Hz.
  destruct z as [| p | p]; cbn [binary_normalize]; [reflexivity | |];
    apply binary_round_le_pow2; assumption.
Qed.

(** ** The operations of the recurrence on bounded numbers *)

Lemma of_Z_le_pow2 (z K : Z) :
  0 <= K <= 971 -> Z.abs z <= 2 ^ K -> abs_le_pow2 K (F64.of_Z z) = true.
Proof.
  intros HK Hz. unfold F64.of_Z.
  apply binary_normalize_le_pow2; [lia | lia |].
  rewrite Z.sub_0_r. exact Hz.
Qed.

Lemma py_float_le_pow2 (z K : Z) :
  0 <= K <= 971 -> Z.abs z <= 2 ^ K ->
  py_float z = Returns (F64.of_Z z) /\ abs_le_pow2 K (F64.of_Z z) = true.
Proof.
  intros HK Hz. pose proof (of_Z_le_pow2 z K HK Hz) as H.
  split; [| exact H]. unfold py_float.
  destruct (F64.of_Z z); try reflexivity. discriminate H.
Qed.

Lemma mul_le_pow2 (x y : float) (k1 k2 : Z) :
  -1074 <= k1 + k2 <= 971 ->
  abs_le_pow2 k1 x = true -> abs_le_pow2 k2 y = true ->
  abs_le_pow2 (k1 + k2) (F64.mul x y) = true.
Proof.
  intros HK Hx Hy.
  destruct x as [sx | sx | | sx mx ex], y as [sy | sy | | sy my ey];
    try discriminate; try reflexivity.
  apply abs_le_pow2_finite_inv in Hx as [Hex Hmx].
  apply abs_le_pow2_finite_inv in Hy as [Hey Hmy].
  unfold F64.mul. cbn [SFmul].
  apply binary_round_aux_le_pow2; [exact HK | lia |].
  rewrite Pos2Z.inj_mul.
  replace (k1 + k2 - (ex + ey)) with ((k1 - ex) + (k2 - ey)) by lia.
  rewrite Z.pow_add_r by lia.
  apply Z.mul_le_mono_nonneg; lia.
Qed.

Lemma add_le_pow2 (x y : float) (k : Z) :
  -1074 <= k + 1 <= 971 ->
  abs_le_pow2 k x = true -> abs_le_pow2 k y = true ->
  abs_le_pow2 (k + 1) (F64.add x y) = true.
Proof.
  intros HK Hx Hy.
  destruct x as [sx | sx | | sx mx ex], y as [sy | sy | | sy my ey];
    try discriminate.
  - destruct sx, sy; reflexivity.
  - apply (abs_le_pow2_mono k); [lia | exact Hy].
  - apply (abs_le_pow2_mono k); [lia | exact Hx].
  - apply abs_le_pow2_finite_inv in Hx as [Hex Hmx].
    apply abs_le_pow2_finite_inv in Hy as [Hey Hmy].
    unfold F64.add. cbn [SFadd].
    set (ez := Z.min ex ey).
    assert (ez <= ex /\ ez <= ey) as [Hzx Hzy] by (unfold ez; lia).
    apply binary_normalize_le_pow2; [exact HK | lia |].
    pose proof (shl_align_value mx ex ez Hzx) as Hax.
    pose proof (shl_align_value my ey ez Hzy) as Hay.
    assert (Zpos (fst (shl_align mx ex ez)) <= 2 ^ (k - ez)) as Hbx.
    { rewrite Hax. replace (k - ez) with ((k - ex) + (ex - ez)) by lia.
      rewrite Z.pow_add_r by lia.
      apply Z.mul_le_mono_nonneg_r; [apply Z.pow_nonneg; lia | exact Hmx]. }
    assert (Zpos (fst (shl_align my ey ez)) <= 2 ^ (k - ez)) as Hby.
    { rewrite Hay. replace (k - ez) with ((k - ey) + (ey - ez)) by lia.
      rewrite Z.pow_add_r by lia.
      apply Z.mul_le_mono_nonneg_r; [apply Z.pow_nonneg; lia | exact Hmy]. }
    replace (k + 1 - ez) with (Z.succ (k - ez)) by lia.
    rewrite Z.pow_succ_r by lia.
    destruct sx, sy; cbn [cond_Zopp]; lia.
Qed.

(** [1 - m] for a rate [m] between 0 and 2. *)
Lemma sub_one_le_pow2 (m : float) :
  F64.sign_clear m = true -> abs_le_pow2 1 m = true ->
  abs_le_pow2 0 (F64.sub F64.one m) = true.
Proof.
  intros Hs Hm.
  destruct m as [s | s | | s mm em]; try discriminate; [reflexivity |].
  destruct s; [discriminate |].
  apply abs_le_pow2_finite_inv in Hm as [Hem Hmm].
  unfold F64.sub, F64.one. cbn [SFsub cond_Zopp].
  set (ez := Z.min (-52) em).
  assert (ez <= -52 /\ ez <= em) as [Hz1 Hzm] by (unfold ez; lia).
  apply binary_normalize_le_pow2; [lia | lia |].
  rewrite (shl_align_value _ (-52) ez Hz1), (shl_align_value mm em ez Hzm).
  assert (Zpos mm * 2 ^ (em - ez) <= 2 * 2 ^ (- ez)) as Hb.
  { replace (2 * 2 ^ (- ez)) with (2 ^ (1 - em) * 2 ^ (em - ez)).
    - apply Z.mul_le_mono_nonneg_r; [apply Z.pow_nonneg; lia | exact Hmm].
    - rewrite <- Z.pow_add_r, <- Z.pow_succ_r by lia. f_equal. lia. }
  assert (4503599627370496 * 2 ^ (-52 - ez) = 2 ^ (- ez)) as ->.
  { change 4503599627370496 with (2 ^ 52). rewrite <- Z.pow_add_r by lia.
    f_equal. lia. }
  replace (0 - ez) with (- ez) by lia.
  pose proof (Z.pow_pos_nonneg 2 (em - ez) ltac:(lia) ltac:(lia)) as Hp.
  lia.
Qed.

Lemma round_half_even_le (n d K : Z) :
  0 < d -> 0 <= K -> 0 <= n <= 2 ^ K * d -> 0 <= round_half_even n d <= 2 ^ K.
Proof.
  intros Hd HK Hn.
  pose proof (round_half_even_nonneg n d ltac:(lia) Hd) as H0.
  pose proof (round_half_even_spec n d Hd) as [Hs _].
  pose proof (Z.pow_pos_nonneg 2 K ltac:(lia) HK) as Hp.
  split; [exact H0 | nia].
Qed.

Lemma np_round_le_pow2 (x : float) (K : Z) :
  0 <= K <= 971 -> abs_le_pow2 K x = true -> abs_le_pow2 K (np_round x) = true.
Proof.
  intros HK Hx. destruct x as [s | s | | s m e]; try exact Hx.
  cbn [np_round]. destruct (Z.leb_spec 0 e) as [He0 | He0]; [exact Hx |].
  apply abs_le_pow2_finite_inv in Hx as [He Hm].
  apply binary_normalize_le_pow2; [lia | lia |].
  rewrite Z.sub_0_r.
  pose proof (Z.pow_pos_nonneg 2 (- e) ltac:(lia) ltac:(lia)) as Hp.
  assert (Zpos m <= 2 ^ K * 2 ^ (- e)) as Hm'.
  { rewrite <- Z.pow_add_r by lia. replace (K + - e) with (K - e) by lia.
    exact Hm. }
  pose proof (round_half_even_le (Zpos m) (2 ^ (- e)) K Hp ltac:(lia)
                ltac:(lia)) as H.
  destruct s; cbn [cond_Zopp]; lia.
Qed.

Lemma py_int_le_pow2 (x : float) (K : Z) :
  0 <= K -> abs_le_pow2 K x = true ->
  exists z, py_int x = Returns z /\ Z.abs z <= 2 ^ K.
Proof.
  intros HK Hx. destruct x as [s | s | | s m e]; try discriminate.
  - exists 0. split; [reflexivity |].
    pose proof (Z.pow_pos_nonneg 2 K ltac:(lia) HK). lia.
  - apply abs_le_pow2_finite_inv in Hx as [He Hm].
    eexists. split; [reflexivity |].
    assert (0 <= (if 0 <=? e then Zpos m * 2 ^ e else Zpos m / 2 ^ (- e)) <= 2 ^ K)
      as H.
    { destruct (Z.leb_spec 0 e) as [He0 | He0].
      - split; [apply Z.mul_nonneg_nonneg; [lia | apply Z.pow_nonneg; lia] |].
        replace K with ((K - e) + e) at 1 by lia. rewrite Z.pow_add_r by lia.
        apply Z.mul_le_mono_nonneg_r; [apply Z.pow_nonneg; lia | exact Hm].
      - pose proof (Z.pow_pos_nonneg 2 (- e) ltac:(lia) ltac:(lia)) as Hp.
        split; [apply Z.div_pos; lia |].
        apply Z.div_le_upper_bound; [lia |].
        rewrite <- Z.pow_add_r by lia. replace (- e + K) with (K - e) by lia.
        exact Hm. }
    destruct s; cbn [cond_Zopp]; lia.
Qed.

(** ** One year, and the loop *)

Section Bounded.

Variables C m : float.
Hypothesis C_le_1 : abs_le_pow2 0 C = true.
Hypothesis survival_le_1 : abs_le_pow2 0 (F64.sub F64.one m) = true.

Lemma next_counts_bounded (B Y : list Z) (b y L : Z) :
  0 <= L <= 970 -> Z.abs b <= 2 ^ L -> Z.abs y <= 2 ^ L ->
  exists b' y',
    next_counts C m (B ++ [b]) (Y ++ [y]) = Returns (b', y') /\
    Z.abs b' <= 2 ^ (L + 1) /\ Z.abs y' <= 2 ^ (L + 1).
Proof.
  intros HL Hb Hy.
  destruct (py_float_le_pow2 b L ltac:(lia) Hb) as [Hfb Hbb].
  destruct (py_float_le_pow2 y L ltac:(lia) Hy) as [Hfy Hby].
  pose proof survival_le_1 as Ht.
  assert (abs_le_pow2 (L + 1)
            (np_round (F64.add (F64.mul (F64.of_Z b) (F64.sub F64.one m))
                               (F64.mul (F64.of_Z y) (F64.sub F64.one m))))
          = true) as HrawB.
  { apply np_round_le_pow2; [lia |]. apply add_le_pow2; [lia | |].
    - replace L with (L + 0) by lia. apply mul_le_pow2; [lia | | exact Ht].
      replace (L + 0) with L by lia. exact Hbb.
    - replace L with (L + 0) by lia. apply mul_le_pow2; [lia | | exact Ht].
      replace (L + 0) with L by lia. exact Hby. }
  assert (abs_le_pow2 (L + 1)
            (np_round (F64.mul (F64.mul C (F64.of_Z b)) (F64.sub F64.one m)))
          = true) as HrawY.
  { apply np_round_le_pow2; [lia |]. apply (abs_le_pow2_mono L); [lia |].
    replace L with ((0 + L) + 0) by lia.
    apply mul_le_pow2; [lia | | exact Ht].
    apply mul_le_pow2; [lia | exact C_le_1 | exact Hbb]. }
  destruct (py_int_le_pow2 _ (L + 1) ltac:(lia) HrawB) as (b' & Hb' & Hbb').
  destruct (py_int_le_pow2 _ (L + 1) ltac:(lia) HrawY) as (y' & Hy' & Hyy').
  exists b', y'. split; [| split; assumption].
  unfold next_counts.
  rewrite !py_last_app by discriminate.
  change (py_last [b]) with (Returns b). change (py_last [y]) with (Returns y).
  cbn [mbind outcome_bind obind].
  rewrite Hfb, Hfy. cbn [mbind outcome_bind obind].
  rewrite Hb'. cbn [mbind outcome_bind obind].
  rewrite Hy'. reflexivity.
Qed.

Lemma for_each_bounded (items : list Z) :
  forall (B Y : list Z) (b y L : Z),
    0 <= L -> L + Z.of_nat (length items) <= 971 ->
    Forall (fun z => Z.abs z <= 2 ^ L) (B ++ [b]) ->
    Forall (fun z => Z.abs z <= 2 ^ L) (Y ++ [y]) ->
    exists B' Y' : list Z,
      for_each (loop_body C m) items (B ++ [b], Y ++ [y]) = Returns (B', Y') /\
      Forall (fun z => Z.abs z <= 2 ^ (L + Z.of_nat (length items))) B' /\
      Forall (fun z => Z.abs z <= 2 ^ (L + Z.of_nat (length items))) Y'.
Proof.
  induction items as [| i rest IH]; intros B Y b y L HL Hlen HB HY.
  - exists (B ++ [b]), (Y ++ [y]). cbn [length for_each].
    rewrite Z.add_0_r. split; [reflexivity | split; assumption].
  - cbn [length] in Hlen |- *. rewrite Nat2Z.inj_succ in Hlen |- *.
    assert (Z.abs b <= 2 ^ L /\ Z.abs y <= 2 ^ L) as [Hb Hy].
    { apply Forall_app in HB as [_ HB]. apply Forall_app in HY as [_ HY].
      split; [exact (proj1 (Forall_singleton _ b) HB)
             | exact (proj1 (Forall_singleton _ y) HY)]. }
    destruct (next_counts_bounded B Y b y L ltac:(lia) Hb Hy)
      as (b' & y' & Hnext & Hb' & Hy').
    cbn [for_each loop_body]. rewrite Hnext. cbn [mbind outcome_bind obind].
    assert (forall l : list Z,
               Forall (fun z => Z.abs z <= 2 ^ L) l ->
               Forall (fun z => Z.abs z <= 2 ^ (L + 1)) l) as Hmono.
    { intros l Hl. eapply Forall_impl; [exact Hl |]. intros z Hz.
      eapply Z.le_trans; [exact Hz |]. apply Z.pow_le_mono_r; lia. }
    destruct (IH (B ++ [b]) (Y ++ [y]) b' y' (L + 1) ltac:(lia) ltac:(lia))
      as (B' & Y' & Hloop & HB' & HY').
    + apply Forall_app. split; [apply Hmono; exact HB |].
      apply Forall_singleton. exact Hb'.
    + apply Forall_app. split; [apply Hmono; exact HY |].
      apply Forall_singleton. exact Hy'.
    + exists B', Y'. split; [exact Hloop |].
      replace (L + Z.succ (Z.of_nat (length rest)))
        with (L + 1 + Z.of_nat (length rest)) by lia.
      split; assumption.
Qed.

End Bounded.

Lemma abs_le_pow2_in_int64 (l : list Z) (K : Z) :
  0 <= K <= 62 -> Forall (fun z => Z.abs z <= 2 ^ K) l -> forallb in_int64 l = true.
Proof.
  intros HK H.
  assert (2 ^ K <= 2 ^ 62) as Hp by (apply Z.pow_le_mono_r; lia).
  change (2 ^ 62) with 4611686018427387904 in Hp.
  induction H as [| z l Hz _ IH]; [reflexivity |].
  cbn [forallb]. rewrite IH, andb_true_r.
  unfold in_int64, int64_min, int64_max.
  change (2 ^ 63) with 9223372036854775808.
  apply andb_true_intro. split; apply Z.leb_le; lia.
Qed.

(** The call returns for a herd of bounded size: counts of at most [2^L]
    in absolute value at most double every year, so over [years] years
    with [L + years <= 62] every conversion succeeds and every count fits
    a signed 64-bit integer. *)
Lemma project_herd_yearly_bounded (B0 Y0 : Z) (C m : float) (years L : Z) :
  abs_le_pow2 0 C = true -> abs_le_pow2 0 (F64.sub F64.one m) = true ->
  0 <= years -> 0 <= L -> L + years <= 62 ->
  Z.abs B0 <= 2 ^ L -> Z.abs Y0 <= 2 ^ L ->
  exists B Y : list Z,
    Forall (fun z => Z.abs z <= 2 ^ (L + years)) B /\
    Forall (fun z => Z.abs z <= 2 ^ (L + years)) Y /\
    project_herd_yearly B0 Y0 C m years =
      Returns {| Year := py_range 0 (years + 1); Breeders := B; Juveniles := Y;
                 Total := zip_with int64_add B Y |}.
Proof.
  intros HC Hs Hy HL Hsum HB0 HY0.
  assert (Z.of_nat (length (py_range 1 (years + 1))) = years) as Hlen
    by (rewrite py_range_length; lia).
  destruct (for_each_bounded C m HC Hs (py_range 1 (years + 1)) [] [] B0 Y0 L HL
              ltac:(lia)) as (B & Y & Hloop & HB & HY).
  { constructor; [exact HB0 | constructor]. }
  { constructor; [exact HY0 | constructor]. }
  rewrite Hlen in HB, HY. cbn [app] in Hloop.
  exists B, Y. split; [exact HB |]. split; [exact HY |].
  pose proof (for_each_loop_body C m _ _ _ _ _ Hloop eq_refl
                (obeys_recurrence_singleton C m B0 Y0))
    as (HlB & HlY & _ & _).
  rewrite py_range_length in HlB. cbn [length] in HlB.
  unfold project_herd_yearly. rewrite Hloop. cbn [mbind outcome_bind obind].
  apply build_frame_Returns.
  - lia.
  - exact HlY.
  - apply (abs_le_pow2_in_int64 B (L + years)); [lia | exact HB].
  - apply (abs_le_pow2_in_int64 Y (L + years)); [lia | exact HY].
Qed.

(** ** Parameters given by comparisons *)

(** A rate with [0 <= m <= 2] leaves a survival rate [|1 - m| <= 1]. *)
Lemma rate_survival_le_1 (m : float) :
  F64.leb F64.zero m = true -> abs_le_pow2 1 m = true ->
  abs_le_pow2 0 (F64.sub F64.one m) = true.
Proof.
  intros H0 H2.
  destruct m as [s | s | | s mm me]; try discriminate.
  - destruct s; reflexivity.
  - destruct s; [discriminate H0 |].
    apply sub_one_le_pow2; [reflexivity | exact H2].
Qed.

(** A well-formed number with a clear sign bit that compares below or
    equal to one is at most one. *)
Lemma le_one_le_pow2 (x : float) :
  F64.valid x = true -> F64.sign_clear x = true -> F64.leb x F64.one = true ->
  abs_le_pow2 0 x = true.
Proof.
  intros Hv Hs Hle.
  destruct x as [s | s | | s mm me]; try reflexivity.
  - destruct s; [discriminate Hs | discriminate Hle].
  - discriminate Hle.
  - destruct s; [discriminate Hs |].
    apply valid_finite_mantissa in Hv.
    unfold F64.leb, SFleb, F64.one in Hle. cbn [SFcompare] in Hle.
    destruct (me ?= -52) eqn:Hcmp.
    + apply Z.compare_eq in Hcmp. subst me.
      apply abs_le_pow2_finite; [lia |].
      change (2 ^ (0 - -52)) with 4503599627370496.
      destruct (Pos.compare_cont Eq mm 4503599627370496) eqn:Hpc;
        try discriminate.
      * apply Pos.compare_eq in Hpc. subst mm. lia.
      * assert (Zpos mm < 4503599627370496) as Hm by exact Hpc. lia.
    + rewrite Z.compare_lt_iff in Hcmp.
      apply abs_le_pow2_finite; [lia |].
      assert (2 ^ 53 <= 2 ^ (0 - me)) as Hp by (apply Z.pow_le_mono_r; lia).
      lia.
    + discriminate.
Qed.

(** The birth rates of the valid domain, [0 < C <= 1]. *)
Lemma birth_rate_le_1 (C : float) :
  F64.valid C = true -> F64.ltb F64.zero C = true -> F64.leb C F64.one = true ->
  abs_le_pow2 0 C = true.
Proof.
  intros Hv H0 H1. apply le_one_le_pow2; [exact Hv | | exact H1].
  apply positive_sign_clear. exact H0.
Qed.

(** The mortality rates of the valid domain, [0 <= m < 1]: the survival
    rate [1 - m] is at most one. *)
Lemma mortality_survival_le_1 (m : float) :
  F64.valid m = true -> F64.leb F64.zero m = true -> F64.ltb m F64.one = true ->
  abs_le_pow2 0 (F64.sub F64.one m) = true.
Proof.
  intros Hv H0 H1.
  destruct m as [s | s | | s mm me].
  - destruct s; reflexivity.
  - destruct s; [discriminate H0 | discriminate H1].
  - discriminate H0.
  - destruct s; [discriminate H0 |].
    apply sub_one_le_pow2; [reflexivity |].
    apply (abs_le_pow2_mono 0); [lia |].
    apply le_one_le_pow2; [exact Hv | reflexivity |].
    unfold F64.ltb, SFltb in H1. unfold F64.leb, SFleb.
    destruct (SFcompare (S754_finite false mm me) F64.one) as [[| |] |];
      try discriminate; reflexivity.
Qed.

Lemma in_int64_range (z : Z) : in_int64 z = true -> - 2 ^ 63 <= z < 2 ^ 63.
Proof.
  unfold in_int64, int64_min, int64_max. intros H.
  apply andb_prop in H as [H1 H2]. apply Z.leb_le in H1, H2. lia.
Qed.

(** * The horizon, the parameters and the signs *)

(** ** The horizon *)

(** C2 (amended). For [years >= 0], a returned frame whose counts fit
    signed 64-bit integers has exactly [years + 1] rows (every column has
    that length), and row 0 is year 0 with the supplied [B0] and [Y0], and
    with the total [B0 + Y0] when that sum fits 64 bits too. Such a frame
    is returned whenever the herd is of bounded size: [|B0|] and [|Y0|]
    at most [2^L] with [L + years <= 62], a birth rate [|C| <= 1] and a
    survival rate [|1 - m| <= 1] (every [m] from 0 to 2). For [years = 0]
    and [B0], [Y0], [B0 + Y0] within 64 bits the call returns exactly the
    single row (0, [B0], [Y0], [B0 + Y0]). *)
Theorem project_herd_yearly_horizon :
  (forall (B0 Y0 : Z) (C m : float) (years : Z) (df : DataFrame),
      0 <= years ->
      project_herd_yearly B0 Y0 C m years = Returns df ->
      forallb in_int64 (Breeders df) = true ->
      forallb in_int64 (Juveniles df) = true ->
      Z.of_nat (nrows df) = years + 1 /\
      Z.of_nat (length (Breeders df)) = years + 1 /\
      Z.of_nat (length (Juveniles df)) = years + 1 /\
      Z.of_nat (length (Total df)) = years + 1 /\
      Year df !! 0%nat = Some 0 /\
      Breeders df !! 0%nat = Some B0 /\
      Juveniles df !! 0%nat = Some Y0 /\
      (in_int64 (B0 + Y0) = true -> Total df !! 0%nat = Some (B0 + Y0))) /\
  (forall (B0 Y0 : Z) (C m : float) (years L : Z),
      0 <= years -> 0 <= L -> L + years <= 62 ->
      Z.abs B0 <= 2 ^ L -> Z.abs Y0 <= 2 ^ L ->
      abs_le_pow2 0 C = true -> abs_le_pow2 0 (F64.sub F64.one m) = true ->
      exists df : DataFrame,
        project_herd_yearly B0 Y0 C m years = Returns df /\
        forallb in_int64 (Breeders df) = true /\
        forallb in_int64 (Juveniles df) = true /\
        Z.of_nat (nrows df) = years + 1 /\
        Z.of_nat (length (Breeders df)) = years + 1 /\
        Z.of_nat (length (Juveniles df)) = years + 1 /\
        Z.of_nat (length (Total df)) = years + 1 /\
        Breeders df !! 0%nat = Some B0 /\
        Juveniles df !! 0%nat = Some Y0) /\
  (forall (B0 Y0 : Z) (C m : float),
      in_int64 B0 = true -> in_int64 Y0 = true -> in_int64 (B0 + Y0) = true ->
      project_herd_yearly B0 Y0 C m 0 =
      Returns {| Year := [0]; Breeders := [B0]; Juveniles := [Y0];
                 Total := [B0 + Y0] |}).
Proof.
  assert (forall (B0 Y0 : Z) (C m : float) (years : Z) (df : DataFrame),
             0 <= years ->
             project_herd_yearly B0 Y0 C m years = Returns df ->
             Z.of_nat (nrows df) = years + 1 /\
             Z.of_nat (length (Breeders df)) = years + 1 /\
             Z.of_nat (length (Juveniles df)) = years + 1 /\
             Z.of_nat (length (Total df)) = years + 1 /\
             Year df !! 0%nat = Some 0 /\
             Breeders df !! 0%nat = Some B0 /\
             Juveniles df !! 0%nat = Some Y0 /\
             Total df !! 0%nat = Some (int64_add B0 Y0)) as Hrows.
  { intros B0 Y0 C m years df Hy Hdf.
    apply project_herd_yearly_Returns in Hdf
      as (B & Y & _ & HlB & HlY & _ & _ & (tB & tY & -> & ->) & _ & _ & ->).
    unfold nrows. cbn [Year Breeders Juveniles Total].
    rewrite py_range_length, length_zip_with.
    rewrite py_range_lookup by lia.
    repeat split; try lia; reflexivity. }
  split; [| split].
  - intros B0 Y0 C m years df Hy Hdf _ _.
    destruct (Hrows B0 Y0 C m years df Hy Hdf)
      as (H1 & H2 & H3 & H4 & H5 & H6 & H7 & H8).
    repeat (split; [assumption |]).
    intros Hsum. rewrite H8. unfold int64_add.
    rewrite wrap64_small by (apply in_int64_range; exact Hsum). reflexivity.
  - intros B0 Y0 C m years L Hy HL Hsum HB0 HY0 HC Hs.
    destruct (project_herd_yearly_bounded B0 Y0 C m years L HC Hs Hy HL Hsum
                HB0 HY0) as (B & Y & HB & HY & Hdf).
    eexists. split; [exact Hdf |].
    destruct (Hrows B0 Y0 C m years _ Hy Hdf)
      as (H1 & H2 & H3 & H4 & _ & H6 & H7 & _).
    cbn [Breeders Juveniles] in *.
    split; [apply (abs_le_pow2_in_int64 B (L + years)); [lia | exact HB] |].
    split; [apply (abs_le_pow2_in_int64 Y (L + years)); [lia | exact HY] |].
    repeat split; assumption.
  - intros B0 Y0 C m HB HY Hsum.
    rewrite project_herd_yearly_zero_horizon by assumption.
    unfold int64_add.
    rewrite wrap64_small by (apply in_int64_range; exact Hsum). reflexivity.
Qed.

Lemma project_herd_yearly_horizon_witness :
  (Z.of_nat (nrows {| Year := [0; 1]; Breeders := [20; 28];
                      Juveniles := [10; 10]; Total := [30; 38] |}) = 1 + 1 /\
   (in_int64 (20 + 10) = true ->
    Total {| Year := [0; 1]; Breeders := [20; 28];
             Juveniles := [10; 10]; Total := [30; 38] |} !! 0%nat
    = Some (20 + 10))) /\
  (exists df : DataFrame,
      project_herd_yearly (-20) 10 f_0_5 f_1_5 40 = Returns df /\
      Z.of_nat (nrows df) = 40 + 1) /\
  project_herd_yearly 20 10 f_0_5 f_0_05 0 =
    Returns {| Year := [0]; Breeders := [20]; Juveniles := [10];
               Total := [20 + 10] |}.
Proof.
  split; [| split].
  - destruct (proj1 project_herd_yearly_horizon 20 10 f_0_5 f_0_05 1
                {| Year := [0; 1]; Breeders := [20; 28];
                   Juveniles := [10; 10]; Total := [30; 38] |}
                ltac:(lia) ltac:(vm_compute; reflexivity) eq_refl eq_refl)
      as (H1 & _ & _ & _ & _ & _ & _ & H8).
    split; [exact H1 | exact H8].
  - destruct (proj1 (proj2 project_herd_yearly_horizon)
                (-20) 10 f_0_5 f_1_5 40 5
                ltac:(lia) ltac:(lia) ltac:(lia)
                ltac:(vm_compute; discriminate) ltac:(vm_compute; discriminate)
                eq_refl eq_refl)
      as (df & Hdf & _ & _ & Hn & _).
    exists df. split; [exact Hdf | exact Hn].
  - apply (proj2 (proj2 project_herd_yearly_horizon) 20 10 f_0_5 f_0_05);
      reflexivity.
Defined.

(** C2, as stated, fails: with [B0 = 2^63 - 1], [Y0 = 1] and a zero
    horizon the single row that comes back has the total [-2^63], which is
    not the total of the initial state. *)
Lemma project_herd_yearly_initial_total_overflow :
  0 <= 0 /\
  project_herd_yearly (2 ^ 63 - 1) 1 f_0_5 f_0_05 0 =
    Returns {| Year := [0]; Breeders := [2 ^ 63 - 1]; Juveniles := [1];
               Total := [- 2 ^ 63] |} /\
  - 2 ^ 63 <> (2 ^ 63 - 1) + 1.
Proof. repeat split; try (vm_compute; reflexivity); vm_compute; discriminate. Qed.

(** ** Parameters outside the valid domain *)

(** C5 (amended). [project_herd_yearly] validates nothing and has no error
    of its own for a parameter. A negative [years] makes the call fail
    (for [B0], [Y0] within 64 bits), with the [ValueError] of the frame
    construction: the year column is empty, the count columns hold one
    entry. For [years >= 0] a negative breeder count, a negative juvenile
    count or a mortality [m >= 1] goes through the recurrence like any
    other value and a series of [years + 1] rows starting at ([B0], [Y0])
    is returned, whenever [|B0|], [|Y0| <= 2^L], [L + years <= 62],
    [|C| <= 1] and [0 <= m <= 2]; as for [B0 = -5], for [Y0 = -10] and
    for [m = 1.5]. (Larger herds, and rates that are infinite or not
    numbers, can make the loop raise; they are left aside.) *)
Theorem project_herd_yearly_unvalidated :
  (forall (B0 Y0 : Z) (C m : float) (years : Z),
      years < 0 -> in_int64 B0 = true -> in_int64 Y0 = true ->
      project_herd_yearly B0 Y0 C m years = Raises ValueError) /\
  (forall (B0 Y0 : Z) (C m : float) (years L : Z),
      B0 < 0 \/ Y0 < 0 \/ F64.leb F64.one m = true ->
      0 <= years -> 0 <= L -> L + years <= 62 ->
      Z.abs B0 <= 2 ^ L -> Z.abs Y0 <= 2 ^ L ->
      abs_le_pow2 0 C = true ->
      F64.leb F64.zero m = true -> abs_le_pow2 1 m = true ->
      exists df : DataFrame,
        project_herd_yearly B0 Y0 C m years = Returns df /\
        Z.of_nat (nrows df) = years + 1 /\
        Breeders df !! 0%nat = Some B0 /\
        Juveniles df !! 0%nat = Some Y0) /\
  project_herd_yearly (-5) 0 f_0_5 f_0_05 1 =
    Returns {| Year := [0; 1]; Breeders := [-5; -5];
               Juveniles := [0; -2]; Total := [-5; -7] |} /\
  project_herd_yearly 20 (-10) f_0_5 f_0_05 1 =
    Returns {| Year := [0; 1]; Breeders := [20; 10];
               Juveniles := [-10; 10]; Total := [10; 20] |} /\
  F64.leb F64.one f_1_5 = true /\
  project_herd_yearly 20 10 f_0_5 f_1_5 1 =
    Returns {| Year := [0; 1]; Breeders := [20; -15];
               Juveniles := [10; -5]; Total := [30; -20] |}.
Proof.
  split; [| split; [| repeat split; vm_compute; reflexivity]].
  - intros B0 Y0 C m years Hy HB HY.
    unfold project_herd_yearly, build_frame.
    assert (py_range 1 (years + 1) = []) as ->.
    { unfold py_range. replace (Z.to_nat (years + 1 - 1)) with 0%nat by lia.
      reflexivity. }
    assert (py_range 0 (years + 1) = []) as ->.
    { unfold py_range. replace (Z.to_nat (years + 1 - 0)) with 0%nat by lia.
      reflexivity. }
    cbn [for_each mbind outcome_bind obind].
    unfold np_array_int. cbn [forallb]. rewrite HB, HY. reflexivity.
  - intros B0 Y0 C m years L _ Hy HL Hsum HB0 HY0 HC Hm0 Hm2.
    destruct (project_herd_yearly_bounded B0 Y0 C m years L HC
                (rate_survival_le_1 m Hm0 Hm2) Hy HL Hsum HB0 HY0)
      as (B & Y & _ & _ & Hdf).
    eexists. split; [exact Hdf |].
    apply project_herd_yearly_Returns in Hdf
      as (B' & Y' & _ & HlB & _ & _ & _ & (tB & tY & -> & ->) & _ & _ & Heq).
    inversion Heq; subst B Y; clear Heq.
    unfold nrows. cbn [Year Breeders Juveniles].
    rewrite py_range_length.
    repeat split; try reflexivity. lia.
Qed.

Lemma project_herd_yearly_unvalidated_witness :
  project_herd_yearly 20 10 f_0_5 f_0_05 (-1) = Raises ValueError /\
  exists df : DataFrame,
    project_herd_yearly (-5) 0 f_0_5 f_1_5 30 = Returns df /\
    Z.of_nat (nrows df) = 30 + 1 /\
    Breeders df !! 0%nat = Some (-5) /\
    Juveniles df !! 0%nat = Some 0.
Proof.
  split.
  - apply (proj1 project_herd_yearly_unvalidated 20 10 f_0_5 f_0_05 (-1));
      [lia | reflexivity | reflexivity].
  - apply (proj1 (proj2 project_herd_yearly_unvalidated)
             (-5) 0 f_0_5 f_1_5 30 3).
    + left. lia.
    + lia.
    + lia.
    + lia.
    + vm_compute. discriminate.
    + vm_compute. discriminate.
    + reflexivity.
    + reflexivity.
    + reflexivity.
Defined.

(** C5, as stated, fails: a negative breeder count is accepted and a
    numeric series comes back. *)
Lemma project_herd_yearly_accepts_negative_count :
  -5 < 0 /\
  project_herd_yearly (-5) 0 f_0_5 f_0_05 1 =
    Returns {| Year := [0; 1]; Breeders := [-5; -5];
               Juveniles := [0; -2]; Total := [-5; -7] |}.
Proof. split; [lia | vm_compute; reflexivity]. Qed.

(** ** Signs and totals in the valid domain *)

(** C7 (amended). In the valid domain ([B0 >= 0], [Y0 >= 0], [0 < C <= 1],
    [0 <= m < 1], [years >= 0]; [C] and [m] well-formed binary64 numbers),
    every row of a returned frame whose counts fit signed 64-bit integers
    has non-negative breeder and juvenile counts, and its total is
    breeders + juveniles (and non-negative) when that sum is below
    [2^63]. This is the case of every herd with [B0], [Y0 <= 2^L] and
    [L + years <= 61]: the call returns, and in each of the [years + 1]
    rows the counts are non-negative and the total is their sum. *)
Theorem project_herd_yearly_nonneg :
  (forall (B0 Y0 : Z) (C m : float) (years : Z) (df : DataFrame),
      0 <= B0 -> 0 <= Y0 ->
      F64.ltb F64.zero C = true ->
      F64.valid m = true -> F64.leb F64.zero m = true ->
      F64.ltb m F64.one = true ->
      project_herd_yearly B0 Y0 C m years = Returns df ->
      forallb in_int64 (Breeders df) = true ->
      forallb in_int64 (Juveniles df) = true ->
      forall (i : nat) (b y t : Z),
        Breeders df !! i = Some b -> Juveniles df !! i = Some y ->
        Total df !! i = Some t ->
        0 <= b /\ 0 <= y /\ (b + y < 2 ^ 63 -> t = b + y /\ 0 <= t)) /\
  (forall (B0 Y0 : Z) (C m : float) (years L : Z),
      0 <= B0 <= 2 ^ L -> 0 <= Y0 <= 2 ^ L ->
      0 <= years -> 0 <= L -> L + years <= 61 ->
      F64.valid C = true -> F64.ltb F64.zero C = true ->
      F64.leb C F64.one = true ->
      F64.valid m = true -> F64.leb F64.zero m = true ->
      F64.ltb m F64.one = true ->
      exists df : DataFrame,
        project_herd_yearly B0 Y0 C m years = Returns df /\
        Z.of_nat (nrows df) = years + 1 /\
        Z.of_nat (length (Breeders df)) = years + 1 /\
        Z.of_nat (length (Juveniles df)) = years + 1 /\
        Z.of_nat (length (Total df)) = years + 1 /\
        forall (i : nat) (b y t : Z),
          Breeders df !! i = Some b -> Juveniles df !! i = Some y ->
          Total df !! i = Some t ->
          0 <= b /\ 0 <= y /\ t = b + y).
Proof.
  assert (forall (B0 Y0 : Z) (C m : float) (years : Z) (B Y : list Z),
             0 <= B0 -> 0 <= Y0 ->
             F64.ltb F64.zero C = true ->
             F64.valid m = true -> F64.leb F64.zero m = true ->
             F64.ltb m F64.one = true ->
             project_herd_yearly B0 Y0 C m years =
               Returns {| Year := py_range 0 (years + 1); Breeders := B;
                          Juveniles := Y; Total := zip_with int64_add B Y |} ->
             Forall (Z.le 0) B /\ Forall (Z.le 0) Y) as Hsigns.
  { intros B0 Y0 C m years B Y HB0 HY0 HC Hmv Hm0 Hm1 Hdf.
    apply project_herd_yearly_Returns in Hdf
      as (B' & Y' & Hloop & _ & _ & _ & _ & _ & _ & _ & Heq).
    inversion Heq; subst B' Y'; clear Heq.
    apply for_each_nonneg in Hloop as [HB HY].
    - split; assumption.
    - apply positive_sign_clear. exact HC.
    - apply one_minus_sign_clear; assumption.
    - constructor; [exact HB0 | constructor].
    - constructor; [exact HY0 | constructor]. }
  split.
  - intros B0 Y0 C m years df HB0 HY0 HC Hmv Hm0 Hm1 Hdf _ _ i b y t Hb Hy Ht.
    pose proof Hdf as Hdf'.
    apply project_herd_yearly_Returns in Hdf'
      as (B & Y & _ & _ & _ & _ & _ & _ & _ & _ & ->).
    destruct (Hsigns B0 Y0 C m years B Y HB0 HY0 HC Hmv Hm0 Hm1 Hdf) as [HB HY].
    cbn [Breeders Juveniles Total] in Hb, Hy, Ht.
    rewrite lookup_zip_with, Hb, Hy in Ht. cbn in Ht.
    inversion Ht; subst t; clear Ht.
    rewrite Forall_lookup in HB, HY.
    specialize (HB _ _ Hb). specialize (HY _ _ Hy). cbn in HB, HY.
    unfold int64_add.
    split; [exact HB |]. split; [exact HY |].
    intros Hsum. rewrite wrap64_small; [lia |].
    change (2 ^ 63) with 9223372036854775808 in *. lia.
  - intros B0 Y0 C m years L HB0 HY0 Hy HL Hsum HCv HC0 HC1 Hmv Hm0 Hm1.
    destruct (project_herd_yearly_bounded B0 Y0 C m years L
                (birth_rate_le_1 C HCv HC0 HC1)
                (mortality_survival_le_1 m Hmv Hm0 Hm1) Hy HL ltac:(lia)
                ltac:(lia) ltac:(lia)) as (B & Y & HB & HY & Hdf).
    destruct (Hsigns B0 Y0 C m years B Y ltac:(lia) ltac:(lia) HC0 Hmv Hm0 Hm1
                Hdf) as [HB' HY'].
    eexists. split; [exact Hdf |].
    apply project_herd_yearly_Returns in Hdf
      as (B1 & Y1 & _ & HlB & HlY & _ & _ & _ & _ & _ & Heq).
    inversion Heq; subst B1 Y1; clear Heq.
    unfold nrows. cbn [Year Breeders Juveniles Total].
    rewrite py_range_length, length_zip_with.
    repeat (split; [lia |]).
    intros i b y t Hb Hyi Ht.
    rewrite lookup_zip_with, Hb, Hyi in Ht. cbn in Ht.
    inversion Ht; subst t; clear Ht.
    rewrite Forall_lookup in HB, HY, HB', HY'.
    pose proof (HB _ _ Hb) as Hb1. pose proof (HY _ _ Hyi) as Hy1.
    pose proof (HB' _ _ Hb) as Hb0. pose proof (HY' _ _ Hyi) as Hy0.
    cbn beta in Hb1, Hy1, Hb0, Hy0.
    assert (2 ^ (L + years) <= 2 ^ 61) as Hp by (apply Z.pow_le_mono_r; lia).
    change (2 ^ 61) with 2305843009213693952 in Hp.
    split; [exact Hb0 |]. split; [exact Hy0 |].
    unfold int64_add. apply wrap64_small.
    change (2 ^ 63) with 9223372036854775808. lia.
Qed.

Lemma project_herd_yearly_nonneg_witness :
  (0 <= 28 /\ 0 <= 10 /\ (28 + 10 < 2 ^ 63 -> 38 = 28 + 10 /\ 0 <= 38)) /\
  (exists df : DataFrame,
      project_herd_yearly 20 10 f_0_5 f_0_05 50 = Returns df /\
      Z.of_nat (nrows df) = 50 + 1).
Proof.
  split.
  - apply (proj1 project_herd_yearly_nonneg 20 10 f_0_5 f_0_05 1
             {| Year := [0; 1]; Breeders := [20; 28];
                Juveniles := [10; 10]; Total := [30; 38] |}
             ltac:(lia) ltac:(lia) eq_refl eq_refl eq_refl eq_refl
             ltac:(vm_compute; reflexivity) eq_refl eq_refl
             1%nat 28 10 38 eq_refl eq_refl eq_refl).
  - destruct (proj2 project_herd_yearly_nonneg 20 10 f_0_5 f_0_05 50 5
                ltac:(vm_compute; split; discriminate)
                ltac:(vm_compute; split; discriminate)
                ltac:(lia) ltac:(lia) ltac:(lia)
                eq_refl eq_refl eq_refl eq_refl eq_refl eq_refl)
      as (df & Hdf & Hn & _).
    exists df. split; [exact Hdf | exact Hn].
Defined.

(** C7, as stated, fails: with [B0 = Y0 = 2^62] (valid domain, zero
    horizon) the total column overflows the 64-bit integers and holds
    [-2^63], which is negative and differs from breeders + juveniles. *)
Lemma project_herd_yearly_total_overflow :
  0 <= 2 ^ 62 /\
  F64.ltb F64.zero f_0_5 = true /\ F64.leb f_0_5 F64.one = true /\
  F64.leb F64.zero f_0_05 = true /\ F64.ltb f_0_05 F64.one = true /\
  project_herd_yearly (2 ^ 62) (2 ^ 62) f_0_5 f_0_05 0 =
    Returns {| Year := [0]; Breeders := [2 ^ 62]; Juveniles := [2 ^ 62];
               Total := [- 2 ^ 63] |} /\
  - 2 ^ 63 <> 2 ^ 62 + 2 ^ 62 /\ - 2 ^ 63 < 0.
Proof. repeat split; try (vm_compute; reflexivity); vm_compute; discriminate. Qed.
